(** * OWL fibers: the render-scheduling core ([src/component/fibers.ts])

    A shallow embedding of the fiber bookkeeping of the OWL component
    framework.  Fibers and component nodes are JavaScript objects that refer
    to each other; they are modelled as records in two stores indexed by
    object identity, and every function of [fibers.ts] becomes a state
    transformer on these stores. *)

From Stdlib Require Import ZArith Lia.
From stdpp Require Import base option list gmap strings.

(** ** Object identities and opaque values *)

(** A [Fiber] object (also [RootFiber], [MountFiber]). *)
Abbreviation loc := nat (only parsing).
(** A [ComponentNode] object. *)
Abbreviation node_id := nat (only parsing).
(** A render output; the scheduler never looks inside. *)
Abbreviation BDom := nat (only parsing).
(** A registered lifecycle hook (a JavaScript function). *)
Abbreviation callback := nat (only parsing).
(** A component instance, the receiver of willPatch hooks. *)
Abbreviation component_id := nat (only parsing).
(** A DOM node: a mount target or one of its children. *)
Abbreviation elem := nat (only parsing).

(** [type Position = "first-child" | "last-child"] *)
Inductive Position := first_child | last_child.

(** Modelled from the spec: [status.ts] is not part of the sources; the spec
    only speaks of "a settable mounted-status marker", so the status is a
    node that is new or [MOUNTED]. *)
Inductive STATUS := NEW | MOUNTED.

(** What is thrown: a [TypeError] of the runtime (a member access on
    [null]) or a value thrown by a collaborator. *)
Inductive Exn := TypeError | Thrown (v : nat).

#[global] Instance Position_eq_dec : EqDecision Position.
Proof. solve_decision. Defined.
#[global] Instance STATUS_eq_dec : EqDecision STATUS.
Proof. solve_decision. Defined.
#[global] Instance Exn_eq_dec : EqDecision Exn.
Proof. solve_decision. Defined.

(** ** The classes

    [class Fiber], [class RootFiber extends Fiber] and
    [class MountFiber extends RootFiber]: an object carries the fields of
    [Fiber], a [RootFiber] has a [rootPart] besides, a [MountFiber] a
    [mountPart] inside it.  The [counter] is a JavaScript number that only
    ever holds integers, so it is an integer here. *)

Record MountPart := mkMountPart {
  target : elem;
  position : Position
}.

Record RootPart := mkRootPart {
  counter : Z;
  willPatch : list loc;
  patched : list loc;
  mounted : list loc;
  locked : bool;
  mountPart : option MountPart
}.

Record Fiber := mkFiber {
  node : node_id;
  bdom : option BDom;
  root : loc;
  parent : option loc;
  children : list loc;
  appliedToDom : bool;
  rootPart : option RootPart
}.

(** Modelled from the spec: [component_node.ts] is not part of the sources.
    These are the fields of a component node that [fibers.ts] reads and
    writes, as the spec lists them among the collaborator contracts;
    [children] is the registry of nested nodes, of which only the number of
    keys matters here. *)
Module ComponentNode.
Record t := mk {
  fiber : option loc;
  bdom : option BDom;
  component : component_id;
  children : gmap string node_id;
  willPatch : list callback;
  patched : list callback;
  mounted : list callback;
  status : STATUS
}.
End ComponentNode.

(** The stores: every live fiber and node, the [fibersInError] set of
    [error_handling.ts] and the [childNodes] of the DOM elements. *)
Record World := mkWorld {
  fibers : gmap loc Fiber;
  nodes : gmap node_id ComponentNode.t;
  fibersInError : gset loc;
  childNodes : gmap elem (list elem)
}.

(** ** Field assignments *)

Definition set_bdom (v : option BDom) (f : Fiber) : Fiber :=
  mkFiber (node f) v (root f) (parent f) (children f) (appliedToDom f) (rootPart f).
Definition set_root (v : loc) (f : Fiber) : Fiber :=
  mkFiber (node f) (bdom f) v (parent f) (children f) (appliedToDom f) (rootPart f).
Definition set_parent (v : option loc) (f : Fiber) : Fiber :=
  mkFiber (node f) (bdom f) (root f) v (children f) (appliedToDom f) (rootPart f).
Definition set_children (v : list loc) (f : Fiber) : Fiber :=
  mkFiber (node f) (bdom f) (root f) (parent f) v (appliedToDom f) (rootPart f).
Definition set_appliedToDom (v : bool) (f : Fiber) : Fiber :=
  mkFiber (node f) (bdom f) (root f) (parent f) (children f) v (rootPart f).
Definition set_rootPart (v : option RootPart) (f : Fiber) : Fiber :=
  mkFiber (node f) (bdom f) (root f) (parent f) (children f) (appliedToDom f) v.

Definition set_counter (v : Z) (r : RootPart) : RootPart :=
  mkRootPart v (willPatch r) (patched r) (mounted r) (locked r) (mountPart r).
Definition set_willPatch (v : list loc) (r : RootPart) : RootPart :=
  mkRootPart (counter r) v (patched r) (mounted r) (locked r) (mountPart r).
Definition set_patched (v : list loc) (r : RootPart) : RootPart :=
  mkRootPart (counter r) (willPatch r) v (mounted r) (locked r) (mountPart r).
Definition set_mounted (v : list loc) (r : RootPart) : RootPart :=
  mkRootPart (counter r) (willPatch r) (patched r) v (locked r) (mountPart r).
Definition set_locked (v : bool) (r : RootPart) : RootPart :=
  mkRootPart (counter r) (willPatch r) (patched r) (mounted r) v (mountPart r).

Definition set_node_fiber (v : option loc) (n : ComponentNode.t) : ComponentNode.t :=
  ComponentNode.mk v (ComponentNode.bdom n) (ComponentNode.component n)
    (ComponentNode.children n) (ComponentNode.willPatch n)
    (ComponentNode.patched n) (ComponentNode.mounted n) (ComponentNode.status n).
Definition set_node_bdom (v : option BDom) (n : ComponentNode.t) : ComponentNode.t :=
  ComponentNode.mk (ComponentNode.fiber n) v (ComponentNode.component n)
    (ComponentNode.children n) (ComponentNode.willPatch n)
    (ComponentNode.patched n) (ComponentNode.mounted n) (ComponentNode.status n).
Definition set_node_status (v : STATUS) (n : ComponentNode.t) : ComponentNode.t :=
  ComponentNode.mk (ComponentNode.fiber n) (ComponentNode.bdom n)
    (ComponentNode.component n) (ComponentNode.children n)
    (ComponentNode.willPatch n) (ComponentNode.patched n)
    (ComponentNode.mounted n) v.

Definition set_fibers (v : gmap loc Fiber) (w : World) : World :=
  mkWorld v (nodes w) (fibersInError w) (childNodes w).
Definition set_nodes (v : gmap node_id ComponentNode.t) (w : World) : World :=
  mkWorld (fibers w) v (fibersInError w) (childNodes w).
Definition set_fibersInError (v : gset loc) (w : World) : World :=
  mkWorld (fibers w) (nodes w) v (childNodes w).

(** ** Store access

    A computation on the stores either yields a value and the new stores or
    has no result: [None] stands for a reference to an object that is not
    in the store or is not of the class the code expects (which the type
    checker of the source rules out), and for a recursion that is deeper
    than the fuel it was given. *)

Definition M (A : Type) : Type := World → option (A * World).

Definition ret {A} (a : A) : M A := λ w, Some (a, w).
Definition fail {A} : M A := λ _, None.
Definition bind {A B} (m : M A) (k : A → M B) : M B :=
  λ w, match m w with
       | Some (a, w') => k a w'
       | None => None
       end.

Declare Scope store_scope.
Delimit Scope store_scope with M.
Notation "'let*' x ':=' m 'in' k" := (bind m (λ x, k))
  (at level 10, x name, m at level 100, k at level 200) : store_scope.
Notation "m ';;' k" := (bind m (λ _, k))
  (at level 100, k at level 200, right associativity) : store_scope.
Local Open Scope store_scope.

Definition getFiber (l : loc) : M Fiber :=
  λ w, match fibers w !! l with
       | Some f => Some (f, w)
       | None => None
       end.
Definition putFiber (l : loc) (f : Fiber) : M unit :=
  λ w, Some (tt, set_fibers (<[l := f]> (fibers w)) w).
(** [l.field = v], for an object [l] of the store *)
Definition modFiber (l : loc) (g : Fiber → Fiber) : M unit :=
  let* f := getFiber l in putFiber l (g f).

Definition getRoot (l : loc) : M RootPart :=
  let* f := getFiber l in
  match rootPart f with
  | Some r => ret r
  | None => fail
  end.
Definition modRoot (l : loc) (g : RootPart → RootPart) : M unit :=
  let* r := getRoot l in modFiber l (set_rootPart (Some (g r))).

Definition getNode (n : node_id) : M ComponentNode.t :=
  λ w, match nodes w !! n with
       | Some c => Some (c, w)
       | None => None
       end.
Definition modNode (n : node_id) (g : ComponentNode.t → ComponentNode.t) : M unit :=
  let* c := getNode n in
  λ w, Some (tt, set_nodes (<[n := g c]> (nodes w)) w).

(** [new]: the identity of the object being created is one that no object
    of the store has. *)
Definition alloc : M loc := λ w, Some (fresh (dom (fibers w)), w).

(** Modelled from the spec: [error_handling.ts] is not part of the sources;
    the spec has "a set of fibers currently flagged as errored", of which
    [fibers.ts] uses [fibersInError.has(l)] and [fibersInError.delete(l)]. *)
Definition fibersInError_has (l : loc) : M bool :=
  λ w, Some (bool_decide (l ∈ fibersInError w), w).
Definition fibersInError_delete (l : loc) : M unit :=
  λ w, Some (tt, set_fibersInError (fibersInError w ∖ {[l]}) w).

(** ** Arrays *)

(** [arr.indexOf(x)], [None] for [-1] *)
Definition indexOf (x : loc) (arr : list loc) : option nat :=
  fst <$> list_find (λ y, y = x) arr.

(** [arr.splice(i, 1)] *)
Definition splice1 (i : nat) (arr : list loc) : list loc := delete i arr.

(** ** [cleanPatchableFiber] *)

Definition cleanPatchableFiber (child rt : loc) : M unit :=
  let* r := getRoot rt in
  (match indexOf child (willPatch r) with
   | Some i => modRoot rt (λ r, set_willPatch (splice1 i (willPatch r)) r)
   | None => ret tt
   end) ;;
  let* r := getRoot rt in
  match indexOf child (patched r) with
  | Some i => modRoot rt (λ r, set_patched (splice1 i (patched r)) r)
  | None => ret tt
  end.

(** ** [cancelFibers]

    The source recurses into [fiber.children]; [fuel] bounds the depth of
    that recursion, and [cancelLoop] is the [for] loop of one call. *)

Fixpoint cancelLoop (rec : list loc → M Z) (rt : loc) (fs : list loc)
    (result : Z) : M Z :=
  match fs with
  | [] => ret result
  | fiber :: rest =>
      let* f := getFiber fiber in
      modNode (node f) (set_node_fiber None) ;;
      modFiber fiber (set_root rt) ;;
      let* f := getFiber fiber in
      let result := match bdom f with
                    | Some _ => result
                    | None => (result + 1)%Z
                    end in
      let* n := rec (children f) in
      cancelLoop rec rt rest (result + n)%Z
  end.

Fixpoint cancelFibers (fuel : nat) (rt : loc) (fs : list loc) : M Z :=
  match fuel with
  | 0 => match fs with [] => ret 0%Z | _ :: _ => fail end
  | S fuel' => cancelLoop (cancelFibers fuel' rt) rt fs 0
  end.

(** ** The constructors *)

(** The body of [Fiber]'s constructor, run on the new object [this] after
    its field initialisers ([bdom = null], [children = []],
    [appliedToDom = false]). *)
Definition Fiber_constructor (this : loc) (nd : node_id) (par : option loc) : M unit :=
  putFiber this (mkFiber nd None this par [] false None) ;;
  match par with
  | Some p =>
      let* pf := getFiber p in
      let rt := root pf in
      modRoot rt (λ r, set_counter (counter r + 1) r) ;;
      modFiber this (set_root rt) ;;
      modFiber p (λ f, set_children (children f ++ [this]) f)
  | None => modFiber this (set_root this)
  end.

(** [new Fiber(node, parent)] *)
Definition new_Fiber (nd : node_id) (par : option loc) : M loc :=
  let* this := alloc in
  Fiber_constructor this nd par ;;
  ret this.

(** The field initialisers of [RootFiber], run after [super(...)]. *)
Definition RootFiber_fields (this : loc) : M unit :=
  modFiber this (set_rootPart (Some (mkRootPart 1 [] [] [] false None))).

(** [new RootFiber(node, parent)] *)
Definition new_RootFiber (nd : node_id) (par : option loc) : M loc :=
  let* this := alloc in
  Fiber_constructor this nd par ;;
  RootFiber_fields this ;;
  ret this.

(** [new MountFiber(node, target, options)]; [options] is the
    [position] of the [MountOptions], if it has one. *)
Definition new_MountFiber (nd : node_id) (tg : elem) (options : option Position) : M loc :=
  let* this := alloc in
  Fiber_constructor this nd None ;;
  RootFiber_fields this ;;
  let pos := match options with Some p => p | None => last_child end in
  modRoot this (λ r, mkRootPart (counter r) (willPatch r) (patched r)
                       (mounted r) (locked r) (Some (mkMountPart tg pos))) ;;
  ret this.

(** ** [makeChildFiber] *)

Definition makeChildFiber (fuel : nat) (nd : node_id) (par : loc) : M loc :=
  let* n := getNode nd in
  match ComponentNode.fiber n with
  | Some current =>
      let* p := getFiber par in
      let rt := root p in
      let* c := getFiber current in
      let isSameRoot := bool_decide (root c = rt) in
      let* _ := cancelFibers fuel rt (children c) in
      modFiber current (set_children []) ;;
      modFiber current (set_parent (Some par)) ;;
      let* c := getFiber current in
      (if negb isSameRoot || bool_decide (is_Some (bdom c))
       then modRoot rt (λ r, set_counter (counter r + 1) r)
       else ret tt) ;;
      (if isSameRoot then cleanPatchableFiber current rt else ret tt) ;;
      modFiber current (set_bdom None) ;;
      modFiber current (set_root rt) ;;
      ret current
  | None => new_Fiber nd (Some par)
  end.

(** ** [makeRootFiber] *)

Definition makeRootFiber (fuel : nat) (nd : node_id) : M loc :=
  let* n := getNode nd in
  match ComponentNode.fiber n with
  | Some current =>
      let* c := getFiber current in
      let rt := root c in
      let* r := getRoot rt in
      let* cancelled := cancelFibers fuel rt (children c) in
      modRoot rt (set_counter (counter r - cancelled)) ;;
      modFiber current (set_children []) ;;
      modRoot rt (λ r, set_counter (counter r + 1) r) ;;
      modFiber current (set_bdom None) ;;
      let* inError := fibersInError_has current in
      (if inError
       then fibersInError_delete current ;;
            fibersInError_delete rt ;;
            modFiber current (set_appliedToDom false)
       else ret tt) ;;
      ret current
  | None =>
      let* fiber := new_RootFiber nd None in
      (if bool_decide (ComponentNode.willPatch n ≠ [])
       then modRoot fiber (λ r, set_willPatch (willPatch r ++ [fiber]) r)
       else ret tt) ;;
      (if bool_decide (ComponentNode.patched n ≠ [])
       then modRoot fiber (λ r, set_patched (patched r ++ [fiber]) r)
       else ret tt) ;;
      ret fiber
  end.

(** ** The fibers of a batch

    [subtree fuel h fs] lists the fibers of the subtrees of [fs]: every
    fiber of [fs] followed by the subtrees of its [children], in the order
    in which [cancelFibers] visits them.  [fuel] bounds the depth. *)

Fixpoint subtreeLoop (rec : list loc → option (list loc)) (h : gmap loc Fiber)
    (fs : list loc) : option (list loc) :=
  match fs with
  | [] => Some []
  | f :: rest =>
      match h !! f with
      | None => None
      | Some o =>
          match rec (children o), subtreeLoop rec h rest with
          | Some d, Some r => Some (f :: d ++ r)
          | _, _ => None
          end
      end
  end.

Fixpoint subtree (fuel : nat) (h : gmap loc Fiber) (fs : list loc) : option (list loc) :=
  match fuel with
  | 0 => match fs with [] => Some [] | _ :: _ => None end
  | S fuel' => subtreeLoop (subtree fuel' h) h fs
  end.

(** The output of the fiber [f] is set ([f.bdom] is not [null]). *)
Definition outputSet (h : gmap loc Fiber) (f : loc) : Prop :=
  is_Some (h !! f ≫= bdom).

(** The number of fibers of [l] whose output is still unset. *)
Definition pending (h : gmap loc Fiber) (l : list loc) : Z :=
  Z.of_nat (length (filter (λ f, ¬ outputSet h f) l)).

(** The node of every fiber of [l] is in the store. *)
Definition nodes_present (w : World) (l : list loc) : Prop :=
  ∀ f o, f ∈ l → fibers w !! f = Some o → is_Some (nodes w !! node o).

(** What one turn of the loop of [cancelFibers] writes. *)
Definition cancelOne (rt : loc) (w : World) (f : loc) : World :=
  match fibers w !! f with
  | Some o =>
      match nodes w !! node o with
      | Some c =>
          set_fibers (<[f := set_root rt o]> (fibers w))
            (set_nodes (<[node o := set_node_fiber None c]> (nodes w)) w)
      | None => w
      end
  | None => w
  end.

(** The nodes of the fibers of [l]. *)
Definition nodes_of (h : gmap loc Fiber) (l : list loc) : list node_id :=
  omap (λ f, node <$> h !! f) l.


(** [node.fiber = fiber], what the caller of [makeRootFiber] and
    [makeChildFiber] does with the fiber it gets. *)
Definition attach (nd : node_id) (f : loc) : M unit :=
  modNode nd (set_node_fiber (Some f)).

(** Two worlds that differ in the [root] of fibers and the [fiber] of nodes
    only, which is all that [cancelFibers] writes. *)
Definition modulo_root (w0 w : World) : Prop :=
  (∀ l, set_root 0 <$> fibers w0 !! l = set_root 0 <$> fibers w !! l) ∧
  (∀ n, set_node_fiber None <$> nodes w0 !! n
        = set_node_fiber None <$> nodes w !! n) ∧
  fibersInError w0 = fibersInError w ∧ childNodes w0 = childNodes w.

(** [arr] after [i = arr.indexOf(x); if (i > -1) arr.splice(i, 1)] *)
Definition without (x : loc) (arr : list loc) : list loc :=
  match indexOf x arr with
  | Some i => splice1 i arr
  | None => arr
  end.

Definition cleaned (child : loc) (r : RootPart) : RootPart :=
  set_patched (without child (patched r))
    (set_willPatch (without child (willPatch r)) r).

(** The counter of the root fiber [x], if [x] is one. *)
Definition counter_of (w : World) (x : loc) : option Z :=
  counter <$> (fibers w !! x ≫= rootPart).

(** The subtree of the root fiber [r] is a tree, and the counter of [r]
    is the number of its fibers whose output is unset, plus [k]. *)
Definition counter_exceeds (w : World) (r : loc) (k : Z) : Prop :=
  ∃ fuel l,
    subtree fuel (fibers w) [r] = Some l ∧ NoDup l ∧
    counter_of w r = Some (pending (fibers w) l + k)%Z.

(** The root fiber [r] counts its batch right. *)
Definition counter_ok (w : World) (r : loc) : Prop := counter_exceeds w r 0.

(** The fiber [x] is in the subtree of the root fiber [r]. *)
Definition in_batch (w : World) (r x : loc) : Prop :=
  ∃ fuel l, subtree fuel (fibers w) [r] = Some l ∧ x ∈ l.


(** ** What the bookkeeping leaves alone

    [q'] is [q] without the first occurrence of [x], as after
    [q.splice(q.indexOf(x), 1)] when [x] is in [q]. *)
Definition first_removed (x : loc) (q q' : list loc) : Prop :=
  ((x ∉ q) ∧ q' = q) ∨ (∃ l1 l2, q = l1 ++ x :: l2 ∧ (x ∉ l1) ∧ q' = l1 ++ l2).

(** The set of the fibers in error and the DOM are the same. *)
Definition same_env (w w' : World) : Prop :=
  fibersInError w' = fibersInError w ∧ childNodes w' = childNodes w.

(** A call that starts where [P] holds and returns ends where [Q]
    holds. *)
Definition mtriple {A} (P : World → Prop) (m : M A) (Q : A → World → Prop) : Prop :=
  ∀ w a w', P w → m w = Some (a, w') → Q a w'.


(** ** Sample worlds

    A batch of four fibers: the root fiber [1] with the children [2] (its
    output is set) and [3], and [4] a child of [3]; the node of the fiber
    [i] is [10 + i].  The node [15] has no fiber. *)

Definition sample_node (f : option loc) (cbs : list callback) : ComponentNode.t :=
  ComponentNode.mk f None 0 ∅ cbs cbs cbs NEW.

Definition batch1 : World :=
  mkWorld
    {[ 1 := mkFiber 11 None 1 None [2; 3] false
              (Some (mkRootPart 3 [] [] [] false None));
       2 := mkFiber 12 (Some 7) 1 (Some 1) [] false None;
       3 := mkFiber 13 None 1 (Some 1) [4] false None;
       4 := mkFiber 14 None 1 (Some 3) [] false None ]}
    {[ 11 := sample_node (Some 1) [];
       12 := sample_node (Some 2) [];
       13 := sample_node (Some 3) [];
       14 := sample_node (Some 4) [];
       15 := sample_node None [] ]}
    ∅ ∅.

(** Two batches that overlap: the root fiber [1] of the node [11], and
    the root fiber [5] of the node [15] with a child [6] that has not
    rendered; the render of [1] is about to reach the node [15]. *)
Definition overlap : World :=
  mkWorld
    {[ 1 := mkFiber 11 None 1 None [] false
              (Some (mkRootPart 1 [] [] [] false None));
       5 := mkFiber 15 None 5 None [6] false
              (Some (mkRootPart 2 [] [] [] false None));
       6 := mkFiber 16 None 5 (Some 5) [] false None ]}
    {[ 11 := sample_node (Some 1) [];
       15 := sample_node (Some 5) [];
       16 := sample_node (Some 6) [] ]}
    ∅ ∅.

(** A node that has never rendered, and the same after [makeRootFiber]. *)
Definition lone_node : World :=
  mkWorld ∅ {[ 11 := sample_node None [] ]} ∅ ∅.

Definition lone_root : World :=
  mkWorld
    {[ 0 := mkFiber 11 None 0 None [] false
              (Some (mkRootPart 1 [] [] [] false None)) ]}
    {[ 11 := sample_node None [] ]} ∅ ∅.

(** [lone_root] after [node.fiber = fiber]. *)
Definition lone_attached : World :=
  mkWorld
    {[ 0 := mkFiber 11 None 0 None [] false
              (Some (mkRootPart 1 [] [] [] false None)) ]}
    {[ 11 := sample_node (Some 0) [] ]} ∅ ∅.

Local Close Scope store_scope.

(** ** The commit protocol

    [complete()] calls code that is not the scheduler's: the hooks the
    components registered, the patch and mount primitives of blockdom,
    [node.updateDom()] and [handleError].  Each is a transformer of the
    stores that returns or throws; [handleError] returns. *)

Inductive Outcome :=
| Returns (w : World)
| Throws (e : Exn) (w : World).

Record Collaborators := mkCollaborators {
  (** [cb.call(component)], and [cb()] with no receiver *)
  call : callback → option component_id → World → Outcome;
  (** [old.patch(new, withChildren)] *)
  patch : BDom → option BDom → bool → World → Outcome;
  (** [mount(bdom, target)] and [mount(bdom, target, afterNode)] *)
  mount : option BDom → elem → option elem → World → Outcome;
  (** [node.updateDom()] *)
  updateDom : node_id → World → Outcome;
  (** [handleError({ fiber, error })] *)
  handleError : loc → Exn → World → World
}.

(** The three hook categories. *)
Inductive Hook := onWillPatch | onMounted | onPatched.

#[global] Instance Hook_eq_dec : EqDecision Hook.
Proof. solve_decision. Defined.

(** The calls a commit makes, in the order it makes them. *)
Inductive Event :=
| EvCall (h : Hook) (f : loc) (cb : callback)
| EvPatch (old : BDom) (new : option BDom) (withChildren : bool)
| EvMount (b : option BDom) (tg : elem) (afterNode : option elem)
| EvUpdateDom (n : node_id)
| EvHandleError (f : loc) (e : Exn).

#[global] Instance Event_eq_dec : EqDecision Event.
Proof. solve_decision. Defined.

(** The state of a running [complete()]: the stores, the calls made so far
    and the local variable [current] ([None] for [undefined]). *)
Record Frame := mkFrame {
  world : World;
  trace : list Event;
  current : option loc
}.

Definition set_world (w : World) (s : Frame) : Frame :=
  mkFrame w (trace s) (current s).
Definition set_current (c : option loc) (s : Frame) : Frame :=
  mkFrame (world s) (trace s) c.
Definition log (ev : Event) (s : Frame) : Frame :=
  mkFrame (world s) (trace s ++ [ev]) (current s).

(** A statement completes normally or abruptly (an exception is in
    flight); [None] as for [M]. *)
Inductive Result (A : Type) :=
| Normal (a : A) (s : Frame)
| Abrupt (e : Exn) (s : Frame).
Arguments Normal {A} a s.
Arguments Abrupt {A} e s.

Definition Cmd (A : Type) : Type := Frame → option (Result A).

Definition cret {A} (a : A) : Cmd A := λ s, Some (Normal a s).
Definition cbind {A B} (c : Cmd A) (k : A → Cmd B) : Cmd B :=
  λ s, match c s with
       | Some (Normal a s') => k a s'
       | Some (Abrupt e s') => Some (Abrupt e s')
       | None => None
       end.
Definition throw {A} (e : Exn) : Cmd A := λ s, Some (Abrupt e s).
(** [try { body } catch (e) { handler }] *)
Definition try_catch {A} (body : Cmd A) (handler : Exn → Cmd A) : Cmd A :=
  λ s, match body s with
       | Some (Normal a s') => Some (Normal a s')
       | Some (Abrupt e s') => handler e s'
       | None => None
       end.
(** A store computation as a statement. *)
Definition lift {A} (m : M A) : Cmd A :=
  λ s, match m (world s) with
       | Some (a, w) => Some (Normal a (set_world w s))
       | None => None
       end.
Definition assign_current (c : option loc) : Cmd unit :=
  λ s, Some (Normal tt (set_current c s)).
Definition read_current : Cmd (option loc) :=
  λ s, Some (Normal (current s) s).
(** A call of a collaborator: it is recorded, then it runs. *)
Definition external (ev : Event) (run : World → Outcome) : Cmd unit :=
  λ s, match run (world s) with
       | Returns w => Some (Normal tt (set_world w (log ev s)))
       | Throws e w => Some (Abrupt e (set_world w (log ev s)))
       end.

Declare Scope cmd_scope.
Delimit Scope cmd_scope with Cmd.
Notation "'let*' x ':=' m 'in' k" := (cbind m (λ x, k))
  (at level 10, x name, m at level 100, k at level 200) : cmd_scope.
Notation "m ';;' k" := (cbind m (λ _, k))
  (at level 100, k at level 200, right associativity) : cmd_scope.
Local Open Scope cmd_scope.

(** [for (x of arr) body]: the array iterator reads the array again at
    every step, so what the body does to the array is seen.  [arr] reads
    the array off the stores, [i] is the iterator's index and [fuel] bounds
    the number of iterations. *)
Fixpoint for_of {A} (fuel : nat) (arr : World → option (list A)) (i : nat)
    (body : A → Cmd unit) : Cmd unit :=
  match fuel with
  | 0 => λ _, None
  | S fuel' =>
      λ s, match arr (world s) with
           | None => None
           | Some l =>
               match l !! i with
               | None => Some (Normal tt s)
               | Some x => (body x ;; for_of fuel' arr (S i) body) s
               end
           end
  end.

(** [while ((current = queue.pop())) body], for a hook queue of the root
    fiber [this]; fibers are objects, so the loop ends when the queue is
    empty. *)
Fixpoint while_pop (fuel : nat) (this : loc) (get : RootPart → list loc)
    (set : list loc → RootPart → RootPart) (body : loc → Cmd unit) : Cmd unit :=
  match fuel with
  | 0 => λ _, None
  | S fuel' =>
      let* r := lift (getRoot this) in
      match last (get r) with
      | None => assign_current None
      | Some x =>
          lift (modRoot this (λ r, set (removelast (get r)) r)) ;;
          assign_current (Some x) ;;
          body x ;;
          while_pop fuel' this get set body
      end
  end.

Definition hooks_of (h : Hook) (n : ComponentNode.t) : list callback :=
  match h with
  | onWillPatch => ComponentNode.willPatch n
  | onMounted => ComponentNode.mounted n
  | onPatched => ComponentNode.patched n
  end.

Section Commit.
Context (E : Collaborators).

(** [for (let cb of node.<hook>) cb.call(receiver)], for the node [nd] of
    the fiber [f] *)
Definition callHooks (fuel : nat) (h : Hook) (f : loc) (nd : node_id)
    (receiver : option component_id) : Cmd unit :=
  for_of fuel (λ w, hooks_of h <$> nodes w !! nd) 0
    (λ cb, external (EvCall h f cb) (call E cb receiver)).

(** One turn of the loop over [this.willPatch]. *)
Definition willPatch_step (fuel : nat) (cur : loc) : Cmd unit :=
  assign_current (Some cur) ;;
  let* fc := lift (getFiber cur) in
  let nd := node fc in
  let* n := lift (getNode nd) in
  if bool_decide (ComponentNode.fiber n = Some cur)
  then callHooks fuel onWillPatch cur nd (Some (ComponentNode.component n))
  else cret tt.

(** One turn of the loops over [this.mounted] and [this.patched]. *)
Definition drain_step (fuel : nat) (h : Hook) (cur : loc) : Cmd unit :=
  let* fc := lift (getFiber cur) in
  if appliedToDom fc
  then callHooks fuel h cur (node fc) None
  else cret tt.

(** Step 1 of [RootFiber.complete]. *)
Definition callWillPatch (fuel : nat) (this : loc) : Cmd unit :=
  for_of fuel (λ w, willPatch <$> (fibers w !! this ≫= rootPart)) 0
    (willPatch_step fuel) ;;
  assign_current None.

(** Step 2 of [RootFiber.complete], up to [node.fiber = null]. *)
Definition patchDom (this : loc) (nd : node_id) : Cmd unit :=
  let* n := lift (getNode nd) in
  let* t := lift (getFiber this) in
  match ComponentNode.bdom n with
  | None => throw TypeError
  | Some old =>
      let withChildren := bool_decide (0 < size (ComponentNode.children n)) in
      external (EvPatch old (bdom t) withChildren)
        (patch E old (bdom t) withChildren)
  end ;;
  lift (modFiber this (set_appliedToDom true)) ;;
  lift (modRoot this (set_locked false)) ;;
  lift (modNode nd (set_node_fiber None)).

(** Steps 4 and 5. *)
Definition drainMounted (fuel : nat) (this : loc) : Cmd unit :=
  while_pop fuel this mounted set_mounted (drain_step fuel onMounted).
Definition drainPatched (fuel : nat) (this : loc) : Cmd unit :=
  while_pop fuel this patched set_patched (drain_step fuel onPatched).

(** The [try] block of [RootFiber.complete]. *)
Definition RootFiber_try (fuel : nat) (this : loc) (nd : node_id) : Cmd unit :=
  callWillPatch fuel this ;;
  patchDom this nd ;;
  drainMounted fuel this ;;
  drainPatched fuel this.

(** Its [catch] block. *)
Definition RootFiber_catch (this : loc) (e : Exn) : Cmd unit :=
  lift (modRoot this (set_locked false)) ;;
  let* c := read_current in
  let f := match c with Some c => c | None => this end in
  λ s, Some (Normal tt (set_world (handleError E f e (world s))
                          (log (EvHandleError f e) s))).

(** [RootFiber.complete()] *)
Definition RootFiber_complete (fuel : nat) (this : loc) : Cmd unit :=
  let* t := lift (getFiber this) in
  let nd := node t in
  lift (modRoot this (set_locked true)) ;;
  assign_current None ;;
  try_catch (RootFiber_try fuel this nd) (RootFiber_catch this).

(** The first statement of the [try] block of [MountFiber.complete]: the
    output is put into the DOM. *)
Definition mountDom (this : loc) (nd : node_id) : Cmd unit :=
  let* n := lift (getNode nd) in
  match ComponentNode.bdom n with
  | Some _ => external (EvUpdateDom nd) (updateDom E nd)
  | None =>
      let* t := lift (getFiber this) in
      lift (modNode nd (set_node_bdom (bdom t))) ;;
      let* r := lift (getRoot this) in
      match mountPart r with
      | None => λ _, None
      | Some m =>
          let* n := lift (getNode nd) in
          let b := ComponentNode.bdom n in
          match position m with
          | last_child => external (EvMount b (target m) None) (mount E b (target m) None)
          | first_child =>
              λ s, match childNodes (world s) !! target m with
                   | None => None
                   | Some [] =>
                       external (EvMount b (target m) None)
                         (mount E b (target m) None) s
                   | Some (firstChild :: _) =>
                       external (EvMount b (target m) (Some firstChild))
                         (mount E b (target m) (Some firstChild)) s
                   end
          end
      end
  end.

(** The three assignments that follow. *)
Definition markMounted (this : loc) (nd : node_id) : Cmd unit :=
  lift (modNode nd (set_node_fiber None)) ;;
  lift (modNode nd (set_node_status MOUNTED)) ;;
  lift (modFiber this (set_appliedToDom true)).

(** The [try] block of [MountFiber.complete]. *)
Definition MountFiber_try (fuel : nat) (this : loc) : Cmd unit :=
  let* t := lift (getFiber this) in
  let nd := node t in
  mountDom this nd ;;
  markMounted this nd ;;
  drainMounted fuel this.

(** Its [catch] block; [current] is a fiber whenever something is thrown. *)
Definition MountFiber_catch (e : Exn) : Cmd unit :=
  let* c := read_current in
  match c with
  | Some f =>
      λ s, Some (Normal tt (set_world (handleError E f e (world s))
                              (log (EvHandleError f e) s)))
  | None => λ _, None
  end.

(** [MountFiber.complete()] *)
Definition MountFiber_complete (fuel : nat) (this : loc) : Cmd unit :=
  assign_current (Some this) ;;
  try_catch (MountFiber_try fuel this) MountFiber_catch.

End Commit.

(** ** Reasoning about statements

    [triple Pre c QN QE]: from a state in [Pre], the statement [c], if it
    has a result, ends normally in a state in [QN] or abruptly in a state
    in [QE]. *)
Definition triple {A} (Pre : Frame → Prop) (c : Cmd A)
    (QN : A → Frame → Prop) (QE : Exn → Frame → Prop) : Prop :=
  ∀ s, Pre s →
       match c s with
       | Some (Normal a s') => QN a s'
       | Some (Abrupt e s') => QE e s'
       | None => True
       end.

(** [handleError] is not among the calls [evs]. *)
Definition no_handleError (evs : list Event) : Prop :=
  Forall (λ ev, ∀ f e, ev ≠ EvHandleError f e) evs.

(** The fiber [f] is the one at work in the state [s] of [this.complete()]
    in which [e] is thrown: a hook of [f] was the last call and [current]
    is [f]; or nothing is [current] and [f] is [this], the last call being
    the patch, or [e] the [TypeError] of a node without output. *)
Definition active_fiber (this : loc) (e : Exn) (s : Frame) (f : loc) : Prop :=
  (∃ h cb tr, trace s = tr ++ [EvCall h f cb] ∧ current s = Some f) ∨
  (f = this ∧ current s = None ∧
   ((∃ old new wc tr, trace s = tr ++ [EvPatch old new wc]) ∨ e = TypeError)).

(** [this.locked] *)
Definition locked_of (w : World) (this : loc) : option bool :=
  locked <$> (fibers w !! this ≫= rootPart).

(** The call that the event [ev] records is one that returns, in some state
    of the stores; [handleError] is no call of a [try] block. *)
Definition can_return (E : Collaborators) (ev : Event) : Prop :=
  match ev with
  | EvCall _ _ cb => ∃ rc w w', call E cb rc w = Returns w'
  | EvPatch old new withChildren =>
      ∃ w w', patch E old new withChildren w = Returns w'
  | EvMount b tg afterNode => ∃ w w', mount E b tg afterNode w = Returns w'
  | EvUpdateDom n => ∃ w w', updateDom E n w = Returns w'
  | EvHandleError _ _ => False
  end.

(** The exception [e] is raised in the state [sr] of the [try] block of
    the [complete()] of a root fiber whose node is [nd], and [s2] is the
    state that the raise leaves: a hook of the fiber that is [current]
    throws [e]; or the patch throws [e] while nothing is [current]; or the
    node has no output to patch, which is a [TypeError].  In [s2] the
    stores are as the call that threw left them, this call is the last of
    the trace, and [current] is what it was in [sr]. *)
Inductive raise (E : Collaborators) (nd : node_id) (e : Exn) (sr s2 : Frame) : Prop :=
| raise_hook h f cb rc w :
    current sr = Some f →
    call E cb rc (world sr) = Throws e w →
    s2 = set_world w (log (EvCall h f cb) sr) →
    raise E nd e sr s2
| raise_patch old new withChildren w :
    current sr = None →
    patch E old new withChildren (world sr) = Throws e w →
    s2 = set_world w (log (EvPatch old new withChildren) sr) →
    raise E nd e sr s2
| raise_no_output n :
    current sr = None →
    nodes (world sr) !! nd = Some n → ComponentNode.bdom n = None →
    e = TypeError → s2 = sr →
    raise E nd e sr s2.

(** Every call made since the trace was [tr0] is one that returns. *)
Definition returned (E : Collaborators) (tr0 : list Event) (s : Frame) : Prop :=
  ∃ evs, trace s = tr0 ++ evs ∧ Forall (can_return E) evs.

(** [e] is in flight in the state [s2]: it has just been raised, in a
    state in which every call made since the trace was [tr0] is one that
    returns. *)
Definition raised (E : Collaborators) (nd : node_id) (tr0 : list Event)
    (e : Exn) (s2 : Frame) : Prop :=
  ∃ sr, returned E tr0 sr ∧ raise E nd e sr s2.

(** The state in which the [try] block of [this.complete()] starts: the
    root fiber is locked and nothing is [current]. *)
Definition locked_frame (this : loc) (t : Fiber) (r : RootPart) (s : Frame) : Frame :=
  mkFrame
    (set_fibers (<[this := set_rootPart (Some (set_locked true r)) t]>
                   (fibers (world s))) (world s))
    (trace s) None.

(** [this.locked = false] *)
Definition unlock (this : loc) (t : Fiber) (r : RootPart) (w : World) : World :=
  set_fibers (<[this := set_rootPart (Some (set_locked false r)) t]> (fibers w)) w.

(** The state in which the [catch] block of [this.complete()] ends, when
    [e] was thrown in the state [s]. *)
Definition caught (E : Collaborators) (this : loc) (t : Fiber) (r : RootPart)
    (e : Exn) (s : Frame) : Frame :=
  let f := default this (current s) in
  mkFrame (handleError E f e (unlock this t r (world s)))
    (trace s ++ [EvHandleError f e]) (current s).

(** ** The calls of a commit

    The node of the fiber [f], its hooks of the category [h] as calls, the
    test [node.fiber === fiber] of the [willPatch] loop and the test
    [fiber.appliedToDom] of the other two. *)
Definition node_of (w : World) (f : loc) : option ComponentNode.t :=
  fibers w !! f ≫= λ o, nodes w !! node o.

Definition hook_calls (w : World) (h : Hook) (f : loc) : list Event :=
  match node_of w f with
  | Some c => EvCall h f <$> hooks_of h c
  | None => []
  end.

Definition is_current (w : World) (f : loc) : bool :=
  bool_decide (node_of w f ≫= ComponentNode.fiber = Some f).

Definition is_applied (w : World) (f : loc) : bool :=
  bool_decide (appliedToDom <$> fibers w !! f = Some true).

(** The calls of step 1 for the queue [q]: first queued, first called. *)
Definition willPatch_calls (w : World) (q : list loc) : list Event :=
  flat_map (λ f, if is_current w f then hook_calls w onWillPatch f else []) q.

(** The calls of steps 4 and 5 for the queue [q]: last queued, first
    called. *)
Definition drain_calls (w : World) (h : Hook) (q : list loc) : list Event :=
  flat_map (λ f, if is_applied w f then hook_calls w h f else []) (rev q).

(** The hooks return and leave the fibers and the nodes as they are. *)
Definition hooks_return (E : Collaborators) : Prop :=
  ∀ cb rc w, ∃ w', call E cb rc w = Returns w' ∧
                   fibers w' = fibers w ∧ nodes w' = nodes w.

(** So does the patch. *)
Definition patch_returns (E : Collaborators) : Prop :=
  ∀ old new wc w, ∃ w', patch E old new wc w = Returns w' ∧
                        fibers w' = fibers w ∧ nodes w' = nodes w.

(** The queued fibers and their nodes are in the stores. *)
Definition queued_ok (w : World) (q : list loc) : Prop :=
  Forall (λ f, is_Some (node_of w f)) q.

(** Fuel that is enough for the loops of a commit with the queues [q]. *)
Definition hooks_size (w : World) (f : loc) : nat :=
  match node_of w f with
  | Some c => length (ComponentNode.willPatch c)
              + length (ComponentNode.mounted c)
              + length (ComponentNode.patched c)
  | None => 0
  end.

Definition commit_fuel (w : World) (q : list loc) : nat :=
  S (length q + foldr (λ f acc, hooks_size w f + acc) 0 q).

(** The fibers and nodes after step 2 of the commit of the root fiber
    [this], which was [t] with the root part [r] and the node [n]. *)
Definition applied_world (this : loc) (t : Fiber) (r : RootPart)
    (n : ComponentNode.t) (w : World) : World :=
  set_nodes (<[node t := set_node_fiber None n]> (nodes w))
    (set_fibers
       (<[this := mkFiber (node t) (bdom t) (root t) (parent t) (children t)
                    true (Some (set_locked false r))]> (fibers w)) w).

(** The calls of hooks of the category [h] among the calls [tr], and the
    calls of this category for the queue [q] if they were made first
    queued, first called. *)
Definition is_call (h : Hook) (ev : Event) : bool :=
  match ev with
  | EvCall h' _ _ => bool_decide (h' = h)
  | _ => false
  end.

Definition calls_of (h : Hook) (tr : list Event) : list Event :=
  List.filter (is_call h) tr.

Definition queue_order_calls (w : World) (h : Hook) (q : list loc) : list Event :=
  flat_map (hook_calls w h) q.

(** The state after [node.bdom = this.bdom] in [MountFiber.complete]. *)
Definition output_stored (nd : node_id) (n : ComponentNode.t) (t : Fiber)
    (s : Frame) : Frame :=
  set_world (set_nodes (<[nd := set_node_bdom (bdom t) n]> (nodes (world s)))
               (world s)) s.

(** Where [MountFiber.complete] puts the output: before the first child,
    or at the end ([None]). *)
Definition insertion_point (pos : Position) (kids : list elem) : option elem :=
  match pos with
  | first_child => head kids
  | last_child => None
  end.

(** The state after the three assignments of [MountFiber.complete] that
    follow the mount, for the node [nd], which was [n], and the fiber
    [this], which was [t]. *)
Definition marked_frame (this : loc) (nd : node_id) (n : ComponentNode.t)
    (t : Fiber) (s : Frame) : Frame :=
  set_world
    (set_fibers (<[this := set_appliedToDom true t]> (fibers (world s)))
       (set_nodes
          (<[nd := set_node_status MOUNTED (set_node_fiber None n)]>
             (nodes (world s))) (world s))) s.

(** The state in which the [catch] block of [MountFiber.complete] ends,
    when [e] was thrown in the state [s] with [f] the [current] fiber. *)
Definition mount_caught (E : Collaborators) (f : loc) (e : Exn) (s : Frame) : Frame :=
  mkFrame (handleError E f e (world s)) (trace s ++ [EvHandleError f e])
    (current s).

(** ** What the order of the hooks depends on

    The three hook queues of the root fiber [this]. *)
Definition queues_of (w : World) (this : loc)
    : option (list loc * list loc * list loc) :=
  (λ r, (willPatch r, mounted r, patched r)) <$> (fibers w !! this ≫= rootPart).

(** The node of [this] has an output, which the patch starts from. *)
Definition has_output (w : World) (this : loc) : Prop :=
  is_Some (node_of w this ≫= ComponentNode.bdom).

(** From [w] to [w'] every fiber keeps its node, every node the hooks
    registered on it, [this] its three queues and the node of [this] an
    output.  Everything else may change: the outputs, [appliedToDom], the
    fiber of a node, the counters, the lock. *)
Definition keeps_schedule (this : loc) (w w' : World) : Prop :=
  (∀ l, node <$> fibers w' !! l = node <$> fibers w !! l) ∧
  (∀ n h, hooks_of h <$> nodes w' !! n = hooks_of h <$> nodes w !! n) ∧
  queues_of w' this = queues_of w this ∧
  (has_output w this → has_output w' this).

(** The hooks return and keep the schedule of [this]; so does the
    patch. *)
Definition hooks_keep_schedule (E : Collaborators) (this : loc) : Prop :=
  ∀ cb rc w, ∃ w', call E cb rc w = Returns w' ∧ keeps_schedule this w w'.

Definition patch_keeps_schedule (E : Collaborators) (this : loc) : Prop :=
  ∀ old new withChildren w,
    ∃ w', patch E old new withChildren w = Returns w' ∧ keeps_schedule this w w'.

(** The calls [tr] are made for the elements of [l] in turn: those of
    the first element first, and [R x seg] relates an element to its
    calls. *)
Inductive segments {A} (R : A → list Event → Prop)
    : list A → list Event → Prop :=
| segments_nil : segments R [] []
| segments_cons x l seg tr :
    R x seg → segments R l tr → segments R (x :: l) (seg ++ tr).

(** The calls [tr] serve the fibers [q] in this order: a fiber has all
    the hooks of the category [h] of its node called, in the order of
    their registration, or it is passed over. *)
Definition serves (w : World) (h : Hook) : list loc → list Event → Prop :=
  segments (λ f seg, seg = [] ∨ seg = hook_calls w h f).

Definition is_patch (ev : Event) : Prop :=
  ∃ old new withChildren, ev = EvPatch old new withChildren.

(** The stores [w] of a commit of [this] that started in [W]: the
    fibers have the nodes and the nodes the hooks that they have in [W],
    and the queues of [this] are [Q]. *)
Definition scheduled (this : loc) (W : World)
    (Q : list loc * list loc * list loc) (w : World) : Prop :=
  (∀ l, node <$> fibers w !! l = node <$> fibers W !! l) ∧
  (∀ n h, hooks_of h <$> nodes w !! n = hooks_of h <$> nodes W !! n) ∧
  queues_of w this = Some Q.

(** ** The phases of a commit

    Calls of hooks of one category only. *)
Definition calls_only (h : Hook) (evs : list Event) : Prop :=
  Forall (λ ev, ∃ f cb, ev = EvCall h f cb) evs.

(** The calls of a commit, complete or cut short: [willPatch] calls, at
    most one patch, [mounted] calls and [patched] calls, the last two
    only after the patch. *)
Definition commit_phases (evs : list Event) : Prop :=
  ∃ wp pt mt pd,
    evs = wp ++ pt ++ mt ++ pd ∧
    calls_only onWillPatch wp ∧
    (pt = [] ∨ ∃ p, pt = [p] ∧ is_patch p) ∧
    calls_only onMounted mt ∧ calls_only onPatched pd ∧
    (pt = [] → mt = [] ∧ pd = []).

(** The calls of a commit that got through the patch. *)
Definition patched_through (evs : list Event) : Prop :=
  ∃ wp p mt pd,
    evs = wp ++ [p] ++ mt ++ pd ∧
    calls_only onWillPatch wp ∧ is_patch p ∧
    calls_only onMounted mt ∧ calls_only onPatched pd.

(** The calls of a commit that has patched and is calling the [mounted]
    hooks. *)
Definition mounting (evs : list Event) : Prop :=
  ∃ wp p mt, evs = wp ++ [p] ++ mt ∧
             calls_only onWillPatch wp ∧ is_patch p ∧ calls_only onMounted mt.

(** Since the trace was [tr0], the calls made satisfy [T]. *)
Definition after (tr0 : list Event) (T : list Event → Prop) (s : Frame) : Prop :=
  ∃ evs, trace s = tr0 ++ evs ∧ T evs.

(** The calls of a mount: a mount or an update of the DOM, then
    [mounted] calls. *)
Definition is_mount (ev : Event) : Prop :=
  (∃ b tg afterNode, ev = EvMount b tg afterNode) ∨ (∃ n, ev = EvUpdateDom n).

Definition mount_phases (evs : list Event) : Prop :=
  ∃ p mt, evs = p :: mt ∧ is_mount p ∧ calls_only onMounted mt.

(** The root fiber [t] after its commit: flagged as applied, unlocked,
    the [mounted] and [patched] queues drained. *)
Definition committed (t : Fiber) (r : RootPart) : Fiber :=
  mkFiber (node t) (bdom t) (root t) (parent t) (children t) true
    (Some (mkRootPart (counter r) (willPatch r) [] [] false (mountPart r))).

(** The mount returns and keeps the schedule of [this]. *)
Definition mount_keeps_schedule (E : Collaborators) (this : loc) : Prop :=
  ∀ b tg afterNode w,
    ∃ w', mount E b tg afterNode w = Returns w' ∧ keeps_schedule this w w'.

(** The stores a collaborator leaves, whether it returns or throws; the
    hooks keep the queues of [this] either way. *)
Definition outcome_world (o : Outcome) : World :=
  match o with
  | Returns w => w
  | Throws _ w => w
  end.

Definition hooks_keep_queues (E : Collaborators) (this : loc) : Prop :=
  ∀ cb rc w, queues_of (outcome_world (call E cb rc w)) this = queues_of w this.


(** ** Sample commits

    Collaborators for the samples: the hook [99] throws and every other
    hook returns, [mount] throws for the output [66], [patch] and
    [updateDom] return, all without touching the stores; [handleError]
    flags the fiber in [fibersInError]. *)
Definition sample_collaborators : Collaborators :=
  mkCollaborators
    (λ cb _ w, if decide (cb = 99) then Throws (Thrown 99) w else Returns w)
    (λ _ _ _ w, Returns w)
    (λ b _ _ w, match b with
                | Some 66 => Throws (Thrown 66) w
                | _ => Returns w
                end)
    (λ _ w, Returns w)
    (λ f _ w, set_fibersInError ({[f]} ∪ fibersInError w) w).

(** Collaborators that always return and leave the stores alone. *)
Definition quiet_collaborators : Collaborators :=
  mkCollaborators (λ _ _ w, Returns w) (λ _ _ _ w, Returns w)
    (λ _ _ _ w, Returns w) (λ _ w, Returns w) (λ _ _ w, w).

Definition hooked_node (f : option loc) (b : option BDom) (st : STATUS)
    (wp pt mt : list callback) : ComponentNode.t :=
  ComponentNode.mk f b 0 ∅ wp pt mt st.

(** A batch ready to commit: the root fiber [1] and the fibers [2] and
    [3], queued in this order; the node of [3] has dropped its fiber, and
    [wp] are the [willPatch] hooks of the node of [2]. *)
Definition commit_root (lk : bool) : Fiber :=
  mkFiber 11 (Some 8) 1 None [2; 3] false
    (Some (mkRootPart 0 [1; 2; 3] [1; 2; 3] [2; 3] lk None)).

Definition commit_batch (wp : list callback) : World :=
  mkWorld
    {[ 1 := commit_root false;
       2 := mkFiber 12 (Some 8) 1 (Some 1) [] true None;
       3 := mkFiber 13 (Some 8) 1 (Some 1) [] true None ]}
    {[ 11 := hooked_node (Some 1) (Some 5) MOUNTED [110] [111; 112] [113];
       12 := hooked_node (Some 2) (Some 5) MOUNTED wp [121] [122];
       13 := hooked_node None (Some 5) MOUNTED [130] [131] [132] ]}
    ∅ ∅.

(** The same batch before anything is applied: no output is flagged, and
    every node has its fiber. *)
Definition unflagged_batch : World :=
  mkWorld
    {[ 1 := commit_root false;
       2 := mkFiber 12 (Some 8) 1 (Some 1) [] false None;
       3 := mkFiber 13 (Some 8) 1 (Some 1) [] false None ]}
    {[ 11 := hooked_node (Some 1) (Some 5) MOUNTED [110] [111; 112] [113];
       12 := hooked_node (Some 2) (Some 5) MOUNTED [120] [121] [122];
       13 := hooked_node (Some 3) (Some 5) MOUNTED [130] [131] [132] ]}
    ∅ ∅.

(** Collaborators whose patch commits the outputs of the fibers [2] and
    [3], which flags them as applied; every call returns. *)
Definition flag (l : loc) (w : World) : World :=
  match fibers w !! l with
  | Some o => set_fibers (<[l := set_appliedToDom true o]> (fibers w)) w
  | None => w
  end.

Definition committing_collaborators : Collaborators :=
  mkCollaborators (λ _ _ w, Returns w)
    (λ _ _ _ w, Returns (flag 3 (flag 2 w)))
    (λ _ _ _ w, Returns w) (λ _ w, Returns w) (λ _ _ w, w).

(** A node without fiber that has a [willPatch] and a [mounted] hook. *)
Definition hooked_lone : World :=
  mkWorld ∅ {[ 11 := hooked_node None None NEW [110] [] [113] ]} ∅ ∅.

(** A root fiber whose last commit failed. *)
Definition errored_root : World :=
  mkWorld
    {[ 0 := mkFiber 11 (Some 7) 0 None [] true
              (Some (mkRootPart 0 [] [] [] false None)) ]}
    {[ 11 := sample_node (Some 0) [] ]} {[ 0 ]} ∅.

(** A root fiber ready to commit for a node that has no output. *)
Definition unmounted_batch : World :=
  mkWorld
    {[ 1 := mkFiber 11 (Some 8) 1 None [] false
              (Some (mkRootPart 0 [1] [1] [1] false None)) ]}
    {[ 11 := hooked_node (Some 1) None NEW [110] [111] [113] ]}
    ∅ ∅.


(** A mount ready to commit: the [MountFiber] [1] for the target [50]
    with the children [kids], and a fiber [2] with a [mounted] hook; [nb]
    is the output the node already has, [b] the output of the fiber and
    [cbs] the [mounted] hooks of the node of [2]. *)
Definition mount_root (pos : Position) (b : option BDom) : Fiber :=
  mkFiber 11 b 1 None [] false
    (Some (mkRootPart 0 [] [] [1; 2] false (Some (mkMountPart 50 pos)))).

Definition mount1 (pos : Position) (nb b : option BDom) (kids : list elem)
    (cbs : list callback) : World :=
  mkWorld
    {[ 1 := mount_root pos b;
       2 := mkFiber 12 (Some 8) 1 (Some 1) [] true None ]}
    {[ 11 := hooked_node (Some 1) nb NEW [] [] [113];
       12 := hooked_node (Some 2) None NEW [] [] cbs ]}
    ∅ {[ 50 := kids ]}.

(** The state of the mount of a node without output after the fiber's
    output is stored on the node and [mount] is called. *)
Definition mount_stored (pos : Position) (b : option BDom) (kids : list elem)
    (cbs : list callback) (afterNode : option elem) : Frame :=
  mkFrame
    (set_nodes (<[11 := hooked_node (Some 1) b NEW [] [] [113]]>
                  (nodes (mount1 pos None b kids cbs)))
       (mount1 pos None b kids cbs))
    [EvMount b 50 afterNode] (Some 1).

(** The state in which a [complete()] starts. *)
Definition start (w : World) : Frame := mkFrame w [] None.

(** The state in which the hook [99] of the node of [2] throws. *)
Definition commit_thrown : Frame :=
  mkFrame
    (set_fibers (<[1 := commit_root true]> (fibers (commit_batch [99])))
       (commit_batch [99]))
    [EvCall onWillPatch 1 110; EvCall onWillPatch 2 99] (Some 2).

Local Close Scope cmd_scope.

(** * Properties *)

Local Open Scope store_scope.

(** ** Reading and writing the stores *)

Lemma getFiber_Some w l f :
  fibers w !! l = Some f → getFiber l w = Some (f, w).
Proof. intros H. unfold getFiber. by rewrite H. Qed.

Lemma modFiber_Some w l f g :
  fibers w !! l = Some f →
  modFiber l g w = Some (tt, set_fibers (<[l := g f]> (fibers w)) w).
Proof. intros H. unfold modFiber, bind, getFiber, putFiber. by rewrite H. Qed.

Lemma getRoot_Some w l f r :
  fibers w !! l = Some f → rootPart f = Some r → getRoot l w = Some (r, w).
Proof. intros H Hr. unfold getRoot, bind, getFiber. by rewrite H, Hr. Qed.

Lemma modRoot_Some w l f r g :
  fibers w !! l = Some f → rootPart f = Some r →
  modRoot l g w
  = Some (tt, set_fibers (<[l := set_rootPart (Some (g r)) f]> (fibers w)) w).
Proof.
  intros H Hr. unfold modRoot, bind.
  rewrite (getRoot_Some _ _ _ _ H Hr). by apply modFiber_Some.
Qed.

Lemma getNode_Some w n c :
  nodes w !! n = Some c → getNode n w = Some (c, w).
Proof. intros H. unfold getNode. by rewrite H. Qed.

Lemma modNode_Some w n c g :
  nodes w !! n = Some c →
  modNode n g w = Some (tt, set_nodes (<[n := g c]> (nodes w)) w).
Proof. intros H. unfold modNode, bind, getNode. by rewrite H. Qed.

(** ** The traversal *)

Lemma subtree_nil fuel h : subtree fuel h [] = Some [].
Proof. by destruct fuel. Qed.

Lemma subtreeLoop_ext rec rec' h h' fs :
  (∀ l, children <$> h !! l = children <$> h' !! l) →
  (∀ l o, l ∈ fs → h !! l = Some o → rec (children o) = rec' (children o)) →
  subtreeLoop rec h fs = subtreeLoop rec' h' fs.
Proof.
  intros Hh. induction fs as [|f rest IH]; intros Hrec; [done|]. simpl.
  pose proof (Hh f) as Hf.
  destruct (h !! f) as [o|] eqn:Ho, (h' !! f) as [o'|] eqn:Ho';
    simpl in Hf; try done.
  injection Hf as Hf. rewrite <- Hf.
  rewrite (Hrec f o) by (done || constructor).
  rewrite IH; [done|]. intros l o2 Hl. apply Hrec. by constructor.
Qed.

(** The traversal only reads [children]. *)
Lemma subtree_ext fuel h h' fs :
  (∀ l, children <$> h !! l = children <$> h' !! l) →
  subtree fuel h fs = subtree fuel h' fs.
Proof.
  intros Hh. revert fs. induction fuel as [|n IH]; intros fs; [done|].
  simpl. apply subtreeLoop_ext; [done|]. intros. apply IH.
Qed.

Lemma subtreeLoop_mono (rec rec' : list loc → option (list loc)) h fs l :
  (∀ fs' l', rec fs' = Some l' → rec' fs' = Some l') →
  subtreeLoop rec h fs = Some l → subtreeLoop rec' h fs = Some l.
Proof.
  intros Hrec. revert l. induction fs as [|f rest IH]; intros l; [done|].
  simpl. destruct (h !! f) as [o|]; [|done].
  destruct (rec (children o)) as [d|] eqn:Hd; [|done].
  destruct (subtreeLoop rec h rest) as [r|] eqn:Hr; [|done].
  intros [= <-]. by rewrite (Hrec _ _ Hd), (IH _ eq_refl).
Qed.

(** More fuel does not change a traversal that has ended. *)
Lemma subtree_S fuel h fs l :
  subtree fuel h fs = Some l → subtree (S fuel) h fs = Some l.
Proof.
  revert fs l. induction fuel as [|n IH]; intros fs l.
  - destruct fs; [|done]. by intros [= <-].
  - intros H. change (subtreeLoop (subtree (S n) h) h fs = Some l).
    eapply subtreeLoop_mono; [|exact H]. apply IH.
Qed.

Lemma subtree_mono fuel fuel' h fs l :
  fuel ≤ fuel' → subtree fuel h fs = Some l → subtree fuel' h fs = Some l.
Proof. induction 1; [done|]. intros. by apply subtree_S, IHle. Qed.

Lemma pending_app h l1 l2 : pending h (l1 ++ l2) = (pending h l1 + pending h l2)%Z.
Proof. unfold pending. rewrite filter_app, length_app. lia. Qed.

Lemma pending_cons h f l :
  pending h (f :: l)
  = ((match h !! f ≫= bdom with Some _ => 0 | None => 1 end) + pending h l)%Z.
Proof.
  unfold pending. rewrite filter_cons. unfold outputSet.
  destruct (h !! f ≫= bdom) as [b|] eqn:Hb; case_decide as Hd; simpl length;
    try lia.
  - exfalso. apply Hd. eauto.
  - destruct Hd as [x Hx]. discriminate.
Qed.

(** [K - M] is the number of fibers whose output is unset. *)
Lemma pending_K_M h l :
  pending h l
  = (Z.of_nat (length l) - Z.of_nat (length (filter (outputSet h) l)))%Z.
Proof.
  unfold pending. induction l as [|f l IH]; [done|].
  rewrite !filter_cons. simpl length.
  destruct (decide (outputSet h f)) as [Hs|Hs]; case_decide; try done;
    simpl length; lia.
Qed.

(** ** [cancelFibers] *)


Lemma modulo_root_refl w : modulo_root w w.
Proof. by repeat split. Qed.

Lemma modulo_root_trans w0 w1 w2 :
  modulo_root w0 w1 → modulo_root w1 w2 → modulo_root w0 w2.
Proof.
  intros (F1 & N1 & E1 & C1) (F2 & N2 & E2 & C2). repeat split.
  - intros l. by rewrite F1.
  - intros n. by rewrite N1.
  - by rewrite E1.
  - by rewrite C1.
Qed.

Lemma modulo_root_lookup w0 w l o :
  modulo_root w0 w → fibers w0 !! l = Some o →
  ∃ o', fibers w !! l = Some o' ∧ set_root 0 o = set_root 0 o'.
Proof.
  intros (F & _) Ho. specialize (F l). rewrite Ho in F.
  destruct (fibers w !! l) as [o'|]; simpl in F; [|done].
  exists o'. split; [done|]. congruence.
Qed.

Lemma set_root_0_fields o o' :
  set_root 0 o = set_root 0 o' →
  node o = node o' ∧ bdom o = bdom o' ∧ parent o = parent o' ∧
  children o = children o' ∧ appliedToDom o = appliedToDom o' ∧
  rootPart o = rootPart o'.
Proof. destruct o, o'. unfold set_root. simpl. intros [=]. by subst. Qed.

Lemma modulo_root_node w0 w n c :
  modulo_root w0 w → nodes w0 !! n = Some c → is_Some (nodes w !! n).
Proof.
  intros (_ & N & _) Hc. specialize (N n). rewrite Hc in N.
  destruct (nodes w !! n); simpl in N; [eauto|done].
Qed.

Lemma modulo_root_children w0 w l :
  modulo_root w0 w → children <$> fibers w0 !! l = children <$> fibers w !! l.
Proof.
  intros (F & _). specialize (F l).
  destruct (fibers w0 !! l) as [o|], (fibers w !! l) as [o'|]; try done.
  simpl in *. f_equal. apply set_root_0_fields. congruence.
Qed.

Lemma cancelOne_modulo_root rt w f : modulo_root w (cancelOne rt w f).
Proof.
  unfold cancelOne. destruct (fibers w !! f) as [o|] eqn:Ho;
    [|apply modulo_root_refl].
  destruct (nodes w !! node o) as [c|] eqn:Hc; [|apply modulo_root_refl].
  repeat split; simpl.
  - intros l. destruct (decide (f = l)) as [<-|Hne].
    + rewrite lookup_insert_eq, Ho. simpl. by destruct o.
    + by rewrite lookup_insert_ne.
  - intros n. destruct (decide (node o = n)) as [<-|Hne].
    + rewrite lookup_insert_eq, Hc. simpl. by destruct c.
    + by rewrite lookup_insert_ne.
Qed.

Lemma cancel_fold_modulo_root rt l w :
  modulo_root w (foldl (cancelOne rt) w l).
Proof.
  revert w. induction l as [|f l IH]; intros w; [apply modulo_root_refl|].
  simpl. eapply modulo_root_trans; [apply cancelOne_modulo_root|apply IH].
Qed.

(** The loop of one call, given what the recursive calls do. *)
Lemma cancelLoop_run rt w0 (rec : list loc → M Z) (srec : list loc → option (list loc)) :
  (∀ fs w visited,
     modulo_root w0 w → srec fs = Some visited → nodes_present w0 visited →
     rec fs w = Some (pending (fibers w0) visited, foldl (cancelOne rt) w visited)) →
  ∀ fs w visited acc,
    modulo_root w0 w →
    subtreeLoop srec (fibers w0) fs = Some visited →
    nodes_present w0 visited →
    cancelLoop rec rt fs acc w
    = Some ((acc + pending (fibers w0) visited)%Z, foldl (cancelOne rt) w visited).
Proof.
  intros Hrec fs. induction fs as [|f rest IH]; intros w visited acc Hw Hs Hn.
  - injection Hs as <-. simpl. unfold ret, pending. simpl. do 2 f_equal. lia.
  - simpl in Hs. destruct (fibers w0 !! f) as [o|] eqn:Ho; [|done].
    destruct (srec (children o)) as [d|] eqn:Hd; [|done].
    destruct (subtreeLoop srec (fibers w0) rest) as [r|] eqn:Hr; [|done].
    injection Hs as <-.
    destruct (modulo_root_lookup _ _ _ _ Hw Ho) as (o' & Ho' & Heq).
    apply set_root_0_fields in Heq as (Hnode & Hbdom & _ & Hch & _).
    destruct (Hn f o) as [c0 Hc0]; [by left|done|].
    destruct (modulo_root_node _ _ _ _ Hw Hc0) as [c Hc].
    rewrite Hnode in Hc.
    simpl. unfold bind at 1. rewrite (getFiber_Some _ _ _ Ho').
    unfold bind at 1. rewrite (modNode_Some _ _ _ _ Hc).
    unfold bind at 1. rewrite (modFiber_Some _ _ o') by done.
    set (w1 := set_fibers _ _).
    assert (w1 = cancelOne rt w f) as Hw1.
    { unfold cancelOne. by rewrite Ho', Hc. }
    assert (fibers w1 !! f = Some (set_root rt o')) as Hf1.
    { subst w1. simpl. by rewrite lookup_insert_eq. }
    unfold bind at 1. rewrite (getFiber_Some _ _ _ Hf1).
    assert (modulo_root w0 w1) as Hw01.
    { rewrite Hw1. eapply modulo_root_trans; [done|apply cancelOne_modulo_root]. }
    unfold bind at 1. simpl children. rewrite <- Hch.
    rewrite (Hrec _ w1 d Hw01 Hd).
    2:{ intros x ox Hx. apply Hn. right. apply elem_of_app. by left. }
    rewrite (IH _ r).
    + simpl bdom. rewrite <- Hbdom. rewrite Hw1. simpl foldl.
      rewrite foldl_app. do 2 f_equal.
      rewrite pending_cons, pending_app, Ho. simpl.
      destruct (bdom o); lia.
    + eapply modulo_root_trans; [exact Hw01|apply cancel_fold_modulo_root].
    + done.
    + intros x ox Hx. apply Hn. right. apply elem_of_app. by right.
Qed.

(** [cancelFibers] returns the number of visited fibers whose output is
    unset and does the writes of [cancelOne] for every visited fiber. *)
Lemma cancelFibers_run rt fuel :
  ∀ fs w0 w visited,
    modulo_root w0 w →
    subtree fuel (fibers w0) fs = Some visited →
    nodes_present w0 visited →
    cancelFibers fuel rt fs w
    = Some (pending (fibers w0) visited, foldl (cancelOne rt) w visited).
Proof.
  induction fuel as [|n IH]; intros fs w0 w visited Hw Hs Hn.
  - destruct fs; [|done]. injection Hs as <-. done.
  - simpl. erewrite cancelLoop_run with (srec := subtree n (fibers w0)); eauto.
Qed.

Lemma subtreeLoop_present (rec : list loc → option (list loc)) h fs l :
  (∀ fs' l', rec fs' = Some l' → ∀ f, f ∈ l' → is_Some (h !! f)) →
  subtreeLoop rec h fs = Some l → ∀ f, f ∈ l → is_Some (h !! f).
Proof.
  intros Hrec. revert l. induction fs as [|x rest IH]; intros l.
  - intros [= <-] f Hf. by apply elem_of_nil in Hf.
  - simpl. destruct (h !! x) as [o|] eqn:Ho; [|done].
    destruct (rec (children o)) as [d|] eqn:Hd; [|done].
    destruct (subtreeLoop rec h rest) as [r|] eqn:Hr; [|done].
    intros [= <-] f Hf. apply elem_of_cons in Hf as [->|Hf]; [eauto|].
    apply elem_of_app in Hf as [Hf|Hf]; [by eapply Hrec|by eapply IH].
Qed.

(** Every visited fiber is an object of the store. *)
Lemma subtree_present fuel h fs l :
  subtree fuel h fs = Some l → ∀ f, f ∈ l → is_Some (h !! f).
Proof.
  revert fs l. induction fuel as [|n IH]; intros fs l.
  - destruct fs; [|done]. intros [= <-] f Hf. by apply elem_of_nil in Hf.
  - simpl. apply subtreeLoop_present. intros fs' l'. apply IH.
Qed.

Lemma modulo_root_nodes_present w0 w l :
  modulo_root w0 w → nodes_present w0 l → nodes_present w l.
Proof.
  intros Hw Hn f o Hf Ho.
  pose proof Hw as (F & _). specialize (F f). rewrite Ho in F.
  destruct (fibers w0 !! f) as [o0|] eqn:Ho0; simpl in F; [|done].
  destruct (Hn f o0 Hf Ho0) as [c Hc].
  assert (node o0 = node o) as <- by (apply set_root_0_fields; congruence).
  by eapply modulo_root_node.
Qed.

Lemma modulo_root_nodes_of w0 w l :
  modulo_root w0 w → nodes_of (fibers w0) l = nodes_of (fibers w) l.
Proof.
  intros (F & _). unfold nodes_of. induction l as [|f l IH]; [done|].
  csimpl. rewrite IH. specialize (F f).
  destruct (fibers w0 !! f) as [o0|], (fibers w !! f) as [o|]; try done.
  simpl in *. assert (node o0 = node o) as ->; [|done].
  apply set_root_0_fields. congruence.
Qed.

Lemma cancel_fold_fibers rt l :
  ∀ w, (∀ f, f ∈ l → is_Some (fibers w !! f)) → nodes_present w l →
  ∀ x, fibers (foldl (cancelOne rt) w l) !! x
       = if decide (x ∈ l) then set_root rt <$> fibers w !! x
         else fibers w !! x.
Proof.
  induction l as [|f l IH]; intros w Hp Hn x.
  - rewrite decide_False; [done|]. apply not_elem_of_nil.
  - simpl foldl. destruct (Hp f) as [o Ho]; [by left|].
    destruct (Hn f o) as [c Hc]; [by left|done|].
    pose proof (cancelOne_modulo_root rt w f) as Hw1.
    assert (fibers (cancelOne rt w f) = <[f := set_root rt o]> (fibers w)) as Hf1.
    { unfold cancelOne. by rewrite Ho, Hc. }
    rewrite IH.
    + rewrite Hf1. destruct (decide (x = f)) as [->|Hne].
      * rewrite lookup_insert_eq, Ho. simpl.
        rewrite (decide_True (P := f ∈ f :: l)) by by left.
        case_decide; by destruct o.
      * rewrite lookup_insert_ne by done.
        destruct (decide (x ∈ l)) as [Hl|Hl].
        -- by rewrite decide_True by by right.
        -- rewrite decide_False; [done|].
           intros [?|?]%elem_of_cons; done.
    + intros f' Hf'. rewrite Hf1. destruct (decide (f' = f)) as [->|Hne].
      * rewrite lookup_insert_eq. eauto.
      * rewrite lookup_insert_ne by done. apply Hp. by right.
    + eapply modulo_root_nodes_present; [exact Hw1|].
      intros f' o' Hf'. apply Hn. by right.
Qed.

Lemma cancel_fold_nodes rt l :
  ∀ w, (∀ f, f ∈ l → is_Some (fibers w !! f)) → nodes_present w l →
  ∀ n, nodes (foldl (cancelOne rt) w l) !! n
       = if decide (n ∈ nodes_of (fibers w) l)
         then set_node_fiber None <$> nodes w !! n
         else nodes w !! n.
Proof.
  induction l as [|f l IH]; intros w Hp Hn n.
  - rewrite decide_False; [done|]. apply not_elem_of_nil.
  - simpl foldl. destruct (Hp f) as [o Ho]; [by left|].
    destruct (Hn f o) as [c Hc]; [by left|done|].
    pose proof (cancelOne_modulo_root rt w f) as Hw1.
    assert (nodes (cancelOne rt w f)
            = <[node o := set_node_fiber None c]> (nodes w)) as Hn1.
    { unfold cancelOne. by rewrite Ho, Hc. }
    assert (nodes_of (fibers w) (f :: l)
            = node o :: nodes_of (fibers w) l) as Hcons.
    { unfold nodes_of. simpl. by rewrite Ho. }
    rewrite IH.
    + rewrite <- (modulo_root_nodes_of _ _ l Hw1), Hcons, Hn1.
      destruct (decide (n = node o)) as [->|Hne].
      * rewrite lookup_insert_eq, Hc. simpl.
        rewrite (decide_True (P := node o ∈ node o :: _)) by by left.
        case_decide; by destruct c.
      * rewrite lookup_insert_ne by done.
        destruct (decide (n ∈ nodes_of (fibers w) l)) as [Hl|Hl].
        -- by rewrite decide_True by by right.
        -- rewrite decide_False; [done|].
           intros [?|?]%elem_of_cons; done.
    + intros f' Hf'. destruct (Hp f') as [o' Ho']; [by right|].
      destruct (modulo_root_lookup _ _ _ _ Hw1 Ho') as (o2 & Ho2 & _). eauto.
    + eapply modulo_root_nodes_present; [exact Hw1|].
      intros f' o' Hf'. apply Hn. by right.
Qed.

Lemma nodes_present_Forall w l :
  Forall (λ f, is_Some (fibers w !! f ≫= λ o, nodes w !! node o)) l →
  nodes_present w l.
Proof.
  intros H f o Hf Ho. rewrite Forall_forall in H. specialize (H f Hf).
  by rewrite Ho in H.
Qed.

(** C2: if the subtrees of [fs] hold the fibers [visited] ([K] of them, [M]
    with their output set), [cancelFibers newRoot fs] returns [K - M]; every
    visited fiber then has [newRoot] as its root and its node's [fiber] is
    [null]; nothing else changes in the fibers, and the other nodes are as
    they were. *)
Theorem cancelFibers_returns_K_minus_M fuel newRoot fs w visited :
  subtree fuel (fibers w) fs = Some visited →
  nodes_present w visited →
  ∃ w',
    cancelFibers fuel newRoot fs w
    = Some ((Z.of_nat (length visited)
             - Z.of_nat (length (filter (outputSet (fibers w)) visited)))%Z, w') ∧
    (∀ f, f ∈ visited →
       ∃ o c, fibers w !! f = Some o ∧
              fibers w' !! f = Some (set_root newRoot o) ∧
              nodes w' !! node o = Some c ∧ ComponentNode.fiber c = None) ∧
    (∀ f, f ∉ visited → fibers w' !! f = fibers w !! f) ∧
    (∀ n, n ∉ nodes_of (fibers w) visited → nodes w' !! n = nodes w !! n).
Proof.
  intros Hs Hn. exists (foldl (cancelOne newRoot) w visited).
  pose proof (subtree_present _ _ _ _ Hs) as Hp.
  split; [|split; [|split]].
  - rewrite <- pending_K_M.
    apply cancelFibers_run; [apply modulo_root_refl|done..].
  - intros f Hf. destruct (Hp f Hf) as [o Ho].
    destruct (Hn f o Hf Ho) as [c Hc].
    exists o, (set_node_fiber None c). split; [done|]. split.
    + rewrite cancel_fold_fibers by done. by rewrite decide_True, Ho.
    + rewrite cancel_fold_nodes by done. rewrite decide_True, Hc; [done|].
      apply list_elem_of_omap. exists f. by rewrite Ho.
  - intros f Hf. rewrite cancel_fold_fibers by done. by rewrite decide_False.
  - intros n Hf. rewrite cancel_fold_nodes by done. by rewrite decide_False.
Qed.

Lemma cancelFibers_returns_K_minus_M_witness :
  subtree 2 (fibers batch1) [2; 3] = Some [2; 3; 4] ∧
  ∃ w', cancelFibers 2 9 [2; 3] batch1 = Some (2%Z, w') ∧
        root <$> fibers w' !! 4 = Some 9 ∧
        ComponentNode.fiber <$> nodes w' !! 14 = Some None.
Proof.
  split; [reflexivity|].
  destruct (cancelFibers_returns_K_minus_M 2 9 [2; 3] batch1 [2; 3; 4])
    as (w' & Hrun & Hvisited & _).
  - reflexivity.
  - apply nodes_present_Forall. repeat constructor; vm_compute; eauto.
  - exists w'. split; [exact Hrun|].
    destruct (Hvisited 4) as (o & c & Ho & Ho' & Hc & Hfib).
    + set_solver.
    + rewrite Ho'. vm_compute in Ho. injection Ho as <-.
      split; [reflexivity|]. simpl in Hc. rewrite Hc. simpl. by rewrite Hfib.
Defined.

(** ** [cleanPatchableFiber] *)


Lemma set_fibers_id w : set_fibers (fibers w) w = w.
Proof. by destruct w. Qed.

Lemma set_rootPart_id f r : rootPart f = Some r → set_rootPart (Some r) f = f.
Proof. destruct f. simpl. by intros ->. Qed.

Lemma set_fibers_set_fibers h h' w :
  set_fibers h (set_fibers h' w) = set_fibers h w.
Proof. done. Qed.

Lemma cleanPatchableFiber_Some child rt w f r :
  fibers w !! rt = Some f → rootPart f = Some r →
  cleanPatchableFiber child rt w
  = Some (tt, set_fibers
                (<[rt := set_rootPart (Some (cleaned child r)) f]> (fibers w)) w).
Proof.
  intros Hf Hr. unfold cleanPatchableFiber.
  unfold bind at 1. rewrite (getRoot_Some _ _ _ _ Hf Hr).
  set (r1 := set_willPatch (without child (willPatch r)) r).
  assert (∃ w1 f1, (match indexOf child (willPatch r) with
                    | Some i => modRoot rt (λ r, set_willPatch (splice1 i (willPatch r)) r)
                    | None => ret tt
                    end) w = Some (tt, w1) ∧
                   fibers w1 !! rt = Some f1 ∧ rootPart f1 = Some r1 ∧
                   f1 = set_rootPart (Some r1) f ∧
                   w1 = set_fibers (<[rt := f1]> (fibers w)) w)
    as (w1 & f1 & Hrun & Hf1 & Hr1 & Hf1eq & Hw1).
  { subst r1. unfold without.
    destruct (indexOf child (willPatch r)) as [i|].
    - eexists _, _. split; [by apply (modRoot_Some _ _ _ _ _ Hf Hr)|].
      simpl. by rewrite lookup_insert_eq.
    - exists w, f. split; [done|].
      assert (set_willPatch (willPatch r) r = r) as -> by by destruct r.
      rewrite (set_rootPart_id _ _ Hr), insert_id, set_fibers_id by done.
      done. }
  unfold bind at 1. rewrite Hrun.
  unfold bind at 1. rewrite (getRoot_Some _ _ _ _ Hf1 Hr1).
  unfold cleaned. fold r1. unfold without.
  assert (patched r1 = patched r) as Hp by done. rewrite Hp.
  destruct (indexOf child (patched r)) as [i|].
  - rewrite (modRoot_Some _ _ _ _ _ Hf1 Hr1). rewrite Hw1. simpl.
    rewrite insert_insert_eq. subst f1. done.
  - unfold ret. rewrite Hw1. subst f1.
    assert (set_patched (patched r) r1 = r1) as ->; [|done].
    rewrite <- Hp. by destruct r1.
Qed.

(** ** [makeChildFiber] *)

Lemma incr_if_Some (b : bool) rt w f r :
  fibers w !! rt = Some f → rootPart f = Some r →
  (if b then modRoot rt (λ r, set_counter (counter r + 1) r) else ret tt) w
  = Some (tt, set_fibers
                (<[rt := set_rootPart
                           (Some (set_counter (counter r + (if b then 1 else 0)) r)) f]>
                   (fibers w)) w).
Proof.
  intros Hf Hr. destruct b.
  - exact (modRoot_Some w rt f r (λ r, set_counter (counter r + 1) r) Hf Hr).
  - unfold ret. rewrite Z.add_0_r.
    assert (set_counter (counter r) r = r) as -> by by destruct r.
    by rewrite (set_rootPart_id _ _ Hr), insert_id, set_fibers_id.
Qed.

Lemma incr_if_Some_gen (b : bool) (g : RootPart → RootPart) rt w f r :
  fibers w !! rt = Some f → rootPart f = Some r →
  (if b then modRoot rt g else ret tt) w
  = Some (tt, set_fibers
                (<[rt := set_rootPart (Some (if b then g r else r)) f]>
                   (fibers w)) w).
Proof.
  intros Hf Hr. destruct b.
  - exact (modRoot_Some w rt f r g Hf Hr).
  - unfold ret. by rewrite (set_rootPart_id _ _ Hr), insert_id, set_fibers_id.
Qed.

Lemma clean_if_Some (b : bool) child rt w f r :
  fibers w !! rt = Some f → rootPart f = Some r →
  (if b then cleanPatchableFiber child rt else ret tt) w
  = Some (tt, set_fibers
                (<[rt := set_rootPart (Some (if b then cleaned child r else r)) f]>
                   (fibers w)) w).
Proof.
  intros Hf Hr. destruct b.
  - by apply cleanPatchableFiber_Some.
  - unfold ret. by rewrite (set_rootPart_id _ _ Hr), insert_id, set_fibers_id.
Qed.

(** What [makeChildFiber] does for a node that has a fiber [current]:
    [visited] are the fibers below [current], [rt] is [parent.root]. *)
Lemma makeChildFiber_recycle fuel nd par w n current p c fr r visited :
  nodes w !! nd = Some n → ComponentNode.fiber n = Some current →
  fibers w !! par = Some p → fibers w !! current = Some c →
  fibers w !! root p = Some fr → rootPart fr = Some r →
  subtree fuel (fibers w) (children c) = Some visited →
  nodes_present w visited →
  let rt := root p in
  let w1 := foldl (cancelOne rt) w visited in
  let same := bool_decide (root c = rt) in
  let counted := negb same || bool_decide (is_Some (bdom c)) in
  let r' := set_counter (counter r + (if counted then 1 else 0))%Z r in
  let r'' := if same then cleaned current r' else r' in
  ∃ w',
    makeChildFiber fuel nd par w = Some (current, w') ∧
    nodes w' = nodes w1 ∧
    (∀ x, x ≠ current → x ≠ rt → fibers w' !! x = fibers w1 !! x) ∧
    fibers w' !! current
    = Some (mkFiber (node c) None rt (Some par) [] (appliedToDom c)
              (if decide (current = rt) then Some r'' else rootPart c)) ∧
    (∀ fr1, fibers w1 !! rt = Some fr1 → current ≠ rt →
            fibers w' !! rt = Some (set_rootPart (Some r'') fr1)).
Proof.
  intros Hn Hcur Hp Hc Hfr Hr Hs Hnp rt w1 same counted r' r''. subst rt.
  pose proof (cancel_fold_modulo_root (root p) visited w) as Hw1. fold w1 in Hw1.
  destruct (modulo_root_lookup _ _ _ _ Hw1 Hc) as (c1 & Hc1 & Heqc).
  apply set_root_0_fields in Heqc as (Hcn & Hcb & Hcp & Hcc & Hca & Hcr).
  destruct (modulo_root_lookup _ _ _ _ Hw1 Hfr) as (fr1 & Hfr1 & Heqf).
  apply set_root_0_fields in Heqf as (_ & _ & _ & _ & _ & Hfrr).
  rewrite Hr in Hfrr. symmetry in Hfrr.
  unfold makeChildFiber.
  unfold bind at 1. rewrite (getNode_Some _ _ _ Hn), Hcur.
  unfold bind at 1. rewrite (getFiber_Some _ _ _ Hp).
  unfold bind at 1. rewrite (getFiber_Some _ _ _ Hc).
  unfold bind at 1.
  rewrite (cancelFibers_run _ _ _ w w visited (modulo_root_refl w) Hs Hnp).
  fold w1 same.
  unfold bind at 1. rewrite (modFiber_Some _ _ _ _ Hc1).
  unfold bind at 1. erewrite modFiber_Some by (simpl; apply lookup_insert_eq).
  unfold bind at 1. erewrite getFiber_Some by (simpl; apply lookup_insert_eq).
  simpl bdom. rewrite <- Hcb. fold counted.
  destruct (decide (current = root p)) as [Heq|Hne].
  - (* the fiber is the root of its parent *)
    assert (fr1 = c1) as -> by congruence.
    unfold bind at 1. erewrite incr_if_Some;
      [|simpl; rewrite <- Heq; apply lookup_insert_eq|simpl; exact Hfrr].
    unfold bind at 1. erewrite clean_if_Some;
      [|simpl; rewrite <- Heq; apply lookup_insert_eq|reflexivity].
    unfold bind at 1. erewrite modFiber_Some
      by (simpl; rewrite <- Heq; apply lookup_insert_eq).
    unfold bind at 1. erewrite modFiber_Some by (simpl; apply lookup_insert_eq).
    eexists. split; [reflexivity|]. simpl. rewrite <- !Heq.
    split; [done|]. split.
    + intros x Hx _. by rewrite !lookup_insert_ne.
    + split; [|done]. rewrite lookup_insert_eq. f_equal.
      unfold set_root, set_bdom, set_rootPart, set_parent, set_children. simpl.
      by rewrite Hcn, Hca.
  - unfold bind at 1. erewrite incr_if_Some;
      [|simpl; rewrite !lookup_insert_ne by done; exact Hfr1|exact Hfrr].
    unfold bind at 1. erewrite clean_if_Some;
      [|simpl; apply lookup_insert_eq|reflexivity].
    unfold bind at 1. erewrite modFiber_Some
      by (simpl; rewrite !lookup_insert_ne by done; apply lookup_insert_eq).
    unfold bind at 1. erewrite modFiber_Some by (simpl; apply lookup_insert_eq).
    eexists. split; [reflexivity|]. simpl.
    split; [done|]. split.
    + intros x Hx Hx'. by rewrite !lookup_insert_ne.
    + split.
      * rewrite lookup_insert_eq. f_equal.
        unfold set_root, set_bdom, set_rootPart, set_parent, set_children. simpl.
        by rewrite Hcn, Hca, Hcr.
      * intros fr2 Hfr2 _. rewrite Hfr1 in Hfr2. injection Hfr2 as <-.
        rewrite !(lookup_insert_ne _ current) by done.
        by rewrite !insert_insert_eq, lookup_insert_eq.
Qed.

Lemma counter_of_Some w x f r :
  fibers w !! x = Some f → rootPart f = Some r → counter_of w x = Some (counter r).
Proof. intros Hf Hr. unfold counter_of. rewrite Hf. simpl. by rewrite Hr. Qed.

Lemma modulo_root_counter_of w0 w x :
  modulo_root w0 w → counter_of w0 x = counter_of w x.
Proof.
  intros (F & _). specialize (F x). unfold counter_of.
  destruct (fibers w0 !! x) as [o0|], (fibers w !! x) as [o|]; try done.
  simpl in *. assert (rootPart o0 = rootPart o) as ->; [|done].
  apply set_root_0_fields. congruence.
Qed.

Lemma counter_cleaned child r : counter (cleaned child r) = counter r.
Proof. done. Qed.

(** C4: when the node has a fiber, [makeChildFiber] returns that fiber
    with [parent.root] as its root, and the counter of [parent.root] is one
    more than before exactly if the fiber's previous root was another one
    or its output was set; otherwise the counter is as before. *)
Theorem makeChildFiber_counts_descendant fuel nd par w n current p c fr r visited :
  nodes w !! nd = Some n → ComponentNode.fiber n = Some current →
  fibers w !! par = Some p → fibers w !! current = Some c →
  fibers w !! root p = Some fr → rootPart fr = Some r →
  subtree fuel (fibers w) (children c) = Some visited →
  nodes_present w visited →
  ∃ w',
    makeChildFiber fuel nd par w = Some (current, w') ∧
    (counter_of w' (root p) = Some (counter r + 1)%Z
     ↔ root c ≠ root p ∨ is_Some (bdom c)) ∧
    (¬ (root c ≠ root p ∨ is_Some (bdom c)) →
     counter_of w' (root p) = Some (counter r)) ∧
    (root c ≠ root p → bdom c = None →
     counter_of w' (root p) = Some (counter r + 1)%Z) ∧
    root <$> fibers w' !! current = Some (root p).
Proof.
  intros Hn Hcur Hp Hc Hfr Hr Hs Hnp.
  destruct (makeChildFiber_recycle fuel nd par w n current p c fr r visited)
    as (w' & Hrun & _ & _ & Hcur' & Hrt'); try done.
  set (counted := negb (bool_decide (root c = root p))
                  || bool_decide (is_Some (bdom c))) in *.
  assert (counter_of w' (root p)
          = Some (counter r + (if counted then 1 else 0))%Z) as Hk.
  { destruct (decide (current = root p)) as [Heq|Hne].
    - rewrite <- Heq. erewrite counter_of_Some; [|exact Hcur'|reflexivity].
      f_equal. by destruct (bool_decide (root c = _)).
    - pose proof (cancel_fold_modulo_root (root p) visited w) as Hw1.
      destruct (modulo_root_lookup _ _ _ _ Hw1 Hfr) as (fr1 & Hfr1 & _).
      erewrite counter_of_Some; [|exact (Hrt' fr1 Hfr1 Hne)|reflexivity].
      f_equal. by destruct (bool_decide (root c = _)). }
  assert (counted = true ↔ root c ≠ root p ∨ is_Some (bdom c)) as Hcounted.
  { unfold counted. rewrite orb_true_iff, negb_true_iff.
    rewrite bool_decide_eq_false, bool_decide_eq_true. done. }
  exists w'. split; [done|]. rewrite Hk. repeat split.
  - intros [= Heq]. apply Hcounted. destruct counted; [done|lia].
  - intros H. apply Hcounted in H. by rewrite H.
  - intros H. destruct counted; [|by rewrite Z.add_0_r].
    exfalso. apply H. by apply Hcounted.
  - intros Hroot _. assert (counted = true) as -> by (apply Hcounted; by left).
    done.
  - by rewrite Hcur'.
Qed.

Lemma makeChildFiber_counts_descendant_witness :
  ∃ w', makeChildFiber 1 15 1 overlap = Some (5, w') ∧
        counter_of w' 1 = Some 2%Z ∧
        root <$> fibers w' !! 5 = Some 1.
Proof.
  destruct (makeChildFiber_counts_descendant 1 15 1 overlap
              (sample_node (Some 5) []) 5
              (mkFiber 11 None 1 None [] false (Some (mkRootPart 1 [] [] [] false None)))
              (mkFiber 15 None 5 None [6] false (Some (mkRootPart 2 [] [] [] false None)))
              (mkFiber 11 None 1 None [] false (Some (mkRootPart 1 [] [] [] false None)))
              (mkRootPart 1 [] [] [] false None) [6])
    as (w' & Hrun & _ & _ & Hone & Hroot); try reflexivity.
  - apply nodes_present_Forall. repeat constructor; vm_compute; eauto.
  - exists w'. split; [exact Hrun|]. split; [|exact Hroot].
    apply Hone; [simpl; lia|reflexivity].
Defined.

(** C3, as the code has it: when the node has a fiber, [makeChildFiber]
    cancels the fibers below it under [parent.root], the new root: each of
    them gets [parent.root] as its root and its node's [fiber] is [null].
    The number that [cancelFibers] returns is dropped: the counter of every
    root fiber other than [parent.root], so that of a previous root too,
    is as before.  The fiber itself is given [parent] and [parent.root],
    and loses its children and its output. *)
Theorem makeChildFiber_cancels_under_new_root fuel nd par w n current p c fr r visited :
  nodes w !! nd = Some n → ComponentNode.fiber n = Some current →
  fibers w !! par = Some p → fibers w !! current = Some c →
  fibers w !! root p = Some fr → rootPart fr = Some r →
  subtree fuel (fibers w) (children c) = Some visited →
  nodes_present w visited →
  ∃ w' c',
    makeChildFiber fuel nd par w = Some (current, w') ∧
    (∀ x, x ∈ visited → root <$> fibers w' !! x = Some (root p)) ∧
    (∀ x o, x ∈ visited → fibers w !! x = Some o →
            ComponentNode.fiber <$> nodes w' !! node o = Some None) ∧
    (∀ x, x ≠ root p → counter_of w' x = counter_of w x) ∧
    fibers w' !! current = Some c' ∧
    parent c' = Some par ∧ root c' = root p ∧ children c' = [] ∧ bdom c' = None.
Proof.
  intros Hn Hcur Hp Hc Hfr Hr Hs Hnp.
  destruct (makeChildFiber_recycle fuel nd par w n current p c fr r visited)
    as (w' & Hrun & Hnodes & Hother & Hcur' & Hrt'); try done.
  pose proof (cancel_fold_modulo_root (root p) visited w) as Hw1.
  pose proof (subtree_present _ _ _ _ Hs) as Hpres.
  destruct (modulo_root_lookup _ _ _ _ Hw1 Hfr) as (fr1 & Hfr1 & _).
  eexists w', _. split; [done|]. split; [|split; [|split; [|split]]];
    [| | |exact Hcur'|done].
  - intros x Hx. destruct (decide (x = current)) as [->|Hxc].
    { by rewrite Hcur'. }
    destruct (decide (x = root p)) as [->|Hxr].
    { rewrite (Hrt' fr1 Hfr1) by done. simpl. f_equal.
      pose proof (cancel_fold_fibers (root p) visited w Hpres Hnp (root p)) as Hl.
      rewrite decide_True, Hfr, Hfr1 in Hl by done. by injection Hl as ->. }
    rewrite Hother by done. rewrite cancel_fold_fibers by done.
    rewrite decide_True by done. destruct (Hpres x Hx) as [o ->]. done.
  - intros x o Hx Ho. rewrite Hnodes, cancel_fold_nodes by done.
    destruct (Hnp x o Hx Ho) as [cn Hcn].
    rewrite decide_True, Hcn; [done|].
    apply list_elem_of_omap. exists x. by rewrite Ho.
  - intros x Hx. destruct (decide (x = current)) as [->|Hxc].
    + unfold counter_of. rewrite Hcur', Hc. simpl.
      by rewrite decide_False by done.
    + unfold counter_of. rewrite Hother by done.
      apply symmetry, (modulo_root_counter_of _ _ x Hw1).
Qed.

Lemma makeChildFiber_cancels_under_new_root_witness :
  ∃ w', makeChildFiber 1 15 1 overlap = Some (5, w') ∧
        root <$> fibers w' !! 6 = Some 1 ∧
        counter_of w' 5 = counter_of overlap 5.
Proof.
  destruct (makeChildFiber_cancels_under_new_root 1 15 1 overlap
              (sample_node (Some 5) []) 5
              (mkFiber 11 None 1 None [] false (Some (mkRootPart 1 [] [] [] false None)))
              (mkFiber 15 None 5 None [6] false (Some (mkRootPart 2 [] [] [] false None)))
              (mkFiber 11 None 1 None [] false (Some (mkRootPart 1 [] [] [] false None)))
              (mkRootPart 1 [] [] [] false None) [6])
    as (w' & c' & Hrun & Hroots & _ & Hcounters & _); try reflexivity.
  - apply nodes_present_Forall. repeat constructor; vm_compute; eauto.
  - exists w'. split; [exact Hrun|]. split.
    + apply Hroots. set_solver.
    + apply Hcounters. simpl. lia.
Defined.

(** C3 as the spec states it fails: in [overlap] the previous root of the
    fiber of the node [15] is [5] and one fiber below it has not rendered,
    but after [makeChildFiber] that fiber has the root [1], not [5], and
    the counter of [5] is [2] as before, not [2 - 1]. *)
Lemma makeChildFiber_previous_root_counterexample :
  ∃ w' w'',
    makeChildFiber 1 15 1 overlap = Some (5, w') ∧
    root <$> fibers overlap !! 5 = Some 5 ∧
    cancelFibers 1 5 [6] overlap = Some (1%Z, w'') ∧
    counter_of overlap 5 = Some 2%Z ∧
    root <$> fibers w' !! 6 ≠ Some 5 ∧
    counter_of w' 5 ≠ Some (2 - 1)%Z.
Proof.
  eexists _, _. split; [vm_compute; reflexivity|].
  split; [reflexivity|]. split; [vm_compute; reflexivity|].
  split; [reflexivity|]. split; vm_compute; discriminate.
Qed.

(** ** [makeRootFiber] *)

Lemma clear_error_Some current rt w f :
  fibers w !! current = Some f →
  let b := bool_decide (current ∈ fibersInError w) in
  bind (fibersInError_has current)
    (λ inError,
       bind (if inError
             then bind (fibersInError_delete current)
                    (λ _, bind (fibersInError_delete rt)
                            (λ _, modFiber current (set_appliedToDom false)))
             else ret tt)
         (λ _, ret current)) w
  = Some (current,
          set_fibers
            (<[current := set_appliedToDom
                            (if b then false else appliedToDom f) f]> (fibers w))
            (set_fibersInError
               (if b then fibersInError w ∖ {[current]} ∖ {[rt]}
                else fibersInError w) w)).
Proof.
  intros Hf b. unfold bind at 1. unfold fibersInError_has. fold b.
  destruct b.
  - unfold bind, fibersInError_delete, ret. simpl.
    erewrite modFiber_Some by (simpl; exact Hf). done.
  - unfold bind, ret.
    assert (set_appliedToDom (appliedToDom f) f = f) as -> by by destruct f.
    rewrite insert_id by done. by destruct w.
Qed.

(** What [makeRootFiber] does for a node that has a fiber [current]:
    [visited] are the fibers below [current], [rt] is [current.root]. *)
Lemma makeRootFiber_recycle fuel nd w n current c fr r visited :
  nodes w !! nd = Some n → ComponentNode.fiber n = Some current →
  fibers w !! current = Some c →
  fibers w !! root c = Some fr → rootPart fr = Some r →
  subtree fuel (fibers w) (children c) = Some visited →
  nodes_present w visited →
  let rt := root c in
  let w1 := foldl (cancelOne rt) w visited in
  let r' := set_counter (counter r - pending (fibers w) visited + 1)%Z r in
  let inError := bool_decide (current ∈ fibersInError w) in
  ∃ w',
    makeRootFiber fuel nd w = Some (current, w') ∧
    nodes w' = nodes w1 ∧
    (∀ x, x ≠ current → x ≠ rt → fibers w' !! x = fibers w1 !! x) ∧
    fibers w' !! current
    = Some (mkFiber (node c) None rt (parent c) []
              (if inError then false else appliedToDom c)
              (if decide (current = rt) then Some r' else rootPart c)) ∧
    (∀ fr1, fibers w1 !! rt = Some fr1 → current ≠ rt →
            fibers w' !! rt = Some (set_rootPart (Some r') fr1)).
Proof.
  intros Hn Hcur Hc Hfr Hr Hs Hnp rt w1 r' inError. subst rt.
  pose proof (cancel_fold_modulo_root (root c) visited w) as Hw1. fold w1 in Hw1.
  pose proof (subtree_present _ _ _ _ Hs) as Hpres.
  destruct (modulo_root_lookup _ _ _ _ Hw1 Hc) as (c1 & Hc1 & Heqc).
  apply set_root_0_fields in Heqc as (Hcn & Hcb & Hcp & Hcc & Hca & Hcr).
  assert (root c1 = root c) as Hroot1.
  { pose proof (cancel_fold_fibers (root c) visited w Hpres Hnp current) as Hl.
    fold w1 in Hl. rewrite Hc1, Hc in Hl.
    case_decide; simpl in Hl; injection Hl as ->; done. }
  destruct (modulo_root_lookup _ _ _ _ Hw1 Hfr) as (fr1 & Hfr1 & Heqf).
  apply set_root_0_fields in Heqf as (_ & _ & _ & _ & _ & Hfrr).
  rewrite Hr in Hfrr. symmetry in Hfrr.
  assert (fibersInError w1 = fibersInError w) as Herr by (symmetry; apply Hw1).
  unfold makeRootFiber.
  unfold bind at 1. rewrite (getNode_Some _ _ _ Hn), Hcur.
  unfold bind at 1. rewrite (getFiber_Some _ _ _ Hc).
  unfold bind at 1. rewrite (getRoot_Some _ _ _ _ Hfr Hr).
  unfold bind at 1.
  rewrite (cancelFibers_run _ _ _ w w visited (modulo_root_refl w) Hs Hnp).
  fold w1.
  unfold bind at 1. rewrite (modRoot_Some _ _ _ _ _ Hfr1 Hfrr).
  destruct (decide (current = root c)) as [Heq|Hne].
  - assert (fr1 = c1) as -> by congruence.
    unfold bind at 1. erewrite modFiber_Some
      by (simpl; rewrite <- Heq; apply lookup_insert_eq).
    unfold bind at 1. erewrite incr_if_Some with (b := true);
      [|simpl; rewrite <- Heq; apply lookup_insert_eq|reflexivity].
    unfold bind at 1. erewrite modFiber_Some
      by (simpl; rewrite <- Heq; apply lookup_insert_eq).
    erewrite clear_error_Some by (simpl; apply lookup_insert_eq).
    eexists. split; [reflexivity|]. simpl. rewrite <- !Heq, Herr.
    split; [done|]. split.
    + intros x Hx _. by rewrite !lookup_insert_ne.
    + split; [|done]. rewrite lookup_insert_eq. f_equal.
      unfold set_appliedToDom, set_bdom, set_rootPart, set_children. simpl.
      fold inError. rewrite Hcn, Hca, Hcp, Hroot1, <- Heq. done.
  - unfold bind at 1. erewrite modFiber_Some
      by (simpl; rewrite lookup_insert_ne by done; exact Hc1).
    unfold bind at 1. erewrite incr_if_Some with (b := true);
      [|simpl; rewrite lookup_insert_ne by done; apply lookup_insert_eq
       |reflexivity].
    unfold bind at 1. erewrite modFiber_Some
      by (simpl; rewrite lookup_insert_ne by done; apply lookup_insert_eq).
    erewrite clear_error_Some by (simpl; apply lookup_insert_eq).
    eexists. split; [reflexivity|]. simpl. rewrite Herr.
    split; [done|]. split.
    + intros x Hx Hx'. by rewrite !lookup_insert_ne.
    + split.
      * rewrite lookup_insert_eq. f_equal.
        unfold set_appliedToDom, set_bdom, set_rootPart, set_children. simpl.
        fold inError. rewrite Hcn, Hca, Hcp, Hroot1, Hcr. done.
      * intros fr2 Hfr2 _. rewrite Hfr1 in Hfr2. injection Hfr2 as <-.
        rewrite !(lookup_insert_ne _ current) by done.
        rewrite lookup_insert_eq. done.
Qed.

Lemma alloc_fresh w : fibers w !! fresh (dom (fibers w)) = None.
Proof. apply not_elem_of_dom, is_fresh. Qed.

(** What [makeRootFiber] does for a node that has no fiber: it makes a
    [RootFiber] whose counter is 1 and that is in its own [willPatch] and
    [patched] queues if the node has such hooks. *)
Lemma makeRootFiber_fresh fuel nd w n :
  nodes w !! nd = Some n → ComponentNode.fiber n = None →
  let this := fresh (dom (fibers w)) in
  let queue (cbs : list callback) :=
    if bool_decide (cbs ≠ []) then [this] else [] in
  makeRootFiber fuel nd w
  = Some (this,
          set_fibers
            (<[this := mkFiber nd None this None [] false
                         (Some (mkRootPart 1 (queue (ComponentNode.willPatch n))
                                  (queue (ComponentNode.patched n)) [] false None))]>
               (fibers w)) w).
Proof.
  intros Hn Hnone this queue. unfold makeRootFiber.
  unfold bind at 1. rewrite (getNode_Some _ _ _ Hn), Hnone.
  unfold new_RootFiber, alloc, Fiber_constructor, RootFiber_fields.
  fold this. unfold bind at 1. unfold bind at 1. unfold bind at 1.
  unfold bind at 1. unfold putFiber at 1.
  erewrite modFiber_Some by (simpl; apply lookup_insert_eq).
  unfold bind at 1.
  erewrite modFiber_Some by (simpl; apply lookup_insert_eq).
  unfold ret at 1. unfold bind at 1. simpl.
  rewrite !insert_insert_eq.
  erewrite (incr_if_Some_gen _ (λ r, set_willPatch (willPatch r ++ [this]) r));
    [|simpl; apply lookup_insert_eq|reflexivity].
  unfold bind at 1.
  erewrite (incr_if_Some_gen _ (λ r, set_patched (patched r ++ [this]) r));
    [|simpl; apply lookup_insert_eq|reflexivity].
  unfold ret. simpl. rewrite !insert_insert_eq. unfold queue.
  by destruct (bool_decide (ComponentNode.willPatch n ≠ [])),
              (bool_decide (ComponentNode.patched n ≠ [])).
Qed.

(** ** What a call that returns has found in the stores *)

Lemma bind_Some_inv {A B} (m : M A) (k : A → M B) w r :
  bind m k w = Some r → ∃ a w1, m w = Some (a, w1) ∧ k a w1 = Some r.
Proof.
  unfold bind. destruct (m w) as [[a w1]|]; [|done]. intros H. by exists a, w1.
Qed.

Lemma getFiber_Some_inv l w f w' :
  getFiber l w = Some (f, w') → fibers w !! l = Some f ∧ w' = w.
Proof. unfold getFiber. destruct (fibers w !! l); [|done]. by intros [= -> ->]. Qed.

Lemma getNode_Some_inv n w c w' :
  getNode n w = Some (c, w') → nodes w !! n = Some c ∧ w' = w.
Proof. unfold getNode. destruct (nodes w !! n); [|done]. by intros [= -> ->]. Qed.

Lemma getRoot_Some_inv l w r w' :
  getRoot l w = Some (r, w') →
  ∃ f, fibers w !! l = Some f ∧ rootPart f = Some r ∧ w' = w.
Proof.
  intros (f & w1 & Hf & Hr)%bind_Some_inv.
  apply getFiber_Some_inv in Hf as [Hf ->].
  destruct (rootPart f) as [r0|] eqn:Hr0; [|done].
  injection Hr as -> ->. by exists f.
Qed.

Lemma modNode_Some_inv n g w u w' :
  modNode n g w = Some (u, w') →
  ∃ c, nodes w !! n = Some c ∧ w' = set_nodes (<[n := g c]> (nodes w)) w.
Proof.
  intros (c & w1 & Hc & Hw)%bind_Some_inv.
  apply getNode_Some_inv in Hc as [Hc ->]. injection Hw as _ <-. by exists c.
Qed.

Lemma modFiber_Some_inv l g w u w' :
  modFiber l g w = Some (u, w') →
  ∃ f, fibers w !! l = Some f ∧ w' = set_fibers (<[l := g f]> (fibers w)) w.
Proof.
  intros (f & w1 & Hf & Hw)%bind_Some_inv.
  apply getFiber_Some_inv in Hf as [Hf ->]. injection Hw as _ <-. by exists f.
Qed.

Lemma modulo_root_sym w0 w : modulo_root w0 w → modulo_root w w0.
Proof. intros (F & N & E & C). by repeat split. Qed.

Lemma cancelLoop_Some_inv rt w0 (rec : list loc → M Z)
    (srec : list loc → option (list loc)) :
  (∀ fs w visited,
     modulo_root w0 w → srec fs = Some visited → nodes_present w0 visited →
     rec fs w = Some (pending (fibers w0) visited, foldl (cancelOne rt) w visited)) →
  (∀ fs w k w',
     modulo_root w0 w → rec fs w = Some (k, w') →
     ∃ visited, srec fs = Some visited ∧ nodes_present w0 visited) →
  ∀ fs w acc k w',
    modulo_root w0 w → cancelLoop rec rt fs acc w = Some (k, w') →
    ∃ visited, subtreeLoop srec (fibers w0) fs = Some visited ∧
               nodes_present w0 visited.
Proof.
  intros Hrun Hrec fs. induction fs as [|f rest IH]; intros w acc k w' Hw Hk.
  - exists []. split; [done|]. intros x o Hx. by apply elem_of_nil in Hx.
  - simpl in Hk.
    apply bind_Some_inv in Hk as (o' & wa & Ho' & Hk).
    apply getFiber_Some_inv in Ho' as [Ho' ->].
    apply bind_Some_inv in Hk as (u1 & wa & Hm & Hk).
    apply modNode_Some_inv in Hm as (c & Hc & ->).
    apply bind_Some_inv in Hk as (u2 & wb & Hm & Hk).
    apply modFiber_Some_inv in Hm as (o2 & Ho2 & ->).
    simpl in Ho2. rewrite Ho' in Ho2. injection Ho2 as <-.
    apply bind_Some_inv in Hk as (o3 & wc & Ho3 & Hk).
    apply getFiber_Some_inv in Ho3 as [Ho3 ->].
    simpl in Ho3. rewrite lookup_insert_eq in Ho3. injection Ho3 as <-.
    apply bind_Some_inv in Hk as (kd & wd & Hd & Hk).
    simpl children in Hd.
    set (w1 := set_fibers _ _) in *.
    assert (w1 = cancelOne rt w f) as Hw1.
    { unfold cancelOne. by rewrite Ho', Hc. }
    assert (modulo_root w0 w1) as Hw01.
    { rewrite Hw1. eapply modulo_root_trans; [done|apply cancelOne_modulo_root]. }
    destruct (modulo_root_lookup _ _ _ _ (modulo_root_sym _ _ Hw) Ho')
      as (o & Ho & Heq).
    apply set_root_0_fields in Heq as (Hnode & _ & _ & Hch & _).
    destruct (Hrec _ _ _ _ Hw01 Hd) as (d & Hsd & Hnd).
    rewrite (Hrun _ _ _ Hw01 Hsd Hnd) in Hd. injection Hd as <- <-.
    destruct (IH _ _ _ _ (modulo_root_trans _ _ _ Hw01
                            (cancel_fold_modulo_root rt d w1)) Hk)
      as (r & Hsr & Hnr).
    exists (f :: d ++ r). split.
    + simpl. rewrite Ho, <- Hch, Hsd, Hsr. done.
    + intros x ox [->|Hx]%elem_of_cons Hox.
      * rewrite Ho in Hox. injection Hox as <-. rewrite <- Hnode.
        destruct (modulo_root_node _ _ _ _ (modulo_root_sym _ _ Hw) Hc). eauto.
      * apply elem_of_app in Hx as [Hx|Hx]; [by eapply Hnd|by eapply Hnr].
Qed.

(** If [cancelFibers] returns, the subtrees it was given are finite and
    within the stores. *)
Lemma cancelFibers_Some_inv rt fuel :
  ∀ fs w0 w k w',
    modulo_root w0 w → cancelFibers fuel rt fs w = Some (k, w') →
    ∃ visited, subtree fuel (fibers w0) fs = Some visited ∧
               nodes_present w0 visited.
Proof.
  induction fuel as [|n IH]; intros fs w0 w k w' Hw Hk.
  - destruct fs; [|done]. exists []. split; [done|].
    intros x o Hx. by apply elem_of_nil in Hx.
  - simpl in Hk. eapply cancelLoop_Some_inv; [| |exact Hw|exact Hk].
    + intros. by apply cancelFibers_run.
    + intros. by eapply IH.
Qed.

(** The store facts behind a call of [makeRootFiber] that returns. *)
Lemma makeRootFiber_Some_inv fuel nd w f w1 :
  makeRootFiber fuel nd w = Some (f, w1) →
  ∃ n, nodes w !! nd = Some n ∧
       (ComponentNode.fiber n = None ∨
        ∃ c fr r visited,
          ComponentNode.fiber n = Some f ∧ fibers w !! f = Some c ∧
          fibers w !! root c = Some fr ∧ rootPart fr = Some r ∧
          subtree fuel (fibers w) (children c) = Some visited ∧
          nodes_present w visited).
Proof.
  unfold makeRootFiber. intros (n & wa & Hn & Hk)%bind_Some_inv.
  apply getNode_Some_inv in Hn as [Hn ->]. exists n. split; [done|].
  destruct (ComponentNode.fiber n) as [current|] eqn:Hcur; [right|by left].
  apply bind_Some_inv in Hk as (c & wa & Hc & Hk).
  apply getFiber_Some_inv in Hc as [Hc ->].
  apply bind_Some_inv in Hk as (r & wa & Hr & Hk).
  apply getRoot_Some_inv in Hr as (fr & Hfr & Hr & ->).
  apply bind_Some_inv in Hk as (k & wa & Hcancel & Hk).
  destruct (cancelFibers_Some_inv _ _ _ w w _ _ (modulo_root_refl w) Hcancel)
    as (visited & Hs & Hnp).
  destruct (makeRootFiber_recycle fuel nd w n current c fr r visited)
    as (w' & Hrun & _); try done.
  assert (f = current) as ->.
  { unfold makeRootFiber in Hrun.
    unfold bind at 1 in Hrun. rewrite (getNode_Some _ _ _ Hn), Hcur in Hrun.
    unfold bind at 1 in Hrun. rewrite (getFiber_Some _ _ _ Hc) in Hrun.
    unfold bind at 1 in Hrun. rewrite (getRoot_Some _ _ _ _ Hfr Hr) in Hrun.
    unfold bind at 1 in Hrun. rewrite Hcancel in Hrun.
    rewrite Hrun in Hk. by injection Hk. }
  by exists c, fr, r, visited.
Qed.

Lemma pending_nil h : pending h [] = 0%Z.
Proof. done. Qed.

(** The counter of [current.root] after [makeRootFiber] has recycled
    [current]. *)
Lemma makeRootFiber_recycle_counter fuel nd w n current c fr r visited :
  nodes w !! nd = Some n → ComponentNode.fiber n = Some current →
  fibers w !! current = Some c →
  fibers w !! root c = Some fr → rootPart fr = Some r →
  subtree fuel (fibers w) (children c) = Some visited →
  nodes_present w visited →
  ∃ w' c',
    makeRootFiber fuel nd w = Some (current, w') ∧
    counter_of w' (root c)
    = Some (counter r - pending (fibers w) visited + 1)%Z ∧
    fibers w' !! current = Some c' ∧ root c' = root c ∧ children c' = [] ∧
    bdom c' = None ∧
    (∀ n', nodes w !! nd = Some n' → is_Some (nodes w' !! nd)).
Proof.
  intros Hn Hcur Hc Hfr Hr Hs Hnp.
  destruct (makeRootFiber_recycle fuel nd w n current c fr r visited)
    as (w' & Hrun & Hnodes & _ & Hcur' & Hrt'); try done.
  pose proof (cancel_fold_modulo_root (root c) visited w) as Hw1.
  eexists w', _. split; [done|]. split; [|split; [exact Hcur'|]].
  - destruct (decide (current = root c)) as [Heq|Hne].
    + rewrite <- Heq. by erewrite counter_of_Some; [|exact Hcur'|reflexivity].
    + destruct (modulo_root_lookup _ _ _ _ Hw1 Hfr) as (fr1 & Hfr1 & _).
      by erewrite counter_of_Some; [|exact (Hrt' fr1 Hfr1 Hne)|reflexivity].
  - repeat split. intros n' Hn'. rewrite Hnodes.
    by eapply modulo_root_node.
Qed.

(** C9, as the code has it: if [makeRootFiber] returns the fiber [f] for a
    node and [f] is made the node's fiber, a second call for the node
    returns [f] again, and the counter of the root of [f] is one more than
    after the first call: the second call counts [f] once more. *)
Theorem makeRootFiber_twice fuel nd w f w1 :
  makeRootFiber fuel nd w = Some (f, w1) →
  ∃ w1' w2 rt k,
    attach nd f w1 = Some (tt, w1') ∧
    makeRootFiber fuel nd w1' = Some (f, w2) ∧
    root <$> fibers w1 !! f = Some rt ∧
    counter_of w1 rt = Some k ∧
    counter_of w2 rt = Some (k + 1)%Z.
Proof.
  intros Hfirst.
  assert (∃ n o fr r,
            nodes w1 !! nd = Some n ∧ fibers w1 !! f = Some o ∧
            children o = [] ∧ fibers w1 !! root o = Some fr ∧
            rootPart fr = Some r) as (n & o & fr & r & Hn & Ho & Hch & Hfr & Hr).
  { destruct (makeRootFiber_Some_inv _ _ _ _ _ Hfirst) as (n & Hn & [Hnone|Hsome]).
    - rewrite (makeRootFiber_fresh fuel nd w n Hn Hnone) in Hfirst.
      injection Hfirst as <- <-. eexists n, _, _, _. simpl.
      split; [done|]. split; [apply lookup_insert_eq|]. simpl.
      split; [done|]. split; [apply lookup_insert_eq|done].
    - destruct Hsome as (c & fr & r & visited & Hcur & Hc & Hfr & Hr & Hs & Hnp).
      destruct (makeRootFiber_recycle fuel nd w n f c fr r visited)
        as (w' & Hrun & Hnodes & _ & Hcur' & Hrt'); try done.
      rewrite Hrun in Hfirst. injection Hfirst as <-.
      pose proof (cancel_fold_modulo_root (root c) visited w) as Hw1.
      destruct (modulo_root_node _ _ _ _ Hw1 Hn) as [n' Hn'].
      rewrite <- Hnodes in Hn'.
      destruct (decide (f = root c)) as [Heq|Hne].
      + eexists n', _, _, _. split; [done|]. split; [exact Hcur'|]. simpl.
        split; [done|]. rewrite <- Heq. split; [exact Hcur'|]. done.
      + destruct (modulo_root_lookup _ _ _ _ Hw1 Hfr) as (fr1 & Hfr1 & _).
        eexists n', _, _, _. split; [done|]. split; [exact Hcur'|]. simpl.
        split; [done|]. split; [exact (Hrt' fr1 Hfr1 Hne)|done]. }
  unfold attach. rewrite (modNode_Some _ _ _ _ Hn).
  set (w1' := set_nodes _ w1).
  destruct (makeRootFiber_recycle_counter fuel nd w1'
              (set_node_fiber (Some f) n) f o fr r [])
    as (w2 & c' & Hrun & Hk & _); try done.
  - subst w1'. simpl. apply lookup_insert_eq.
  - rewrite Hch. apply subtree_nil.
  - intros x ox Hx. by apply elem_of_nil in Hx.
  - exists w1', w2, (root o), (counter r). split; [done|]. split; [done|].
    split; [by rewrite Ho|]. split; [by apply (counter_of_Some _ _ fr)|].
    rewrite Hk, pending_nil. f_equal. lia.
Qed.

Lemma makeRootFiber_twice_witness :
  makeRootFiber 0 11 lone_node = Some (0, lone_root) ∧
  ∃ w1' w2,
    attach 11 0 lone_root = Some (tt, w1') ∧
    makeRootFiber 0 11 w1' = Some (0, w2) ∧
    counter_of lone_root 0 = Some 1%Z ∧ counter_of w2 0 = Some 2%Z.
Proof.
  assert (makeRootFiber 0 11 lone_node = Some (0, lone_root)) as Hfirst
    by (vm_compute; reflexivity).
  split; [exact Hfirst|].
  destruct (makeRootFiber_twice 0 11 lone_node 0 lone_root Hfirst)
    as (w1' & w2 & rt & k & Hattach & Hsecond & Hrt & Hk & Hk').
  exists w1', w2. split; [exact Hattach|]. split; [exact Hsecond|].
  vm_compute in Hrt. injection Hrt as <-.
  vm_compute in Hk. injection Hk as <-.
  split; [reflexivity|exact Hk'].
Defined.

(** C9 as the spec states it fails: after the second call the counter is [2],
    not the [1] it was after the first call. *)
Lemma makeRootFiber_twice_counterexample :
  ∃ w1' w2,
    makeRootFiber 0 11 lone_node = Some (0, lone_root) ∧
    attach 11 0 lone_root = Some (tt, w1') ∧
    makeRootFiber 0 11 w1' = Some (0, w2) ∧
    counter_of lone_root 0 = Some 1%Z ∧
    counter_of w2 0 = Some 2%Z ∧
    counter_of w2 0 ≠ counter_of lone_root 0.
Proof.
  eexists _, _. split; [vm_compute; reflexivity|].
  split; [vm_compute; reflexivity|]. split; [vm_compute; reflexivity|].
  split; [reflexivity|]. split; [reflexivity|]. vm_compute. discriminate.
Qed.

(** ** The shape of a batch *)

Lemma subtree_det fuel1 fuel2 h fs l1 l2 :
  subtree fuel1 h fs = Some l1 → subtree fuel2 h fs = Some l2 → l1 = l2.
Proof.
  intros H1 H2.
  apply (subtree_mono _ (fuel1 `max` fuel2)) in H1; [|lia].
  apply (subtree_mono _ (fuel1 `max` fuel2)) in H2; [|lia].
  congruence.
Qed.

Lemma subtreeLoop_cons (rec : list loc → option (list loc)) h f rest :
  subtreeLoop rec h (f :: rest)
  = match h !! f with
    | None => None
    | Some o =>
        match rec (children o), subtreeLoop rec h rest with
        | Some d, Some r => Some (f :: d ++ r)
        | _, _ => None
        end
    end.
Proof. done. Qed.

Lemma subtreeLoop_app (rec : list loc → option (list loc)) h fs1 fs2 :
  subtreeLoop rec h (fs1 ++ fs2)
  = match subtreeLoop rec h fs1, subtreeLoop rec h fs2 with
    | Some l1, Some l2 => Some (l1 ++ l2)
    | _, _ => None
    end.
Proof.
  induction fs1 as [|f fs1 IH]; simpl.
  - by destruct (subtreeLoop rec h fs2).
  - destruct (h !! f) as [o|]; [|done].
    destruct (rec (children o)) as [d|]; [|done]. rewrite IH.
    destruct (subtreeLoop rec h fs1) as [l1|]; [|done].
    destruct (subtreeLoop rec h fs2) as [l2|]; [|done].
    by rewrite app_comm_cons, app_assoc.
Qed.

Lemma pending_ext h h' l :
  (∀ x, x ∈ l → h' !! x ≫= bdom = h !! x ≫= bdom) →
  pending h' l = pending h l.
Proof.
  induction l as [|f l IH]; intros H; [done|].
  rewrite !pending_cons, H by by left. rewrite IH; [done|].
  intros x Hx. apply H. by right.
Qed.

Lemma pending_Permutation h l l' : l ≡ₚ l' → pending h l = pending h l'.
Proof. intros H. unfold pending. by rewrite H. Qed.

(** A fresh fiber [this] without children is appended to the children of
    [par]: the subtree of a batch that has [par] gains [this]. *)
Lemma subtree_push_leaf (h h' : gmap loc Fiber) par this :
  h !! this = None →
  children <$> h' !! this = Some [] →
  (∀ x, x ≠ this →
        children <$> h' !! x
        = (λ o, if decide (x = par) then children o ++ [this] else children o)
            <$> h !! x) →
  ∀ fuel fs l,
    subtree fuel h fs = Some l → NoDup l →
    ∃ l', subtree (S fuel) h' fs = Some l' ∧
          (par ∈ l → l' ≡ₚ this :: l) ∧ (par ∉ l → l' = l).
Proof.
  intros Hfresh Hleaf Hkids. induction fuel as [|n IH]; intros fs l Hs Hnd.
  - destruct fs; simpl in Hs; [|done]. injection Hs as <-. exists [].
    split; [done|]. split; [by intros ?%elem_of_nil|done].
  - change (subtree (S (S n)) h' fs) with (subtreeLoop (subtree (S n) h') h' fs).
    simpl in Hs. revert l Hs Hnd.
    induction fs as [|f rest IHfs]; intros l Hs Hnd.
    + injection Hs as <-. exists [].
      split; [done|]. split; [by intros ?%elem_of_nil|done].
    + simpl in Hs. destruct (h !! f) as [o|] eqn:Ho; [|done].
      destruct (subtree n h (children o)) as [d|] eqn:Hd; [|done].
      destruct (subtreeLoop (subtree n h) h rest) as [r|] eqn:Hr; [|done].
      injection Hs as <-.
      apply NoDup_cons in Hnd as [Hf Hnd].
      apply NoDup_app in Hnd as (Hndd & Hdr & Hndr).
      apply not_elem_of_app in Hf as [Hfd Hfr].
      assert (f ≠ this) as Hft by congruence.
      destruct (IH _ _ Hd Hndd) as (d' & Hd' & Hd_in & Hd_out).
      destruct (IHfs _ eq_refl Hndr) as (r' & Hr' & Hr_in & Hr_out).
      pose proof (Hkids f Hft) as Hkf. rewrite Ho in Hkf.
      destruct (h' !! f) as [o'|] eqn:Ho'; [|done].
      simpl in Hkf. injection Hkf as Hkf.
      rewrite subtreeLoop_cons, Ho', Hkf, Hr'.
      destruct (decide (f = par)) as [->|Hfp].
      * change (subtree (S n) h' (children o ++ [this]))
          with (subtreeLoop (subtree n h') h' (children o ++ [this])).
        rewrite subtreeLoop_app.
        change (subtreeLoop (subtree n h') h' (children o))
          with (subtree (S n) h' (children o)).
        rewrite Hd'. simpl.
        destruct (h' !! this) as [ot|] eqn:Hot; [|done].
        simpl in Hleaf. injection Hleaf as ->. rewrite subtree_nil.
        rewrite (Hd_out Hfd), (Hr_out Hfr).
        eexists. split; [done|]. split; [|intros []; by left].
        intros _. simpl. rewrite <- app_assoc. simpl.
        rewrite <- Permutation_middle. apply Permutation_swap.
      * rewrite Hd'. eexists. split; [done|]. split.
        -- intros [?|[Hp|Hp]%elem_of_app]%elem_of_cons; [done| |].
           ++ assert (par ∉ r) as Hpr by (intros ?; by eapply Hdr).
              rewrite (Hd_in Hp), (Hr_out Hpr). simpl.
              apply Permutation_swap.
           ++ assert (par ∉ d) as Hpd by (intros ?; by eapply Hdr).
              rewrite (Hr_in Hp), (Hd_out Hpd).
              rewrite <- Permutation_middle. apply Permutation_swap.
        -- intros Hp. apply not_elem_of_cons in Hp as [_ Hp].
           apply not_elem_of_app in Hp as [Hpd Hpr].
           by rewrite (Hd_out Hpd), (Hr_out Hpr).
Qed.

(** The children of [c] are dropped: the subtree of a batch that has [c]
    loses the fibers [d] that were below [c]. *)
Lemma subtree_drop_children (h h' : gmap loc Fiber) c oc fuel0 d :
  h !! c = Some oc →
  subtree fuel0 h (children oc) = Some d →
  children <$> h' !! c = Some [] →
  (∀ x, x ≠ c → children <$> h' !! x = children <$> h !! x) →
  ∀ fuel fs l,
    subtree fuel h fs = Some l → NoDup l →
    ∃ l', subtree fuel h' fs = Some l' ∧
          (c ∈ l → l ≡ₚ l' ++ d ∧ c ∈ l') ∧ (c ∉ l → l' = l).
Proof.
  intros Hc Hd Hc' Hkids. induction fuel as [|n IH]; intros fs l Hs Hnd.
  - destruct fs; simpl in Hs; [|done]. injection Hs as <-. exists [].
    split; [done|]. split; [by intros ?%elem_of_nil|done].
  - simpl in Hs. simpl subtree. revert l Hs Hnd.
    induction fs as [|f rest IHfs]; intros l Hs Hnd.
    + injection Hs as <-. exists [].
      split; [done|]. split; [by intros ?%elem_of_nil|done].
    + rewrite subtreeLoop_cons in Hs.
      destruct (h !! f) as [o|] eqn:Ho; [|done].
      destruct (subtree n h (children o)) as [df|] eqn:Hdf; [|done].
      destruct (subtreeLoop (subtree n h) h rest) as [r|] eqn:Hr; [|done].
      injection Hs as <-.
      apply NoDup_cons in Hnd as [Hf Hnd].
      apply NoDup_app in Hnd as (Hndd & Hdr & Hndr).
      apply not_elem_of_app in Hf as [Hfd Hfr].
      destruct (IHfs _ eq_refl Hndr) as (r' & Hr' & Hr_in & Hr_out).
      rewrite subtreeLoop_cons, Hr'.
      destruct (decide (f = c)) as [->|Hfc].
      * destruct (h' !! c) as [oc'|] eqn:Hoc'; [|done].
        simpl in Hc'. injection Hc' as ->. rewrite subtree_nil.
        rewrite Hc in Ho. injection Ho as <-.
        rewrite (subtree_det _ _ _ _ _ _ Hd Hdf), (Hr_out Hfr).
        eexists. split; [done|]. split; [|intros []; by left].
        intros _. split; [|by left]. simpl. f_equiv. apply Permutation_app_comm.
      * pose proof (Hkids f Hfc) as Hkf. rewrite Ho in Hkf.
        destruct (h' !! f) as [o'|] eqn:Ho'; [|done].
        simpl in Hkf. injection Hkf as ->.
        destruct (IH _ _ Hdf Hndd) as (df' & Hdf' & Hd_in & Hd_out).
        rewrite Hdf'. eexists. split; [done|]. split.
        -- intros [?|[Hp|Hp]%elem_of_app]%elem_of_cons; [done| |].
           ++ assert (c ∉ r) as Hpr by (intros ?; by eapply Hdr).
              destruct (Hd_in Hp) as [Hperm Hin]. rewrite (Hr_out Hpr).
              split; [|right; apply elem_of_app; by left].
              rewrite Hperm. simpl. f_equiv. rewrite <- !app_assoc. f_equiv.
              apply Permutation_app_comm.
           ++ assert (c ∉ df) as Hpd by (intros ?; by eapply Hdr).
              destruct (Hr_in Hp) as [Hperm Hin]. rewrite (Hd_out Hpd).
              split; [|right; apply elem_of_app; by right].
              rewrite Hperm at 1. simpl. by rewrite app_assoc.
        -- intros Hp. apply not_elem_of_cons in Hp as [_ Hp].
           apply not_elem_of_app in Hp as [Hpd Hpr].
           by rewrite (Hd_out Hpd), (Hr_out Hpr).
Qed.

(** The output of one fiber of [l] is reset: one more fiber is pending. *)
Lemma pending_reset h h' c l :
  NoDup l → c ∈ l →
  outputSet h c → ¬ outputSet h' c →
  (∀ x, x ≠ c → h' !! x ≫= bdom = h !! x ≫= bdom) →
  pending h' l = (pending h l + 1)%Z.
Proof.
  intros Hnd Hc Hset Hunset Hother. induction l as [|f l IH].
  - by apply elem_of_nil in Hc.
  - apply NoDup_cons in Hnd as [Hf Hnd]. rewrite !pending_cons.
    apply elem_of_cons in Hc as [<-|Hc].
    + rewrite (pending_ext h h' l).
      2:{ intros x Hx. apply Hother. intros ->. done. }
      unfold outputSet in *.
      destruct (h !! c ≫= bdom); [|by destruct Hset].
      destruct (h' !! c ≫= bdom); [|lia]. exfalso. apply Hunset. eauto.
    + rewrite IH by done. rewrite Hother; [lia|]. intros ->. done.
Qed.

(** What [makeChildFiber] does for a node that has no fiber: it makes a
    [Fiber] below [parent], which counts in [parent.root]. *)
Lemma makeChildFiber_fresh fuel nd par w n p fr r :
  nodes w !! nd = Some n → ComponentNode.fiber n = None →
  fibers w !! par = Some p →
  fibers w !! root p = Some fr → rootPart fr = Some r →
  let this := fresh (dom (fibers w)) in
  ∃ w',
    makeChildFiber fuel nd par w = Some (this, w') ∧
    nodes w' = nodes w ∧
    fibers w' !! this = Some (mkFiber nd None (root p) (Some par) [] false None) ∧
    (∀ x, x ≠ this →
       fibers w' !! x
       = (λ o, mkFiber (node o) (bdom o) (root o) (parent o)
                 (if decide (x = par) then children o ++ [this] else children o)
                 (appliedToDom o)
                 (if decide (x = root p)
                  then Some (set_counter (counter r + 1) r)
                  else rootPart o)) <$> fibers w !! x).
Proof.
  intros Hn Hnone Hp Hfr Hr this.
  pose proof (alloc_fresh w) as Hfresh. fold this in Hfresh.
  assert (par ≠ this) as Hpt by congruence.
  assert (root p ≠ this) as Hrt by congruence.
  unfold makeChildFiber.
  unfold bind at 1. rewrite (getNode_Some _ _ _ Hn), Hnone.
  unfold new_Fiber, alloc, Fiber_constructor. fold this.
  unfold bind at 1. unfold bind at 1. unfold bind at 1. unfold putFiber at 1.
  unfold bind at 1. erewrite getFiber_Some
    by (simpl; rewrite lookup_insert_ne by done; exact Hp).
  unfold bind at 1. erewrite (modRoot_Some _ _ fr r);
    [|simpl; rewrite lookup_insert_ne by done; exact Hfr|exact Hr].
  unfold bind at 1. erewrite modFiber_Some
    by (simpl; rewrite lookup_insert_ne by done; apply lookup_insert_eq).
  destruct (decide (par = root p)) as [Heq|Hne].
  - assert (fr = p) as -> by congruence.
    erewrite modFiber_Some
      by (simpl; rewrite lookup_insert_ne, Heq by done; apply lookup_insert_eq).
    unfold ret. eexists. split; [reflexivity|]. simpl.
    split; [done|]. split.
    + rewrite lookup_insert_ne, lookup_insert_eq by done. done.
    + intros x Hx. rewrite <- Heq.
      destruct (decide (x = par)) as [->|Hxp].
      * rewrite lookup_insert_eq, Hp. done.
      * rewrite !lookup_insert_ne by done.
        destruct (fibers w !! x) as [o|]; [|done]. by destruct o.
  - erewrite modFiber_Some
      by (simpl; rewrite !lookup_insert_ne by done; exact Hp).
    unfold ret. eexists. split; [reflexivity|]. simpl.
    split; [done|]. split.
    + rewrite lookup_insert_ne, lookup_insert_eq by done. done.
    + intros x Hx.
      destruct (decide (x = par)) as [->|Hxp].
      * rewrite lookup_insert_eq, Hp. simpl.
        rewrite decide_False by done. by destruct p.
      * rewrite !(lookup_insert_ne _ par), !(lookup_insert_ne _ this) by done.
        destruct (decide (x = root p)) as [->|Hxr].
        -- rewrite lookup_insert_eq, Hfr. simpl. by destruct fr.
        -- rewrite !lookup_insert_ne by done.
           destruct (fibers w !! x) as [o|]; [|done]. by destruct o.
Qed.

(** ** The counter of a batch *)

Lemma modulo_root_bdom w0 w x :
  modulo_root w0 w → fibers w !! x ≫= bdom = fibers w0 !! x ≫= bdom.
Proof.
  intros (F & _). specialize (F x).
  destruct (fibers w0 !! x) as [o0|], (fibers w !! x) as [o|]; try done.
  simpl in *. symmetry. apply set_root_0_fields. congruence.
Qed.

Lemma counter_of_Some_inv w x k :
  counter_of w x = Some k →
  ∃ f r, fibers w !! x = Some f ∧ rootPart f = Some r ∧ counter r = k.
Proof.
  unfold counter_of. destruct (fibers w !! x) as [f|]; [|done]. simpl.
  destruct (rootPart f) as [r|] eqn:Hr; [|done]. intros [= <-]. by exists f, r.
Qed.

(** A new root fiber counts itself. *)
Lemma makeRootFiber_fresh_counter_ok fuel nd w n :
  nodes w !! nd = Some n → ComponentNode.fiber n = None →
  ∃ f w', makeRootFiber fuel nd w = Some (f, w') ∧ counter_ok w' f.
Proof.
  intros Hn Hnone. eexists _, _.
  split; [by apply (makeRootFiber_fresh fuel nd w n)|].
  exists 1, [fresh (dom (fibers w))]. simpl.
  rewrite lookup_insert_eq. simpl. split; [done|].
  split; [apply NoDup_singleton|].
  unfold counter_of. simpl. rewrite lookup_insert_eq. simpl. f_equal.
  rewrite pending_cons. simpl. rewrite lookup_insert_eq. done.
Qed.

(** A new fiber below a fiber of the batch is counted. *)
Lemma makeChildFiber_fresh_counter_ok fuel nd par w n p :
  nodes w !! nd = Some n → ComponentNode.fiber n = None →
  fibers w !! par = Some p →
  counter_ok w (root p) → in_batch w (root p) par →
  ∃ f w', makeChildFiber fuel nd par w = Some (f, w') ∧ counter_ok w' (root p).
Proof.
  intros Hn Hnone Hp (fuel0 & l & Hs & Hnd & Hk) (fuel1 & l1 & Hs1 & Hin).
  rewrite (subtree_det _ _ _ _ _ _ Hs1 Hs) in Hin. clear fuel1 l1 Hs1.
  rewrite Z.add_0_r in Hk.
  destruct (counter_of_Some_inv _ _ _ Hk) as (fr & r & Hfr & Hr & Hkr).
  destruct (makeChildFiber_fresh fuel nd par w n p fr r)
    as (w' & Hrun & _ & Hthis & Hother); try done.
  set (this := fresh (dom (fibers w))) in *.
  pose proof (alloc_fresh w) as Hfresh. fold this in Hfresh.
  assert (this ∉ l) as Hthis_l.
  { intros [o Ho]%(subtree_present _ _ _ _ Hs). congruence. }
  destruct (subtree_push_leaf (fibers w) (fibers w') par this) with
    (fuel := fuel0) (fs := [root p]) (l := l) as (l' & Hs' & Hperm & _);
    try done.
  { by rewrite Hthis. }
  { intros x Hx. rewrite (Hother x Hx).
    destruct (fibers w !! x) as [o|]; [|done]. simpl. by case_decide. }
  exists this, w'. split; [done|]. exists (S fuel0), l'.
  split; [done|]. specialize (Hperm Hin). split.
  - rewrite Hperm. by apply NoDup_cons.
  - assert (root p ≠ this) as Hrt by congruence.
    unfold counter_of. rewrite (Hother _ Hrt), Hfr. simpl.
    rewrite decide_True by done. simpl. f_equal.
    rewrite (pending_Permutation _ _ _ Hperm), pending_cons, Hthis. simpl.
    rewrite (pending_ext (fibers w)); [lia|].
    intros x Hx. rewrite Hother by (intros ->; done).
    by destruct (fibers w !! x).
Qed.

(** [makeRootFiber] for a fiber of the batch: the fibers below it are no
    longer counted, and it is counted once more; so the counter is right
    afterwards if its output was set, and one too high if it was unset. *)
Lemma makeRootFiber_recycle_counter_ok fuel nd w n current c visited :
  nodes w !! nd = Some n → ComponentNode.fiber n = Some current →
  fibers w !! current = Some c →
  counter_ok w (root c) → in_batch w (root c) current →
  subtree fuel (fibers w) (children c) = Some visited →
  nodes_present w visited →
  ∃ w', makeRootFiber fuel nd w = Some (current, w') ∧
        counter_exceeds w' (root c)
          (match bdom c with Some _ => 0 | None => 1 end).
Proof.
  intros Hn Hcur Hc (fuel0 & l & Hs & Hnd & Hk) (fuel1 & l1 & Hs1 & Hin) Hsv Hnp.
  rewrite (subtree_det _ _ _ _ _ _ Hs1 Hs) in Hin. clear fuel1 l1 Hs1.
  rewrite Z.add_0_r in Hk.
  destruct (counter_of_Some_inv _ _ _ Hk) as (fr & r & Hfr & Hr & Hkr).
  destruct (makeRootFiber_recycle fuel nd w n current c fr r visited)
    as (w' & Hrun & _ & Hother & Hcur' & Hrt'); try done.
  destruct (makeRootFiber_recycle_counter fuel nd w n current c fr r visited)
    as (w'' & c' & Hrun' & Hk' & _); try done.
  rewrite Hrun in Hrun'. injection Hrun' as <-.
  pose proof (cancel_fold_modulo_root (root c) visited w) as Hw1.
  destruct (modulo_root_lookup _ _ _ _ Hw1 Hfr) as (fr1 & Hfr1 & Hfreq).
  apply set_root_0_fields in Hfreq as (_ & Hfrb & _ & Hfrc & _).
  assert (∀ x, x ≠ current →
               children <$> fibers w' !! x = children <$> fibers w !! x) as Hkids.
  { intros x Hx. destruct (decide (x = root c)) as [->|Hxr].
    - rewrite (Hrt' fr1 Hfr1) by done. rewrite Hfr. simpl. by rewrite Hfrc.
    - rewrite Hother by done. symmetry. by apply modulo_root_children. }
  assert (∀ x, x ≠ current →
               fibers w' !! x ≫= bdom = fibers w !! x ≫= bdom) as Hbdom.
  { intros x Hx. destruct (decide (x = root c)) as [->|Hxr].
    - rewrite (Hrt' fr1 Hfr1) by done. rewrite Hfr. simpl. by rewrite Hfrb.
    - rewrite Hother by done. by apply modulo_root_bdom. }
  destruct (subtree_drop_children (fibers w) (fibers w') current c fuel visited)
    with (fuel := fuel0) (fs := [root c]) (l := l)
    as (l' & Hs' & Hperm & _); try done.
  { by rewrite Hcur'. }
  destruct (Hperm Hin) as [Hl Hin'].
  assert (NoDup l') as Hnd'.
  { rewrite Hl in Hnd. by apply NoDup_app in Hnd as (? & _). }
  exists w'. split; [done|]. exists fuel0, l'. split; [done|]. split; [done|].
  rewrite Hk'. f_equal.
  rewrite Hkr, (pending_Permutation _ _ _ Hl), pending_app.
  destruct (bdom c) as [b|] eqn:Hb.
  - rewrite (pending_reset (fibers w) (fibers w') current l'); try done; [lia| |].
    + unfold outputSet. rewrite Hc. simpl. rewrite Hb. eauto.
    + unfold outputSet. rewrite Hcur'. simpl. by intros [? ?].
  - rewrite (pending_ext (fibers w) (fibers w') l'); [lia|].
    intros x Hx. destruct (decide (x = current)) as [->|Hxc]; [|by apply Hbdom].
    rewrite Hcur', Hc. simpl. by rewrite Hb.
Qed.

(** C1, as the code has it: a new root fiber has the counter 1 and is the
    one fiber of its batch, its output unset.  If the counter of a batch is
    the number of fibers of its subtree whose output is unset, it still is
    after a fiber is constructed below a fiber of the batch, and after
    [makeRootFiber] recycles a fiber of the batch whose output is set (the
    fibers below it are cancelled and no longer counted, the fiber is
    counted again).  When [makeRootFiber] recycles a fiber whose output is
    unset, the counter is one more than that number afterwards. *)
Theorem counter_counts_pending :
  (∀ fuel nd w n,
     nodes w !! nd = Some n → ComponentNode.fiber n = None →
     ∃ f w', makeRootFiber fuel nd w = Some (f, w') ∧ counter_ok w' f) ∧
  (∀ fuel nd par w n p,
     nodes w !! nd = Some n → ComponentNode.fiber n = None →
     fibers w !! par = Some p →
     counter_ok w (root p) → in_batch w (root p) par →
     ∃ f w', makeChildFiber fuel nd par w = Some (f, w') ∧
             counter_ok w' (root p)) ∧
  (∀ fuel nd w n current c visited,
     nodes w !! nd = Some n → ComponentNode.fiber n = Some current →
     fibers w !! current = Some c →
     counter_ok w (root c) → in_batch w (root c) current →
     subtree fuel (fibers w) (children c) = Some visited →
     nodes_present w visited →
     ∃ w', makeRootFiber fuel nd w = Some (current, w') ∧
           (is_Some (bdom c) → counter_ok w' (root c)) ∧
           (bdom c = None → counter_exceeds w' (root c) 1)).
Proof.
  split; [|split].
  - apply makeRootFiber_fresh_counter_ok.
  - apply makeChildFiber_fresh_counter_ok.
  - intros fuel nd w n current c visited Hn Hcur Hc Hok Hin Hs Hnp.
    destruct (makeRootFiber_recycle_counter_ok fuel nd w n current c visited)
      as (w' & Hrun & Hk); try done.
    exists w'. split; [done|]. split.
    + intros [b Hb]. by rewrite Hb in Hk.
    + intros Hb. by rewrite Hb in Hk.
Qed.

Lemma batch1_counter_ok : counter_ok batch1 1.
Proof.
  exists 3, [1; 2; 3; 4]. split; [reflexivity|]. split; [|reflexivity].
  apply (bool_decide_unpack _). vm_compute. exact I.
Defined.

Lemma counter_counts_pending_witness :
  (∃ f w', makeRootFiber 0 11 lone_node = Some (f, w') ∧ counter_ok w' f) ∧
  (∃ f w', makeChildFiber 0 15 3 batch1 = Some (f, w') ∧ counter_ok w' 1) ∧
  (∃ w', makeRootFiber 0 12 batch1 = Some (2, w') ∧ counter_ok w' 1).
Proof.
  destruct counter_counts_pending as (Hroot & Hchild & Hrecycle).
  split; [|split].
  - apply (Hroot 0 11 lone_node (sample_node None [])); reflexivity.
  - apply (Hchild 0 15 3 batch1 (sample_node None [])
             (mkFiber 13 None 1 (Some 1) [4] false None));
      try reflexivity.
    + exact batch1_counter_ok.
    + exists 3, [1; 2; 3; 4]. split; [reflexivity|]. set_solver.
  - destruct (Hrecycle 0 12 batch1 (sample_node (Some 2) []) 2
                (mkFiber 12 (Some 7) 1 (Some 1) [] false None) [])
      as (w' & Hrun & Hset & _); try reflexivity.
    + exact batch1_counter_ok.
    + exists 3, [1; 2; 3; 4]. split; [reflexivity|]. set_solver.
    + intros x o Hx. by apply elem_of_nil in Hx.
    + exists w'. split; [exact Hrun|]. apply Hset. simpl. eauto.
Defined.

(** C1 as the spec states it fails: [lone_attached] is what [makeRootFiber]
    and [node.fiber = fiber] make of a node that never rendered, and its
    counter is right; [makeRootFiber] for the same node makes the counter
    [2] while the batch still has one fiber, its output unset. *)
Lemma counter_counts_pending_counterexample :
  makeRootFiber 0 11 lone_node = Some (0, lone_root) ∧
  attach 11 0 lone_root = Some (tt, lone_attached) ∧
  counter_ok lone_attached 0 ∧
  ∃ w2, makeRootFiber 0 11 lone_attached = Some (0, w2) ∧
        subtree 1 (fibers w2) [0] = Some [0] ∧
        pending (fibers w2) [0] = 1%Z ∧
        counter_of w2 0 = Some 2%Z ∧
        ¬ counter_ok w2 0.
Proof.
  split; [vm_compute; reflexivity|]. split; [vm_compute; reflexivity|]. split.
  { exists 1, [0]. split; [reflexivity|]. split; [|reflexivity].
    apply NoDup_singleton. }
  eexists. split; [vm_compute; reflexivity|].
  split; [reflexivity|]. split; [reflexivity|]. split; [reflexivity|].
  intros (fuel & l & Hs & _ & Hk).
  assert (l = [0]) as ->.
  { eapply subtree_det; [exact Hs|]. instantiate (1 := 1). reflexivity. }
  vm_compute in Hk. discriminate.
Qed.

Local Close Scope store_scope.

(** ** Statements *)

Lemma set_world_id s : set_world (world s) s = s.
Proof. by destruct s. Qed.

Lemma triple_conseq {A} (Pre Pre' : Frame → Prop) (c : Cmd A)
    (QN QN' : A → Frame → Prop) (QE QE' : Exn → Frame → Prop) :
  triple Pre' c QN' QE' →
  (∀ s, Pre s → Pre' s) → (∀ a s, QN' a s → QN a s) →
  (∀ e s, QE' e s → QE e s) →
  triple Pre c QN QE.
Proof.
  intros H HP HN HE s Hs. specialize (H s (HP s Hs)).
  destruct (c s) as [[a s'|e s']|]; auto.
Qed.

Lemma triple_cret {A} (a : A) (QN : A → Frame → Prop) QE :
  triple (QN a) (cret a) QN QE.
Proof. by intros s Hs. Qed.

Lemma triple_cbind {A B} (Pre : Frame → Prop) (c : Cmd A) (k : A → Cmd B)
    (R : A → Frame → Prop) (QN : B → Frame → Prop) QE :
  triple Pre c R QE → (∀ a, triple (R a) (k a) QN QE) →
  triple Pre (cbind c k) QN QE.
Proof.
  intros Hc Hk s Hs. unfold cbind. specialize (Hc s Hs).
  destruct (c s) as [[a s'|e s']|]; [|done..]. by apply Hk.
Qed.

Lemma triple_lift {A} (Pre : Frame → Prop) (m : M A) (QN : A → Frame → Prop) QE :
  (∀ s a w, Pre s → m (world s) = Some (a, w) → QN a (set_world w s)) →
  triple Pre (lift m) QN QE.
Proof.
  intros H s Hs. unfold lift.
  destruct (m (world s)) as [[a w]|] eqn:Hm; [|done]. by apply H.
Qed.

Lemma triple_assign_current (Pre : Frame → Prop) c (QN : unit → Frame → Prop) QE :
  (∀ s, Pre s → QN tt (set_current c s)) →
  triple Pre (assign_current c) QN QE.
Proof. intros H s Hs. by apply H. Qed.

Lemma triple_external (Pre : Frame → Prop) ev run (QN : unit → Frame → Prop) QE :
  (∀ s w, Pre s → run (world s) = Returns w → QN tt (set_world w (log ev s))) →
  (∀ s e w, Pre s → run (world s) = Throws e w → QE e (set_world w (log ev s))) →
  triple Pre (external ev run) QN QE.
Proof.
  intros HN HE s Hs. unfold external.
  destruct (run (world s)) as [w|e w] eqn:Hr; [by apply HN|by apply HE].
Qed.

Lemma triple_throw {A} (Pre : Frame → Prop) e (QN : A → Frame → Prop)
    (QE : Exn → Frame → Prop) :
  (∀ s, Pre s → QE e s) → triple Pre (throw e) QN QE.
Proof. intros H s Hs. by apply H. Qed.

Lemma triple_for_of {A} (I : Frame → Prop) fuel (arr : World → option (list A))
    i (body : A → Cmd unit) QE :
  (∀ x, triple I (body x) (λ _, I) QE) →
  triple I (for_of fuel arr i body) (λ _, I) QE.
Proof.
  intros Hbody. revert i. induction fuel as [|n IH]; intros i s Hs; [done|].
  simpl. destruct (arr (world s)) as [l|]; [|done].
  destruct (l !! i) as [x|]; [|done].
  by apply (triple_cbind I (body x) _ (λ _, I)).
Qed.

Lemma triple_while_pop (I : Frame → Prop) fuel this get set
    (body : loc → Cmd unit) QE :
  (∀ s w c, I s → I (set_current c (set_world w s))) →
  (∀ x, triple (λ s, I s ∧ current s = Some x) (body x) (λ _, I) QE) →
  triple I (while_pop fuel this get set body) (λ _, I) QE.
Proof.
  intros Hstable Hbody. induction fuel as [|n IH]; intros s Hs; [done|].
  simpl. revert s Hs. apply (triple_cbind I _ _ (λ _, I)).
  { apply triple_lift. intros s a w Hs _.
    specialize (Hstable s w (current s) Hs). by destruct s. }
  intros r. destruct (last (get r)) as [x|].
  - apply (triple_cbind I _ _ (λ _, I)).
    { apply triple_lift. intros s a w Hs _.
      specialize (Hstable s w (current s) Hs). by destruct s. }
    intros _. apply (triple_cbind I _ _ (λ _ s, I s ∧ current s = Some x)).
    { apply triple_assign_current. intros s Hs. split; [|done].
      specialize (Hstable s (world s) (Some x) Hs). by destruct s. }
    intros _. apply (triple_cbind _ _ _ (λ _, I)); [apply Hbody|].
    intros _. apply IH.
  - apply triple_assign_current. intros s Hs.
    specialize (Hstable s (world s) None Hs). by destruct s.
Qed.

Lemma triple_lift_keep {A} (P : Frame → Prop) (m : M A) QE :
  (∀ s w, P s → P (set_world w s)) →
  triple P (lift m) (λ _, P) QE.
Proof. intros H. apply triple_lift. intros s a w Hs _. by apply H. Qed.

(** ** Exceptions in [RootFiber.complete]

    Whatever the collaborators do, an exception that leaves the [try]
    block has just been raised: the block does nothing between the raise
    and its end, and every call it made before is one that returned. *)

Section Raise.
Context (E : Collaborators) (nd : node_id) (tr0 : list Event).

Lemma returned_log ev w s :
  can_return E ev → returned E tr0 s → returned E tr0 (set_world w (log ev s)).
Proof.
  intros Hev (evs & Htr & Hevs). exists (evs ++ [ev]). split.
  - simpl. by rewrite Htr, app_assoc.
  - apply Forall_app. split; [done|]. by constructor.
Qed.

Lemma returned_stable s w c :
  returned E tr0 s → returned E tr0 (set_current c (set_world w s)).
Proof. intros (evs & Htr & Hevs). by exists evs. Qed.

Lemma triple_lift_returned {A} (m : M A) c :
  triple (λ s, returned E tr0 s ∧ current s = c) (lift m)
    (λ _ s, returned E tr0 s ∧ current s = c) (raised E nd tr0).
Proof.
  apply triple_lift_keep. intros s w [Hs Hc]. split; [|done].
  apply (returned_stable s w (current s)) in Hs. by destruct s.
Qed.

Lemma triple_callHooks_raise fuel h f nd' rc :
  triple (λ s, returned E tr0 s ∧ current s = Some f)
    (callHooks E fuel h f nd' rc)
    (λ _ s, returned E tr0 s ∧ current s = Some f) (raised E nd tr0).
Proof.
  apply triple_for_of. intros cb. apply triple_external.
  - intros s w [Hs Hc] Hrun. split; [|done].
    apply returned_log; [|done]. by exists rc, (world s), w.
  - intros s e w [Hs Hc] Hrun. exists s. split; [done|].
    by eapply raise_hook.
Qed.

Lemma triple_willPatch_step_raise fuel cur :
  triple (returned E tr0) (willPatch_step E fuel cur)
    (λ _, returned E tr0) (raised E nd tr0).
Proof.
  unfold willPatch_step.
  apply (triple_cbind _ _ _ (λ _ s, returned E tr0 s ∧ current s = Some cur)).
  { apply triple_assign_current. intros s Hs. split; [|done].
    apply (returned_stable s (world s) (Some cur)) in Hs. by destruct s. }
  intros _. apply (triple_cbind _ _ _ (λ _ s, returned E tr0 s ∧ current s = Some cur));
    [apply triple_lift_returned|].
  intros fc. apply (triple_cbind _ _ _ (λ _ s, returned E tr0 s ∧ current s = Some cur));
    [apply triple_lift_returned|].
  intros n. case_bool_decide.
  - eapply triple_conseq; [apply triple_callHooks_raise|done| |done].
    by intros _ s [Hs _].
  - by intros s [Hs _].
Qed.

Lemma triple_drain_raise fuel this get set h :
  triple (returned E tr0) (while_pop fuel this get set (drain_step E fuel h))
    (λ _, returned E tr0) (raised E nd tr0).
Proof.
  apply triple_while_pop.
  - intros s w c. apply returned_stable.
  - intros x. unfold drain_step.
    apply (triple_cbind _ _ _ (λ _ s, returned E tr0 s ∧ current s = Some x));
      [apply triple_lift_returned|].
    intros fc. destruct (appliedToDom fc).
    + eapply triple_conseq; [apply triple_callHooks_raise|done| |done].
      by intros _ s [Hs _].
    + by intros s [Hs _].
Qed.

Lemma triple_patchDom_raise this :
  triple (λ s, returned E tr0 s ∧ current s = None) (patchDom E this nd)
    (λ _, returned E tr0) (raised E nd tr0).
Proof.
  unfold patchDom.
  apply (triple_cbind _ _ _
           (λ n s, returned E tr0 s ∧ current s = None ∧
                   nodes (world s) !! nd = Some n)).
  { apply triple_lift. intros s n w [Hs Hc] [Hn ->]%getNode_Some_inv.
    by rewrite set_world_id. }
  intros n. apply (triple_cbind _ _ _
                     (λ _ s, returned E tr0 s ∧ current s = None ∧
                             nodes (world s) !! nd = Some n)).
  { apply triple_lift. intros s t w Hs [_ ->]%getFiber_Some_inv.
    by rewrite set_world_id. }
  intros t. apply (triple_cbind _ _ _ (λ _, returned E tr0)).
  { destruct (ComponentNode.bdom n) as [old|] eqn:Hold.
    - apply triple_external.
      + intros s w (Hs & Hc & Hn) Hrun. apply returned_log; [|done].
        by exists (world s), w.
      + intros s e w (Hs & Hc & Hn) Hrun. exists s. split; [done|].
        by eapply raise_patch.
    - apply triple_throw. intros s (Hs & Hc & Hn). exists s. split; [done|].
      by eapply raise_no_output. }
  assert (∀ {A} (m : M A),
            triple (returned E tr0) (lift m) (λ _, returned E tr0)
              (raised E nd tr0)) as Hkeep.
  { intros A m. apply triple_lift_keep. intros s w Hs.
    apply (returned_stable s w (current s)) in Hs. by destruct s. }
  intros _. apply (triple_cbind _ _ _ (λ _, returned E tr0)); [apply Hkeep|].
  intros _. apply (triple_cbind _ _ _ (λ _, returned E tr0)); [apply Hkeep|].
  intros _. apply Hkeep.
Qed.

Lemma triple_RootFiber_try_raise fuel this :
  triple (λ s, returned E tr0 s ∧ current s = None)
    (RootFiber_try E fuel this nd)
    (λ _, returned E tr0) (raised E nd tr0).
Proof.
  unfold RootFiber_try.
  apply (triple_cbind _ _ _ (λ _ s, returned E tr0 s ∧ current s = None)).
  { unfold callWillPatch. apply (triple_cbind _ _ _ (λ _, returned E tr0)).
    - eapply triple_conseq;
        [apply (triple_for_of (returned E tr0)), triple_willPatch_step_raise|
         |done..].
      by intros s [Hs _].
    - intros _. apply triple_assign_current. intros s Hs. split; [|done].
      apply (returned_stable s (world s) None) in Hs. by destruct s. }
  intros _. apply (triple_cbind _ _ _ (λ _, returned E tr0));
    [apply triple_patchDom_raise|].
  intros _. apply (triple_cbind _ _ _ (λ _, returned E tr0));
    [apply triple_drain_raise|].
  intros _. apply triple_drain_raise.
Qed.

End Raise.

Lemma lift_Some {A} (m : M A) s a w :
  m (world s) = Some (a, w) → lift m s = Some (Normal a (set_world w s)).
Proof. intros H. unfold lift. by rewrite H. Qed.

Lemma lift_getFiber s l f :
  fibers (world s) !! l = Some f → lift (getFiber l) s = Some (Normal f s).
Proof.
  intros H. rewrite (lift_Some _ _ f (world s)), set_world_id; [done|].
  by apply getFiber_Some.
Qed.

Lemma lift_getNode s n c :
  nodes (world s) !! n = Some c → lift (getNode n) s = Some (Normal c s).
Proof.
  intros H. rewrite (lift_Some _ _ c (world s)), set_world_id; [done|].
  by apply getNode_Some.
Qed.

Lemma lift_getRoot s l f r :
  fibers (world s) !! l = Some f → rootPart f = Some r →
  lift (getRoot l) s = Some (Normal r s).
Proof.
  intros H Hr. rewrite (lift_Some _ _ r (world s)), set_world_id; [done|].
  by eapply getRoot_Some.
Qed.

Lemma lift_modRoot s l f r g :
  fibers (world s) !! l = Some f → rootPart f = Some r →
  lift (modRoot l g) s
  = Some (Normal tt
            (set_world
               (set_fibers (<[l := set_rootPart (Some (g r)) f]> (fibers (world s)))
                  (world s)) s)).
Proof. intros H Hr. apply lift_Some. by apply modRoot_Some. Qed.

Lemma lift_modFiber s l f g :
  fibers (world s) !! l = Some f →
  lift (modFiber l g) s
  = Some (Normal tt
            (set_world (set_fibers (<[l := g f]> (fibers (world s))) (world s)) s)).
Proof. intros H. apply lift_Some. by apply modFiber_Some. Qed.

Lemma lift_modNode s n c g :
  nodes (world s) !! n = Some c →
  lift (modNode n g) s
  = Some (Normal tt
            (set_world (set_nodes (<[n := g c]> (nodes (world s))) (world s)) s)).
Proof. intros H. apply lift_Some. by apply modNode_Some. Qed.

Lemma cbind_lift_Some_inv {A B} (m : M A) (k : A → Cmd B) s res :
  cbind (lift m) k s = Some res →
  ∃ a w, m (world s) = Some (a, w) ∧ k a (set_world w s) = Some res.
Proof.
  unfold cbind, lift. destruct (m (world s)) as [[a w]|]; [|done].
  intros H. by exists a, w.
Qed.

Lemma modRoot_Some_inv l g w u w' :
  modRoot l g w = Some (u, w') →
  ∃ f r, fibers w !! l = Some f ∧ rootPart f = Some r ∧
         w' = set_fibers (<[l := set_rootPart (Some (g r)) f]> (fibers w)) w.
Proof.
  intros (r & w1 & (f & Hf & Hr & ->)%getRoot_Some_inv & Hm)%bind_Some_inv.
  apply modFiber_Some_inv in Hm as (f' & Hf' & ->).
  rewrite Hf in Hf'. injection Hf' as <-. by exists f, r.
Qed.

Lemma raise_current E nd e sr s2 : raise E nd e sr s2 → current s2 = current sr.
Proof. by intros [h f cb rc w _ _ ->|old new wc w _ _ ->|n _ _ _ _ ->]. Qed.

Lemma raise_active_fiber E nd this e sr s2 :
  raise E nd e sr s2 → active_fiber this e s2 (default this (current s2)).
Proof.
  intros [h f cb rc w Hc _ ->|old new wc w Hc _ ->|n Hc _ _ -> ->].
  - simpl. rewrite Hc. left. by exists h, cb, (trace sr).
  - simpl. rewrite Hc. right. split; [done|]. split; [done|]. left.
    by exists old, new, wc, (trace sr).
  - rewrite Hc. right. split; [done|]. split; [done|]. by right.
Qed.

Lemma can_return_no_handleError E evs :
  Forall (can_return E) evs → no_handleError evs.
Proof.
  intros H. eapply Forall_impl; [exact H|]. intros ev Hev f e ->. exact Hev.
Qed.

Lemma raise_trace E nd e sr s2 :
  raise E nd e sr s2 →
  ∃ evs, trace s2 = trace sr ++ evs ∧ no_handleError evs.
Proof.
  intros [h f cb rc w _ _ ->|old new wc w _ _ ->|n _ _ _ _ ->].
  - exists [EvCall h f cb]. split; [done|]. by repeat constructor.
  - exists [EvPatch old new wc]. split; [done|]. by repeat constructor.
  - exists []. split; [by rewrite app_nil_r|constructor].
Qed.

(** C7: a call of [this.complete()] never ends abruptly.  If it ends
    without a call of [handleError], every call it made returned.
    Otherwise an exception [e] was raised in a state [sr] of the [try]
    block ([raise]: a hook of the [current] fiber or the patch threw [e],
    or the node had no output to patch), every call made before is one
    that returns, and the raise is the end of the [try] block: the state
    [s2] in which the [catch] block starts is the state the raise left,
    with nothing done and nothing called in between.  The [catch] block
    unlocks [this] and calls [handleError] with [e] and the fiber at work
    ([current], or [this] when nothing is [current]), and this is all:
    it is the one call of [handleError] and the last call of the commit.
    [this] is unlocked when [handleError] is called, and when [complete()]
    returns if [handleError] leaves the lock alone. *)
Theorem RootFiber_complete_catches E fuel this s :
  (∀ res,
     RootFiber_complete E fuel this s = Some res →
     ∃ s' t evs,
       res = Normal tt s' ∧ fibers (world s) !! this = Some t ∧
       Forall (can_return E) evs ∧
       (trace s' = trace s ++ evs ∨
        ∃ e sr s2 t2 r2,
          trace sr = trace s ++ evs ∧ raise E (node t) e sr s2 ∧
          fibers (world s2) !! this = Some t2 ∧ rootPart t2 = Some r2 ∧
          s' = caught E this t2 r2 e s2)) ∧
  (∀ t r e s2 t2 r2,
     fibers (world s) !! this = Some t → rootPart t = Some r →
     RootFiber_try E fuel this (node t) (locked_frame this t r s)
     = Some (Abrupt e s2) →
     fibers (world s2) !! this = Some t2 → rootPart t2 = Some r2 →
     let f := default this (current s2) in
     let s3 := caught E this t2 r2 e s2 in
     RootFiber_complete E fuel this s = Some (Normal tt s3) ∧
     (∃ sr evs, trace sr = trace s ++ evs ∧ Forall (can_return E) evs ∧
                raise E (node t) e sr s2 ∧ current s2 = current sr) ∧
     (∃ evs, trace s2 = trace s ++ evs ∧ no_handleError evs) ∧
     trace s3 = trace s2 ++ [EvHandleError f e] ∧
     active_fiber this e s2 f ∧
     world s3 = handleError E f e (unlock this t2 r2 (world s2)) ∧
     locked_of (unlock this t2 r2 (world s2)) this = Some false ∧
     ((∀ w, locked_of (handleError E f e w) this = locked_of w this) →
      locked_of (world s3) this = Some false)).
Proof.
  split.
  - intros res. unfold RootFiber_complete.
    intros (t & w0 & [Ht ->]%getFiber_Some_inv & H)%cbind_lift_Some_inv.
    rewrite set_world_id in H.
    apply cbind_lift_Some_inv in H as ([] & w1 & _ & H).
    unfold cbind at 1 in H. unfold assign_current, try_catch in H.
    set (s1 := set_current None (set_world w1 s)) in *.
    pose proof (triple_RootFiber_try_raise E (node t) (trace s) fuel this s1)
      as Htry.
    destruct (RootFiber_try E fuel this (node t) s1) as [[[] s2|e s2]|];
      [| |done].
    + injection H as <-. destruct Htry as (evs & Htr & Hevs).
      { split; [|done]. exists []. split; [by rewrite app_nil_r|constructor]. }
      exists s2, t, evs. split; [done|]. split; [done|]. split; [done|].
      by left.
    + destruct Htry as (sr & (evs & Htr & Hevs) & Hraise).
      { split; [|done]. exists []. split; [by rewrite app_nil_r|constructor]. }
      unfold RootFiber_catch in H.
      apply cbind_lift_Some_inv in H
        as ([] & w3 & (t2 & r2 & Ht2 & Hr2 & ->)%modRoot_Some_inv & H).
      unfold cbind, read_current in H. injection H as <-.
      eexists _, t, evs. split; [done|]. split; [done|]. split; [done|].
      right. by exists e, sr, s2, t2, r2.
  - intros t r e s2 t2 r2 Ht Hr Hthrow Ht2 Hr2 f s3.
    assert (locked_of (unlock this t2 r2 (world s2)) this = Some false)
      as Hunlocked.
    { unfold locked_of, unlock. simpl. by rewrite lookup_insert_eq. }
    pose proof (triple_RootFiber_try_raise E (node t) (trace s) fuel this
                  (locked_frame this t r s)) as Htriple.
    rewrite Hthrow in Htriple.
    destruct Htriple as (sr & (evs & Htr & Hevs) & Hraise).
    { split; [|done]. exists []. split; [by rewrite app_nil_r|constructor]. }
    split; [|split; [|split; [|split; [done|split; [|split; [done|split;
      [done|]]]]]]].
    + unfold RootFiber_complete.
      unfold cbind at 1. rewrite (lift_getFiber _ _ _ Ht).
      unfold cbind at 1. rewrite (lift_modRoot _ _ _ _ _ Ht Hr).
      unfold cbind at 1. unfold assign_current.
      unfold try_catch.
      change (set_current None _) with (locked_frame this t r s).
      rewrite Hthrow. unfold RootFiber_catch.
      unfold cbind at 1. rewrite (lift_modRoot _ _ _ _ _ Ht2 Hr2).
      unfold cbind, read_current. done.
    + exists sr, evs. split; [done|]. split; [done|]. split; [done|].
      by eapply raise_current.
    + destruct (raise_trace _ _ _ _ _ Hraise) as (tl & Htl & Hno).
      exists (evs ++ tl). split; [by rewrite Htl, Htr, app_assoc|].
      apply Forall_app. split; [|done]. by eapply can_return_no_handleError.
    + by eapply raise_active_fiber.
    + intros Hkeep. subst s3. unfold caught. simpl. by rewrite Hkeep.
Qed.

Lemma RootFiber_complete_catches_witness :
  ∃ s3,
    RootFiber_complete sample_collaborators 5 1 (start (commit_batch [99]))
    = Some (Normal tt s3) ∧
    trace s3 = [EvCall onWillPatch 1 110; EvCall onWillPatch 2 99;
                EvHandleError 2 (Thrown 99)] ∧
    locked_of (world s3) 1 = Some false.
Proof.
  destruct (RootFiber_complete_catches sample_collaborators 5 1
              (start (commit_batch [99]))) as [_ Hcatch].
  destruct (Hcatch (commit_root false)
              (mkRootPart 0 [1; 2; 3] [1; 2; 3] [2; 3] false None)
              (Thrown 99) commit_thrown (commit_root true)
              (mkRootPart 0 [1; 2; 3] [1; 2; 3] [2; 3] true None))
    as (Hrun & _ & _ & Htrace & _ & _ & _ & Hlocked);
    try (vm_compute; reflexivity).
  eexists. split; [exact Hrun|]. split; [exact Htrace|].
  apply Hlocked. intros w. reflexivity.
Defined.

(** ** Loops that run to their end *)

Lemma for_of_run {A} (I : Frame → Prop) (arr : World → option (list A))
    (body : A → Cmd unit) (ev : A → list Event) (l : list A) :
  (∀ s, I s → arr (world s) = Some l) →
  (∀ x s, I s → x ∈ l →
          ∃ s', body x s = Some (Normal tt s') ∧ I s' ∧
                trace s' = trace s ++ ev x) →
  ∀ fuel i s,
    I s → length l - i < fuel →
    ∃ s', for_of fuel arr i body s = Some (Normal tt s') ∧ I s' ∧
          trace s' = trace s ++ flat_map ev (drop i l).
Proof.
  intros Harr Hbody. induction fuel as [|n IH]; intros i s Hs Hfuel; [lia|].
  simpl. rewrite (Harr s Hs).
  destruct (l !! i) as [x|] eqn:Hx.
  - destruct (Hbody x s Hs) as (s1 & Hrun & Hs1 & Htr1).
    { by eapply list_elem_of_lookup_2. }
    unfold cbind. rewrite Hrun.
    apply lookup_lt_Some in Hx as Hlt.
    destruct (IH (S i) s1 Hs1) as (s2 & Hrun2 & Hs2 & Htr2); [lia|].
    exists s2. split; [done|]. split; [done|].
    rewrite Htr2, Htr1, (drop_S _ _ _ Hx). simpl. by rewrite app_assoc.
  - exists s. split; [done|]. split; [done|].
    apply lookup_ge_None in Hx. rewrite drop_ge by done. simpl.
    by rewrite app_nil_r.
Qed.

Lemma last_snoc_removelast {A} (q : list A) :
  q = [] ∨ ∃ q' x, q = q' ++ [x] ∧ last q = Some x ∧ removelast q = q'.
Proof.
  destruct q as [|y q] using rev_ind; [by left|]. right. exists q, y.
  split; [done|]. split; [apply last_snoc|apply removelast_last].
Qed.

(** A drain whose body leaves the queue alone: [I q] holds when the queue
    is [q]; the queued fibers are taken from the end. *)
Lemma while_pop_run (I : list loc → Frame → Prop) (P : loc → Prop) this get set
    (body : loc → Cmd unit) (ev : loc → list Event) :
  (∀ q s, I q s →
          ∃ t r, fibers (world s) !! this = Some t ∧ rootPart t = Some r ∧
                 get r = q) →
  (∀ q x s t r,
     I (q ++ [x]) s → fibers (world s) !! this = Some t → rootPart t = Some r →
     I q (set_current (Some x)
            (set_world
               (set_fibers (<[this := set_rootPart (Some (set q r)) t]>
                              (fibers (world s))) (world s)) s))) →
  (∀ s, I [] s → I [] (set_current None s)) →
  (∀ q x s, I q s → P x →
            ∃ s', body x s = Some (Normal tt s') ∧ I q s' ∧
                  trace s' = trace s ++ ev x) →
  ∀ fuel q s,
    I q s → Forall P q → length q < fuel →
    ∃ s', while_pop fuel this get set body s = Some (Normal tt s') ∧
          I [] s' ∧ current s' = None ∧
          trace s' = trace s ++ flat_map ev (rev q).
Proof.
  intros Hget Hpop Hend Hbody.
  induction fuel as [|n IH]; intros q s Hs HP Hfuel; [lia|].
  simpl. destruct (Hget q s Hs) as (t & r & Ht & Hr & Hq).
  unfold cbind at 1. rewrite (lift_getRoot _ _ _ _ Ht Hr), Hq.
  destruct (last_snoc_removelast q) as [->|(q' & x & -> & Hlast & Hrm)].
  - simpl. eexists. split; [done|]. split; [by apply Hend|].
    split; [done|]. simpl. by rewrite app_nil_r.
  - rewrite Hlast. apply Forall_app in HP as [HP' HPx%Forall_inv].
    unfold cbind at 1. rewrite (lift_modRoot _ _ _ _ _ Ht Hr), Hq, Hrm.
    unfold cbind at 1. unfold assign_current.
    pose proof (Hpop q' x s t r Hs Ht Hr) as Hs1.
    destruct (Hbody q' x _ Hs1 HPx) as (s2 & Hrun2 & Hs2 & Htr2).
    unfold cbind at 1. rewrite Hrun2.
    destruct (IH q' s2 Hs2 HP') as (s3 & Hrun3 & Hs3 & Hc3 & Htr3).
    { rewrite length_app in Hfuel. simpl in Hfuel. lia. }
    exists s3. split; [done|]. split; [done|]. split; [done|].
    rewrite Htr3, Htr2, rev_app_distr. simpl. by rewrite app_assoc.
Qed.

(** ** The order of the hooks *)

Section Order.
Context (E : Collaborators) (Hcall : hooks_return E).

Lemma flat_map_singleton {A B} (g : A → B) (l : list A) :
  flat_map (λ x, [g x]) l = g <$> l.
Proof. induction l as [|x l IH]; [done|]. simpl. by rewrite IH. Qed.

Lemma callHooks_run fuel h f nd rc s c :
  nodes (world s) !! nd = Some c → length (hooks_of h c) < fuel →
  ∃ s', callHooks E fuel h f nd rc s = Some (Normal tt s') ∧
        fibers (world s') = fibers (world s) ∧
        nodes (world s') = nodes (world s) ∧ current s' = current s ∧
        trace s' = trace s ++ (EvCall h f <$> hooks_of h c).
Proof.
  intros Hc Hfuel. unfold callHooks.
  destruct (for_of_run
              (λ s', fibers (world s') = fibers (world s) ∧
                     nodes (world s') = nodes (world s) ∧
                     current s' = current s)
              (λ w, hooks_of h <$> nodes w !! nd)
              (λ cb, external (EvCall h f cb) (call E cb rc))
              (λ cb, [EvCall h f cb]) (hooks_of h c)) with
    (fuel := fuel) (i := 0) (s := s) as (s' & Hrun & (HF & HN & HC) & Htr).
  - intros s' (_ & HN & _). by rewrite HN, Hc.
  - intros cb s' (HF & HN & HC) _. unfold external.
    destruct (Hcall cb rc (world s')) as (w' & -> & HF' & HN').
    eexists. split; [done|]. simpl. by rewrite HF', HN'.
  - done.
  - lia.
  - exists s'. rewrite drop_0, flat_map_singleton in Htr. done.
Qed.

Lemma willPatch_step_run fuel cur s fc c :
  fibers (world s) !! cur = Some fc → nodes (world s) !! node fc = Some c →
  length (ComponentNode.willPatch c) < fuel →
  ∃ s', willPatch_step E fuel cur s = Some (Normal tt s') ∧
        fibers (world s') = fibers (world s) ∧
        nodes (world s') = nodes (world s) ∧
        trace s' = trace s ++ (if is_current (world s) cur
                               then hook_calls (world s) onWillPatch cur
                               else []).
Proof.
  intros Hfc Hc Hfuel. unfold willPatch_step.
  unfold cbind at 1. unfold assign_current.
  unfold cbind at 1. rewrite (lift_getFiber _ _ fc) by done.
  unfold cbind at 1. rewrite (lift_getNode _ _ c) by done.
  unfold is_current, hook_calls, node_of. rewrite Hfc. simpl. rewrite Hc. simpl.
  case_bool_decide.
  - destruct (callHooks_run fuel onWillPatch cur (node fc)
                (Some (ComponentNode.component c))
                (set_current (Some cur) s) c)
      as (s' & Hrun & HF & HN & _ & Htr); [done..|].
    by exists s'.
  - eexists. split; [done|]. simpl. by rewrite app_nil_r.
Qed.

Lemma hooks_size_bound w f c h :
  node_of w f = Some c → length (hooks_of h c) ≤ hooks_size w f.
Proof. intros Hc. unfold hooks_size. rewrite Hc. destruct h; simpl; lia. Qed.

Lemma commit_fuel_bound w q f :
  f ∈ q → length q < commit_fuel w q ∧ hooks_size w f < commit_fuel w q.
Proof.
  unfold commit_fuel. intros Hf. split; [lia|].
  assert (hooks_size w f ≤ foldr (λ f acc, hooks_size w f + acc) 0 q); [|lia].
  induction q as [|x q IH]; [by apply elem_of_nil in Hf|].
  simpl. apply elem_of_cons in Hf as [->|Hf]; [lia|]. specialize (IH Hf). lia.
Qed.

(** Step 1 calls the [willPatch] hooks of the queued fibers that are
    their node's fiber, in the order of the queue. *)
Lemma callWillPatch_run fuel this s t r :
  fibers (world s) !! this = Some t → rootPart t = Some r →
  queued_ok (world s) (willPatch r) →
  length (willPatch r) < fuel →
  (∀ f, f ∈ willPatch r → hooks_size (world s) f < fuel) →
  ∃ s', callWillPatch E fuel this s = Some (Normal tt s') ∧
        fibers (world s') = fibers (world s) ∧
        nodes (world s') = nodes (world s) ∧ current s' = None ∧
        trace s' = trace s ++ willPatch_calls (world s) (willPatch r).
Proof.
  intros Ht Hr Hq Hfuel Hhooks. unfold callWillPatch.
  destruct (for_of_run
              (λ s', fibers (world s') = fibers (world s) ∧
                     nodes (world s') = nodes (world s))
              (λ w, willPatch <$> (fibers w !! this ≫= rootPart))
              (willPatch_step E fuel)
              (λ f, if is_current (world s) f
                    then hook_calls (world s) onWillPatch f else [])
              (willPatch r)) with
    (fuel := fuel) (i := 0) (s := s) as (s' & Hrun & (HF & HN) & Htr).
  - intros s' (HF & _). rewrite HF, Ht. simpl. by rewrite Hr.
  - intros f s' (HF & HN) Hf.
    unfold queued_ok in Hq. rewrite Forall_forall in Hq.
    destruct (Hq f Hf) as [c Hc]. unfold node_of in Hc.
    destruct (fibers (world s) !! f) as [fc|] eqn:Hfc; [|done]. simpl in Hc.
    destruct (willPatch_step_run fuel f s' fc c)
      as (s'' & Hrun & HF' & HN' & Htr).
    + by rewrite HF.
    + by rewrite HN.
    + eapply Nat.le_lt_trans; [|exact (Hhooks f Hf)].
      apply (hooks_size_bound _ _ _ onWillPatch). unfold node_of.
      by rewrite Hfc.
    + exists s''. split; [done|]. split; [by rewrite HF', HN'|].
      rewrite Htr. unfold is_current, hook_calls, node_of.
      by rewrite HF, HN.
  - done.
  - lia.
  - unfold cbind. rewrite Hrun. eexists. split; [done|]. by rewrite drop_0 in Htr.
Qed.

Lemma set_rootPart_set_rootPart v v' f :
  set_rootPart v (set_rootPart v' f) = set_rootPart v f.
Proof. done. Qed.

(** Steps 4 and 5 call the hooks of the queued fibers whose output has
    been applied, from the end of the queue to its start, and leave the
    queue empty.  [W] has the fibers and nodes at the start of the step,
    up to the queue [q]. *)
Lemma drain_run fuel h this get set W t0 r0 s q :
  (∀ v r, get (set v r) = v) → (∀ v v' r, set v (set v' r) = set v r) →
  fibers W !! this = Some t0 → rootPart t0 = Some r0 →
  fibers (world s) = <[this := set_rootPart (Some (set q r0)) t0]> (fibers W) →
  nodes (world s) = nodes W →
  queued_ok W q → length q < fuel →
  (∀ f, f ∈ q → hooks_size W f < fuel) →
  ∃ s', while_pop fuel this get set (drain_step E fuel h) s = Some (Normal tt s') ∧
        fibers (world s')
        = <[this := set_rootPart (Some (set [] r0)) t0]> (fibers W) ∧
        nodes (world s') = nodes W ∧ current s' = None ∧
        trace s' = trace s ++ drain_calls W h q.
Proof.
  intros Hgs Hss Ht0 Hr0 HF HN Hq Hfuel Hhooks.
  destruct (while_pop_run
              (λ q s, fibers (world s)
                      = <[this := set_rootPart (Some (set q r0)) t0]> (fibers W) ∧
                      nodes (world s) = nodes W)
              (λ f, is_Some (node_of W f) ∧ hooks_size W f < fuel)
              this get set (drain_step E fuel h)
              (λ f, if is_applied W f then hook_calls W h f else [])) with
    (fuel := fuel) (q := q) (s := s) as (s' & Hrun & (HF' & HN') & Hc & Htr).
  - intros q' s' (HF' & _). eexists _, _. rewrite HF', lookup_insert_eq.
    split; [done|]. split; [done|]. apply Hgs.
  - intros q' x s' t r (HF' & HN') Ht Hr. simpl.
    rewrite HF', lookup_insert_eq in Ht. injection Ht as <-.
    simpl in Hr. injection Hr as <-.
    by rewrite HF', insert_insert_eq, set_rootPart_set_rootPart, Hss.
  - by intros s' (HF' & HN').
  - intros q' x s' (HF' & HN') ([c Hc] & Hsize).
    unfold node_of in Hc.
    destruct (fibers W !! x) as [o|] eqn:Ho; [|done]. simpl in Hc.
    assert (∃ fx, fibers (world s') !! x = Some fx ∧ node fx = node o ∧
                  appliedToDom fx = appliedToDom o) as (fx & Hfx & Hnode & Happ).
    { rewrite HF'. destruct (decide (x = this)) as [->|Hne].
      - rewrite lookup_insert_eq. eexists. split; [done|].
        rewrite Ht0 in Ho. by injection Ho as <-.
      - rewrite lookup_insert_ne by done. by exists o. }
    unfold drain_step. unfold cbind at 1. rewrite (lift_getFiber _ _ _ Hfx).
    unfold is_applied, hook_calls, node_of. rewrite Ho. simpl.
    rewrite Hc, Happ. destruct (appliedToDom o).
    + rewrite bool_decide_eq_true_2 by done.
      destruct (callHooks_run fuel h x (node fx) None s' c)
        as (s'' & Hrun & HF'' & HN'' & _ & Htr).
      * by rewrite HN', Hnode.
      * eapply Nat.le_lt_trans; [|exact Hsize].
        apply hooks_size_bound. unfold node_of. by rewrite Ho.
      * exists s''. split; [done|]. by rewrite HF'', HN''.
    + rewrite bool_decide_eq_false_2 by done.
      eexists. split; [done|]. split; [done|]. by rewrite app_nil_r.
  - done.
  - apply Forall_forall. intros f Hf. split; [|by apply Hhooks].
    unfold queued_ok in Hq. rewrite Forall_forall in Hq. by apply Hq.
  - done.
  - by exists s'.
Qed.

Lemma node_of_insert W W' this o o' :
  fibers W !! this = Some o → fibers W' = <[this := o']> (fibers W) →
  nodes W' = nodes W → node o' = node o →
  ∀ f, node_of W' f = node_of W f.
Proof.
  intros Ho HF HN Hnode f. unfold node_of. rewrite HF, HN.
  destruct (decide (f = this)) as [->|Hne].
  - rewrite lookup_insert_eq, Ho. simpl. by rewrite Hnode.
  - by rewrite lookup_insert_ne.
Qed.


Lemma willPatch_calls_ext W W' q :
  (∀ f, node_of W' f = node_of W f) →
  willPatch_calls W' q = willPatch_calls W q.
Proof.
  intros Hn. unfold willPatch_calls. induction q as [|f q IH]; [done|].
  simpl. rewrite IH. unfold is_current, hook_calls. by rewrite Hn.
Qed.


(** After step 2 every fiber has the node it had, and the node its hooks. *)
Lemma node_of_applied_world this t r n w f :
  fibers w !! this = Some t → nodes w !! node t = Some n →
  ∃ g, (∀ c h, hooks_of h (g c) = hooks_of h c) ∧
       node_of (applied_world this t r n w) f = g <$> node_of w f.
Proof.
  intros Ht Hn. unfold node_of, applied_world. simpl.
  assert (∃ o', <[this := mkFiber (node t) (bdom t) (root t) (parent t)
                            (children t) true (Some (set_locked false r))]>
                  (fibers w) !! f = o' ∧
                node <$> o' = node <$> fibers w !! f) as (o' & -> & Ho').
  { eexists. split; [done|]. destruct (decide (f = this)) as [->|Hne].
    - by rewrite lookup_insert_eq, Ht.
    - by rewrite lookup_insert_ne. }
  destruct o' as [o'|], (fibers w !! f) as [o|]; simpl in *; try done;
    [|by exists id].
  injection Ho' as ->.
  destruct (decide (node o = node t)) as [->|Hne].
  - rewrite lookup_insert_eq, Hn. simpl. exists (set_node_fiber None).
    split; [|done]. by intros c [].
  - rewrite lookup_insert_ne by done. exists id. split; [done|].
    by destruct (nodes w !! node o).
Qed.

Lemma hooks_size_applied_world this t r n w f :
  fibers w !! this = Some t → nodes w !! node t = Some n →
  hooks_size (applied_world this t r n w) f = hooks_size w f.
Proof.
  intros Ht Hn. destruct (node_of_applied_world this t r n w f Ht Hn)
    as (g & Hg & Heq).
  unfold hooks_size. rewrite Heq. destruct (node_of w f) as [c|]; [|done].
  simpl. pose proof (Hg c onWillPatch). pose proof (Hg c onMounted).
  pose proof (Hg c onPatched). simpl in *. congruence.
Qed.

Lemma queued_ok_applied_world this t r n w q :
  fibers w !! this = Some t → nodes w !! node t = Some n →
  queued_ok w q → queued_ok (applied_world this t r n w) q.
Proof.
  intros Ht Hn Hq. unfold queued_ok. eapply Forall_impl; [exact Hq|].
  intros f [c Hc]. simpl.
  destruct (node_of_applied_world this t r n w f Ht Hn) as (g & _ & ->).
  rewrite Hc. simpl. eauto.
Qed.

Lemma patchDom_run this nd s t1 r1 n old :
  patch_returns E →
  fibers (world s) !! this = Some t1 → rootPart t1 = Some r1 →
  nodes (world s) !! nd = Some n → ComponentNode.bdom n = Some old →
  ∃ s', patchDom E this nd s = Some (Normal tt s') ∧
        fibers (world s')
        = <[this := set_rootPart (Some (set_locked false r1))
                      (set_appliedToDom true t1)]> (fibers (world s)) ∧
        nodes (world s') = <[nd := set_node_fiber None n]> (nodes (world s)) ∧
        current s' = current s ∧
        trace s' = trace s ++ [EvPatch old (bdom t1)
                                 (bool_decide (0 < size (ComponentNode.children n)))].
Proof.
  intros Hpatch Ht1 Hr1 Hn Hold. unfold patchDom.
  unfold cbind at 1. rewrite (lift_getNode _ _ _ Hn).
  unfold cbind at 1. rewrite (lift_getFiber _ _ _ Ht1).
  rewrite Hold. unfold cbind at 1. unfold external.
  destruct (Hpatch old (bdom t1)
              (bool_decide (0 < size (ComponentNode.children n))) (world s))
    as (w' & -> & HF & HN).
  unfold cbind at 1. erewrite lift_modFiber by (simpl; rewrite HF; exact Ht1).
  unfold cbind at 1. erewrite lift_modRoot;
    [|simpl; apply lookup_insert_eq|simpl; exact Hr1].
  erewrite lift_modNode by (simpl; rewrite HN; exact Hn).
  eexists. split; [done|]. simpl. rewrite HF, HN, insert_insert_eq. done.
Qed.



End Order.

(** ** The order of the hooks when the stores change

    The same loops for collaborators that change the stores but keep the
    schedule. *)

Lemma segments_app {A} (R : A → list Event → Prop) l1 l2 tr1 tr2 :
  segments R l1 tr1 → segments R l2 tr2 → segments R (l1 ++ l2) (tr1 ++ tr2).
Proof.
  induction 1 as [|x l seg tr Hx Hl IH]; intros H2; [done|].
  simpl. rewrite <- app_assoc. constructor; [done|]. by apply IH.
Qed.

Lemma segments_singleton {A} (R : A → list Event → Prop) x seg :
  R x seg → segments R [x] seg.
Proof.
  intros Hx. rewrite <- (app_nil_r seg). constructor; [done|constructor].
Qed.

Lemma for_of_run_rel {A} (I : Frame → Prop) (arr : World → option (list A))
    (body : A → Cmd unit) (R : A → list Event → Prop) (l : list A) :
  (∀ s, I s → arr (world s) = Some l) →
  (∀ x s, I s → x ∈ l →
          ∃ s' seg, body x s = Some (Normal tt s') ∧ I s' ∧
                    trace s' = trace s ++ seg ∧ R x seg) →
  ∀ fuel i s,
    I s → length l - i < fuel →
    ∃ s' tr, for_of fuel arr i body s = Some (Normal tt s') ∧ I s' ∧
             trace s' = trace s ++ tr ∧ segments R (drop i l) tr.
Proof.
  intros Harr Hbody. induction fuel as [|n IH]; intros i s Hs Hfuel; [lia|].
  simpl. rewrite (Harr s Hs).
  destruct (l !! i) as [x|] eqn:Hx.
  - destruct (Hbody x s Hs) as (s1 & seg & Hrun & Hs1 & Htr1 & Hseg).
    { by eapply list_elem_of_lookup_2. }
    unfold cbind. rewrite Hrun.
    apply lookup_lt_Some in Hx as Hlt.
    destruct (IH (S i) s1 Hs1) as (s2 & tr & Hrun2 & Hs2 & Htr2 & Hsegs); [lia|].
    exists s2, (seg ++ tr). split; [done|]. split; [done|]. split.
    + by rewrite Htr2, Htr1, app_assoc.
    + rewrite (drop_S _ _ _ Hx). by constructor.
  - exists s, []. split; [done|]. split; [done|]. split; [by rewrite app_nil_r|].
    apply lookup_ge_None in Hx. rewrite drop_ge by done. constructor.
Qed.

Lemma while_pop_run_rel (I : list loc → Frame → Prop) (P : loc → Prop)
    this get set (body : loc → Cmd unit) (R : loc → list Event → Prop) :
  (∀ q s, I q s →
          ∃ t r, fibers (world s) !! this = Some t ∧ rootPart t = Some r ∧
                 get r = q) →
  (∀ q x s t r,
     I (q ++ [x]) s → fibers (world s) !! this = Some t → rootPart t = Some r →
     I q (set_current (Some x)
            (set_world
               (set_fibers (<[this := set_rootPart (Some (set q r)) t]>
                              (fibers (world s))) (world s)) s))) →
  (∀ s, I [] s → I [] (set_current None s)) →
  (∀ q x s, I q s → P x →
            ∃ s' seg, body x s = Some (Normal tt s') ∧ I q s' ∧
                      trace s' = trace s ++ seg ∧ R x seg) →
  ∀ fuel q s,
    I q s → Forall P q → length q < fuel →
    ∃ s' tr, while_pop fuel this get set body s = Some (Normal tt s') ∧
             I [] s' ∧ current s' = None ∧
             trace s' = trace s ++ tr ∧ segments R (rev q) tr.
Proof.
  intros Hget Hpop Hend Hbody.
  induction fuel as [|n IH]; intros q s Hs HP Hfuel; [lia|].
  simpl. destruct (Hget q s Hs) as (t & r & Ht & Hr & Hq).
  unfold cbind at 1. rewrite (lift_getRoot _ _ _ _ Ht Hr), Hq.
  destruct (last_snoc_removelast q) as [->|(q' & x & -> & Hlast & Hrm)].
  - simpl. eexists _, []. split; [done|]. split; [by apply Hend|].
    split; [done|]. split; [by rewrite app_nil_r|constructor].
  - rewrite Hlast. apply Forall_app in HP as [HP' HPx%Forall_inv].
    unfold cbind at 1. rewrite (lift_modRoot _ _ _ _ _ Ht Hr), Hq, Hrm.
    unfold cbind at 1. unfold assign_current.
    pose proof (Hpop q' x s t r Hs Ht Hr) as Hs1.
    destruct (Hbody q' x _ Hs1 HPx) as (s2 & seg & Hrun2 & Hs2 & Htr2 & Hseg).
    unfold cbind at 1. rewrite Hrun2.
    destruct (IH q' s2 Hs2 HP') as (s3 & tr & Hrun3 & Hs3 & Hc3 & Htr3 & Hsegs).
    { rewrite length_app in Hfuel. simpl in Hfuel. lia. }
    exists s3, (seg ++ tr). split; [done|]. split; [done|]. split; [done|].
    split.
    + by rewrite Htr3, Htr2, app_assoc.
    + rewrite rev_app_distr. simpl. by constructor.
Qed.

(** facts about the schedule *)

Lemma keeps_schedule_scheduled this W Q w w' :
  scheduled this W Q w → keeps_schedule this w w' → scheduled this W Q w'.
Proof.
  intros (HF & HN & HQ) (HF' & HN' & HQ' & _). split; [|split].
  - intros l. by rewrite HF'.
  - intros n h. by rewrite HN'.
  - by rewrite HQ'.
Qed.

Lemma scheduled_fiber this W Q w l o :
  scheduled this W Q w → fibers W !! l = Some o →
  ∃ o', fibers w !! l = Some o' ∧ node o' = node o.
Proof.
  intros (HF & _) Ho. specialize (HF l). rewrite Ho in HF.
  destruct (fibers w !! l) as [o'|]; [|done]. exists o'. split; [done|].
  simpl in HF. by injection HF.
Qed.

Lemma scheduled_node this W Q w n c h :
  scheduled this W Q w → nodes W !! n = Some c →
  ∃ c', nodes w !! n = Some c' ∧ hooks_of h c' = hooks_of h c.
Proof.
  intros (_ & HN & _) Hc. specialize (HN n h). rewrite Hc in HN.
  destruct (nodes w !! n) as [c'|]; [|done]. exists c'. split; [done|].
  simpl in HN. by injection HN.
Qed.

Lemma scheduled_root this W Q w :
  scheduled this W Q w →
  ∃ t r, fibers w !! this = Some t ∧ rootPart t = Some r ∧
         (willPatch r, mounted r, patched r) = Q.
Proof.
  intros (_ & _ & HQ). unfold queues_of in HQ.
  destruct (fibers w !! this) as [t|]; [|done]. simpl in HQ.
  destruct (rootPart t) as [r|] eqn:Hr; [|done]. simpl in HQ.
  exists t, r. split; [done|]. split; [done|]. by injection HQ.
Qed.

Section Schedule.
Context (E : Collaborators) (this : loc) (W : World).
Context (Hcall : hooks_keep_schedule E this).

(** [P] is what else must stay true of the stores. *)
Lemma callHooks_run_scheduled (P : World → Prop) Q fuel h f nd rc s c :
  (∀ w w', keeps_schedule this w w' → P w → P w') →
  scheduled this W Q (world s) → P (world s) →
  nodes W !! nd = Some c → length (hooks_of h c) < fuel →
  ∃ s', callHooks E fuel h f nd rc s = Some (Normal tt s') ∧
        scheduled this W Q (world s') ∧ P (world s') ∧
        current s' = current s ∧
        trace s' = trace s ++ (EvCall h f <$> hooks_of h c).
Proof.
  intros HP Hs HPs Hc Hfuel. unfold callHooks.
  destruct (for_of_run
              (λ s', scheduled this W Q (world s') ∧ P (world s') ∧
                     current s' = current s)
              (λ w, hooks_of h <$> nodes w !! nd)
              (λ cb, external (EvCall h f cb) (call E cb rc))
              (λ cb, [EvCall h f cb]) (hooks_of h c)) with
    (fuel := fuel) (i := 0) (s := s) as (s' & Hrun & (Hs' & HPs' & HC) & Htr).
  - intros s' (Hs' & _).
    destruct (scheduled_node _ _ _ _ _ _ h Hs' Hc) as (c' & -> & Hh).
    simpl. by rewrite Hh.
  - intros cb s' (Hs' & HPs' & HC) _. unfold external.
    destruct (Hcall cb rc (world s')) as (w' & -> & Hkeep).
    eexists. split; [done|]. simpl. split; [|done].
    split; [by eapply keeps_schedule_scheduled|].
    split; [by eapply HP|done].
  - done.
  - lia.
  - exists s'. rewrite drop_0, flat_map_singleton in Htr. done.
Qed.

Lemma hook_calls_Some w h f o c :
  fibers w !! f = Some o → nodes w !! node o = Some c →
  hook_calls w h f = EvCall h f <$> hooks_of h c.
Proof. intros Ho Hc. unfold hook_calls, node_of. by rewrite Ho; simpl; rewrite Hc. Qed.

Lemma willPatch_step_run_scheduled (P : World → Prop) Q fuel cur s :
  (∀ w w', keeps_schedule this w w' → P w → P w') →
  scheduled this W Q (world s) → P (world s) →
  is_Some (node_of W cur) → hooks_size W cur < fuel →
  ∃ s' seg, willPatch_step E fuel cur s = Some (Normal tt s') ∧
            scheduled this W Q (world s') ∧ P (world s') ∧
            trace s' = trace s ++ seg ∧
            (seg = [] ∨ seg = hook_calls W onWillPatch cur).
Proof.
  intros HP Hs HPs [c Hc] Hfuel. unfold node_of in Hc.
  destruct (fibers W !! cur) as [o|] eqn:Ho; [|done]. simpl in Hc.
  destruct (scheduled_fiber _ _ _ _ _ _ Hs Ho) as (fc & Hfc & Hnode).
  destruct (scheduled_node _ _ _ _ _ _ onWillPatch Hs Hc) as (c' & Hc' & Hh).
  unfold willPatch_step.
  unfold cbind at 1. unfold assign_current.
  unfold cbind at 1. rewrite (lift_getFiber _ _ fc) by done.
  unfold cbind at 1. rewrite Hnode. rewrite (lift_getNode _ _ c') by done.
  case_bool_decide.
  - destruct (callHooks_run_scheduled P Q fuel onWillPatch cur (node o)
                (Some (ComponentNode.component c'))
                (set_current (Some cur) s) c)
      as (s' & Hrun & Hs' & HPs' & _ & Htr); try done.
    { eapply Nat.le_lt_trans; [|exact Hfuel].
      apply (hooks_size_bound _ _ _ onWillPatch). unfold node_of.
      by rewrite Ho. }
    exists s', (EvCall onWillPatch cur <$> hooks_of onWillPatch c).
    split; [done|]. split; [done|]. split; [done|]. split; [done|].
    right. symmetry. by eapply hook_calls_Some.
  - eexists _, []. split; [done|]. split; [done|]. split; [done|].
    split; [by rewrite app_nil_r|by left].
Qed.

Lemma callWillPatch_run_scheduled (P : World → Prop) qw qm qp fuel s :
  (∀ w w', keeps_schedule this w w' → P w → P w') →
  scheduled this W (qw, qm, qp) (world s) → P (world s) →
  queued_ok W qw → length qw < fuel →
  (∀ f, f ∈ qw → hooks_size W f < fuel) →
  ∃ s' tr, callWillPatch E fuel this s = Some (Normal tt s') ∧
           scheduled this W (qw, qm, qp) (world s') ∧ P (world s') ∧
           current s' = None ∧
           trace s' = trace s ++ tr ∧ serves W onWillPatch qw tr.
Proof.
  intros HP Hs HPs Hq Hfuel Hhooks. unfold callWillPatch.
  destruct (for_of_run_rel
              (λ s', scheduled this W (qw, qm, qp) (world s') ∧ P (world s'))
              (λ w, willPatch <$> (fibers w !! this ≫= rootPart))
              (willPatch_step E fuel)
              (λ f seg, seg = [] ∨ seg = hook_calls W onWillPatch f) qw) with
    (fuel := fuel) (i := 0) (s := s)
    as (s' & tr & Hrun & (Hs' & HPs') & Htr & Hsegs).
  - intros s' (Hs' & _).
    destruct (scheduled_root _ _ _ _ Hs') as (t & r & -> & Hr & HQ).
    simpl. rewrite Hr. simpl. by injection HQ as -> _ _.
  - intros f s' (Hs' & HPs') Hf.
    unfold queued_ok in Hq. rewrite Forall_forall in Hq.
    destruct (willPatch_step_run_scheduled P (qw, qm, qp) fuel f s')
      as (s'' & seg & Hrun & Hs'' & HPs'' & Htr & Hseg); auto.
    by exists s'', seg.
  - done.
  - lia.
  - unfold cbind. rewrite Hrun. eexists _, tr. split; [done|].
    rewrite drop_0 in Hsegs. done.
Qed.

Lemma drain_step_run_scheduled Q fuel h x s :
  scheduled this W Q (world s) →
  is_Some (node_of W x) → hooks_size W x < fuel →
  ∃ s' seg, drain_step E fuel h x s = Some (Normal tt s') ∧
            scheduled this W Q (world s') ∧
            trace s' = trace s ++ seg ∧
            (seg = [] ∨ seg = hook_calls W h x).
Proof.
  intros Hs [c Hc] Hfuel. unfold node_of in Hc.
  destruct (fibers W !! x) as [o|] eqn:Ho; [|done]. simpl in Hc.
  destruct (scheduled_fiber _ _ _ _ _ _ Hs Ho) as (fx & Hfx & Hnode).
  unfold drain_step. unfold cbind at 1. rewrite (lift_getFiber _ _ _ Hfx).
  destruct (appliedToDom fx).
  - destruct (callHooks_run_scheduled (λ _, True) Q fuel h x (node fx) None s c)
      as (s' & Hrun & Hs' & _ & _ & Htr); try done.
    { by rewrite Hnode. }
    { eapply Nat.le_lt_trans; [|exact Hfuel].
      apply hooks_size_bound. unfold node_of. by rewrite Ho. }
    exists s', (EvCall h x <$> hooks_of h c).
    split; [done|]. split; [done|]. split; [done|].
    right. symmetry. by eapply hook_calls_Some.
  - eexists _, []. split; [done|]. split; [done|].
    split; [by rewrite app_nil_r|by left].
Qed.

Lemma queues_of_insert w t r' :
  fibers w !! this = Some t →
  queues_of (set_fibers (<[this := set_rootPart (Some r') t]> (fibers w)) w) this
  = Some (willPatch r', mounted r', patched r').
Proof. intros Ht. unfold queues_of. simpl. by rewrite lookup_insert_eq. Qed.

Lemma scheduled_set_root Q w t r' :
  scheduled this W Q w → fibers w !! this = Some t →
  scheduled this W (willPatch r', mounted r', patched r')
    (set_fibers (<[this := set_rootPart (Some r') t]> (fibers w)) w).
Proof.
  intros (HF & HN & HQ) Ht. split; [|split].
  - intros l. simpl. destruct (decide (l = this)) as [->|Hne].
    + rewrite lookup_insert_eq. simpl. rewrite <- HF, Ht. done.
    + by rewrite lookup_insert_ne.
  - done.
  - by apply queues_of_insert.
Qed.

Lemma drain_run_scheduled fuel h get set (Qof : list loc → _) s q :
  (∀ r q, (willPatch r, mounted r, patched r) = Qof q → get r = q) →
  (∀ r q v, (willPatch r, mounted r, patched r) = Qof q →
            (willPatch (set v r), mounted (set v r), patched (set v r)) = Qof v) →
  scheduled this W (Qof q) (world s) →
  queued_ok W q → length q < fuel →
  (∀ f, f ∈ q → hooks_size W f < fuel) →
  ∃ s' tr, while_pop fuel this get set (drain_step E fuel h) s
           = Some (Normal tt s') ∧
           scheduled this W (Qof []) (world s') ∧ current s' = None ∧
           trace s' = trace s ++ tr ∧ serves W h (rev q) tr.
Proof.
  intros Hget Hset Hs Hq Hfuel Hhooks.
  destruct (while_pop_run_rel
              (λ q s, scheduled this W (Qof q) (world s))
              (λ f, is_Some (node_of W f) ∧ hooks_size W f < fuel)
              this get set (drain_step E fuel h)
              (λ f seg, seg = [] ∨ seg = hook_calls W h f)) with
    (fuel := fuel) (q := q) (s := s)
    as (s' & tr & Hrun & Hs' & Hc & Htr & Hsegs).
  - intros q' s' Hs'.
    destruct (scheduled_root _ _ _ _ Hs') as (t & r & Ht & Hr & HQ).
    exists t, r. split; [done|]. split; [done|]. by eapply Hget.
  - intros q' x s' t r Hs' Ht Hr. simpl.
    destruct (scheduled_root _ _ _ _ Hs') as (t' & r' & Ht' & Hr' & HQ).
    rewrite Ht in Ht'. injection Ht' as <-.
    rewrite Hr in Hr'. injection Hr' as <-.
    rewrite <- (Hset r (q' ++ [x]) q' HQ).
    by apply (scheduled_set_root (Qof (q' ++ [x]))).
  - by intros s' Hs'.
  - intros q' x s' Hs' (Hx & Hsize).
    destruct (drain_step_run_scheduled (Qof q') fuel h x s')
      as (s'' & seg & Hrun & Hs'' & Htr & Hseg); try done.
    by exists s'', seg.
  - done.
  - apply Forall_forall. intros f Hf. split; [|by apply Hhooks].
    unfold queued_ok in Hq. rewrite Forall_forall in Hq. by apply Hq.
  - done.
  - by exists s', tr.
Qed.

End Schedule.

Lemma scheduled_refl this W t r :
  fibers W !! this = Some t → rootPart t = Some r →
  scheduled this W (willPatch r, mounted r, patched r) W.
Proof.
  intros Ht Hr. split; [done|]. split; [done|]. unfold queues_of.
  rewrite Ht. simpl. by rewrite Hr.
Qed.

Lemma scheduled_set_fiber this W Q w o o' :
  scheduled this W Q w → fibers w !! this = Some o →
  node o' = node o → rootPart o' = rootPart o →
  scheduled this W Q (set_fibers (<[this := o']> (fibers w)) w).
Proof.
  intros (HF & HN & HQ) Ho Hnode Hroot. split; [|split].
  - intros l. simpl. destruct (decide (l = this)) as [->|Hne].
    + rewrite lookup_insert_eq. simpl. by rewrite <- HF, Ho, Hnode.
    + by rewrite lookup_insert_ne.
  - done.
  - unfold queues_of in *. simpl. rewrite lookup_insert_eq. simpl.
    rewrite Ho in HQ. simpl in HQ. by rewrite Hroot.
Qed.

Lemma scheduled_set_node this W Q w n c c' :
  scheduled this W Q w → nodes w !! n = Some c →
  (∀ h, hooks_of h c' = hooks_of h c) →
  scheduled this W Q (set_nodes (<[n := c']> (nodes w)) w).
Proof.
  intros (HF & HN & HQ) Hc Hh. split; [done|]. split; [|done].
  intros m h. simpl. destruct (decide (m = n)) as [->|Hne].
  - rewrite lookup_insert_eq. simpl. by rewrite <- HN, Hc, Hh.
  - by rewrite lookup_insert_ne.
Qed.

Lemma patchDom_run_scheduled E this W Q s t :
  patch_keeps_schedule E this →
  scheduled this W Q (world s) → has_output (world s) this →
  fibers W !! this = Some t →
  ∃ s' p, patchDom E this (node t) s = Some (Normal tt s') ∧
          scheduled this W Q (world s') ∧ current s' = current s ∧
          trace s' = trace s ++ [p] ∧ is_patch p.
Proof.
  intros Hpatch Hs Hout Ht.
  destruct (scheduled_fiber _ _ _ _ _ _ Hs Ht) as (t1 & Ht1 & Hnode).
  destruct Hout as [old Hold]. unfold node_of in Hold. rewrite Ht1 in Hold.
  simpl in Hold. rewrite Hnode in Hold.
  destruct (nodes (world s) !! node t) as [n|] eqn:Hn; [|done]. simpl in Hold.
  unfold patchDom.
  unfold cbind at 1. rewrite (lift_getNode _ _ _ Hn).
  unfold cbind at 1. rewrite (lift_getFiber _ _ _ Ht1).
  rewrite Hold. unfold cbind at 1. unfold external.
  destruct (Hpatch old (bdom t1)
              (bool_decide (0 < size (ComponentNode.children n))) (world s))
    as (w' & -> & Hkeep).
  pose proof (keeps_schedule_scheduled _ _ _ _ _ Hs Hkeep) as Hs'.
  destruct (scheduled_root _ _ _ _ Hs') as (t2 & r2 & Ht2 & Hr2 & HQ).
  destruct Hs as (_ & HN & _).
  assert (∃ n2, nodes w' !! node t = Some n2) as [n2 Hn2].
  { destruct Hs' as (_ & HN' & _). specialize (HN' (node t) onMounted).
    specialize (HN (node t) onMounted). rewrite Hn in HN.
    rewrite <- HN in HN'. destruct (nodes w' !! node t); [eauto|done]. }
  unfold cbind at 1. erewrite lift_modFiber by (simpl; exact Ht2).
  unfold cbind at 1. erewrite lift_modRoot;
    [|simpl; apply lookup_insert_eq|simpl; exact Hr2].
  erewrite lift_modNode by (simpl; exact Hn2).
  eexists _, _. split; [done|]. simpl. split; [|split; [done|split; [done|]]].
  - set (w1 := set_fibers (<[this := set_appliedToDom true t2]> (fibers w')) w').
    set (w2 := set_fibers
                 (<[this := set_rootPart (Some (set_locked false r2))
                              (set_appliedToDom true t2)]> (fibers w1)) w1).
    apply (scheduled_set_node this W Q w2 (node t) n2); [|done|by intros []].
    assert (scheduled this W Q w1) as Hs1.
    { by apply (scheduled_set_fiber this W Q w' t2). }
    rewrite <- HQ.
    apply (scheduled_set_root this W Q w1 (set_appliedToDom true t2)
             (set_locked false r2)); [done|].
    simpl. apply lookup_insert_eq.
  - by eexists _, _, _.
Qed.

Lemma has_output_insert w this t t' :
  fibers w !! this = Some t → node t' = node t →
  has_output w this →
  has_output (set_fibers (<[this := t']> (fibers w)) w) this.
Proof.
  intros Ht Hnode. unfold has_output, node_of. simpl.
  by rewrite lookup_insert_eq, Ht; simpl; rewrite Hnode.
Qed.

(** A commit in which the hooks and the patch return and keep the
    schedule of [this] runs to its end; its calls, and the queues it
    leaves. *)
Lemma RootFiber_complete_run_scheduled E this s t r n fuel :
  hooks_keep_schedule E this → patch_keeps_schedule E this →
  fibers (world s) !! this = Some t → rootPart t = Some r →
  nodes (world s) !! node t = Some n → is_Some (ComponentNode.bdom n) →
  queued_ok (world s) (willPatch r ++ mounted r ++ patched r) →
  commit_fuel (world s) (willPatch r ++ mounted r ++ patched r) ≤ fuel →
  ∃ s' wp p mt pd,
    RootFiber_complete E fuel this s = Some (Normal tt s') ∧
    trace s' = trace s ++ wp ++ [p] ++ mt ++ pd ∧
    serves (world s) onWillPatch (willPatch r) wp ∧
    is_patch p ∧
    serves (world s) onMounted (rev (mounted r)) mt ∧
    serves (world s) onPatched (rev (patched r)) pd ∧
    scheduled this (world s) (willPatch r, [], []) (world s').
Proof.
  intros Hcall Hpatch Ht Hr Hn Hold Hq Hfuel.
  set (qs := willPatch r ++ mounted r ++ patched r) in *.
  assert (length (willPatch r) < fuel ∧ length (mounted r) < fuel ∧
          length (patched r) < fuel) as (Hlw & Hlm & Hlp).
  { unfold commit_fuel, qs in Hfuel. rewrite !length_app in Hfuel. lia. }
  assert (∀ f, f ∈ qs → hooks_size (world s) f < fuel) as Hsize.
  { intros f Hf. destruct (commit_fuel_bound (world s) qs f Hf). lia. }
  apply Forall_app in Hq as [Hqw Hq]. apply Forall_app in Hq as [Hqm Hqp].
  unfold RootFiber_complete.
  unfold cbind at 1. rewrite (lift_getFiber _ _ _ Ht).
  unfold cbind at 1. rewrite (lift_modRoot _ _ _ _ _ Ht Hr).
  unfold cbind at 1. unfold assign_current. unfold try_catch.
  change (set_current None _) with (locked_frame this t r s).
  set (s1 := locked_frame this t r s).
  assert (scheduled this (world s) (willPatch r, mounted r, patched r) (world s1))
    as Hs1.
  { apply (scheduled_set_root this (world s) (willPatch r, mounted r, patched r)
             (world s) t (set_locked true r)); [|done].
    by apply (scheduled_refl this (world s) t r). }
  assert (has_output (world s1) this) as Hout1.
  { apply (has_output_insert _ _ t); [done..|]. unfold has_output, node_of.
    rewrite Ht. simpl. rewrite Hn. done. }
  unfold RootFiber_try.
  destruct (callWillPatch_run_scheduled E this (world s) Hcall (λ w, has_output w this)
              (willPatch r) (mounted r) (patched r) fuel s1)
    as (s2 & wp & Hrun2 & Hs2 & Hout2 & Hc2 & Htr2 & Hwp); try done.
  { intros w w' (_ & _ & _ & Hk). exact Hk. }
  { intros f Hf. apply Hsize. apply elem_of_app. by left. }
  unfold cbind at 1. rewrite Hrun2.
  destruct (patchDom_run_scheduled E this (world s) _ s2 t Hpatch Hs2 Hout2 Ht)
    as (s3 & p & Hrun3 & Hs3 & Hc3 & Htr3 & Hp).
  unfold cbind at 1. rewrite Hrun3.
  destruct (drain_run_scheduled E this (world s) Hcall fuel onMounted mounted
              set_mounted (λ q, (willPatch r, q, patched r)) s3 (mounted r))
    as (s4 & mt & Hrun4 & Hs4 & Hc4 & Htr4 & Hmt); try done.
  { by intros r' q [= _ -> _]. }
  { intros r' q v [= H1 _ H3]. simpl. by rewrite H1, H3. }
  { intros f Hf. apply Hsize. apply elem_of_app. right.
    apply elem_of_app. by left. }
  unfold drainMounted. unfold cbind at 1. rewrite Hrun4.
  destruct (drain_run_scheduled E this (world s) Hcall fuel onPatched patched
              set_patched (λ q, (willPatch r, [], q)) s4 (patched r))
    as (s5 & pd & Hrun5 & Hs5 & Hc5 & Htr5 & Hpd); try done.
  { by intros r' q [= _ _ ->]. }
  { intros r' q v [= H1 H2 _]. simpl. by rewrite H1, H2. }
  { intros f Hf. apply Hsize. apply elem_of_app. right.
    apply elem_of_app. by right. }
  unfold drainPatched. rewrite Hrun5.
  exists s5, wp, p, mt, pd. split; [done|]. split; [|done].
  rewrite Htr5, Htr4, Htr3, Htr2. simpl. by rewrite <- !app_assoc.
Qed.

(** C5, as the code has it: in a commit in which the hooks and the patch
    return and keep the schedule of [this] (the node of every fiber, the
    hooks registered on every node, the three queues of [this] and an
    output on its node; they may change anything else, such as flag the
    outputs of fibers as applied), the fibers of the [willPatch] queue are
    served from its start to its end, then the patch is applied, then the
    fibers of the [mounted] queue are served from its end to its start,
    and then those of the [patched] queue, also from its end to its
    start.  A fiber that is served has all the hooks of its node called,
    in the order of their registration, or it is passed over. *)
Theorem RootFiber_complete_hook_order E this s t r n fuel :
  hooks_keep_schedule E this → patch_keeps_schedule E this →
  fibers (world s) !! this = Some t → rootPart t = Some r →
  nodes (world s) !! node t = Some n → is_Some (ComponentNode.bdom n) →
  queued_ok (world s) (willPatch r ++ mounted r ++ patched r) →
  commit_fuel (world s) (willPatch r ++ mounted r ++ patched r) ≤ fuel →
  ∃ s' wp p mt pd,
    RootFiber_complete E fuel this s = Some (Normal tt s') ∧
    trace s' = trace s ++ wp ++ [p] ++ mt ++ pd ∧
    serves (world s) onWillPatch (willPatch r) wp ∧
    is_patch p ∧
    serves (world s) onMounted (rev (mounted r)) mt ∧
    serves (world s) onPatched (rev (patched r)) pd.
Proof.
  intros Hcall Hpatch Ht Hr Hn Hold Hq Hfuel.
  destruct (RootFiber_complete_run_scheduled E this s t r n fuel)
    as (s' & wp & p & mt & pd & Hrun & Htr & Hwp & Hp & Hmt & Hpd & _);
    try done.
  by exists s', wp, p, mt, pd.
Qed.

Lemma keeps_schedule_refl this w : keeps_schedule this w w.
Proof. done. Qed.

Lemma keeps_schedule_trans this w1 w2 w3 :
  keeps_schedule this w1 w2 → keeps_schedule this w2 w3 →
  keeps_schedule this w1 w3.
Proof.
  intros (HF & HN & HQ & HO) (HF' & HN' & HQ' & HO'). split; [|split; [|split]].
  - intros l. by rewrite HF'.
  - intros n h. by rewrite HN'.
  - by rewrite HQ'.
  - auto.
Qed.

Lemma flag_keeps_schedule this l w : keeps_schedule this w (flag l w).
Proof.
  unfold flag. destruct (fibers w !! l) as [o|] eqn:Ho; [|done].
  assert (∀ x, (λ o, (node o, rootPart o)) <$>
               (<[l := set_appliedToDom true o]> (fibers w)) !! x
               = (λ o, (node o, rootPart o)) <$> fibers w !! x) as Hsame.
  { intros x. destruct (decide (x = l)) as [->|Hne].
    - by rewrite lookup_insert_eq, Ho.
    - by rewrite lookup_insert_ne. }
  split; [|split; [done|split]].
  - intros x. simpl. specialize (Hsame x).
    destruct (_ !! x), (fibers w !! x); simpl in *; congruence.
  - unfold queues_of. simpl. specialize (Hsame this).
    destruct (_ !! this), (fibers w !! this); simpl in *; congruence.
  - unfold has_output, node_of. simpl. specialize (Hsame this).
    destruct (_ !! this), (fibers w !! this); simpl in *; congruence.
Qed.

Lemma RootFiber_complete_hook_order_witness :
  ∃ s' wp p mt pd,
    RootFiber_complete committing_collaborators 35 1 (start unflagged_batch)
    = Some (Normal tt s') ∧
    trace s' = wp ++ [p] ++ mt ++ pd ∧
    serves unflagged_batch onWillPatch [1; 2; 3] wp ∧
    is_patch p ∧
    serves unflagged_batch onMounted [3; 2] mt ∧
    serves unflagged_batch onPatched [3; 2; 1] pd ∧
    trace s'
    = [EvCall onWillPatch 1 110; EvCall onWillPatch 2 120;
       EvCall onWillPatch 3 130;
       EvPatch 5 (Some 8) false;
       EvCall onMounted 3 132; EvCall onMounted 2 122;
       EvCall onPatched 3 131; EvCall onPatched 2 121;
       EvCall onPatched 1 111; EvCall onPatched 1 112].
Proof.
  destruct (RootFiber_complete_hook_order committing_collaborators 1
              (start unflagged_batch) (commit_root false)
              (mkRootPart 0 [1; 2; 3] [1; 2; 3] [2; 3] false None)
              (hooked_node (Some 1) (Some 5) MOUNTED [110] [111; 112] [113])
              35)
    as (s' & wp & p & mt & pd & Hrun & Htr & Hwp & Hp & Hmt & Hpd);
    try reflexivity.
  - intros cb rc w. exists w. split; [done|]. apply keeps_schedule_refl.
  - intros old new wc w. eexists. split; [done|].
    eapply keeps_schedule_trans; apply flag_keeps_schedule.
  - by eexists.
  - repeat constructor; vm_compute; eauto.
  - exists s', wp, p, mt, pd. split; [exact Hrun|]. split; [exact Htr|].
    split; [exact Hwp|]. split; [exact Hp|]. split; [exact Hmt|].
    split; [exact Hpd|].
    clear Htr Hwp Hp Hmt Hpd. vm_compute in Hrun. by injection Hrun as <-.
Defined.

(** C5 as the spec states it fails for the [patched] hooks: the queue is
    [1; 2; 3], and the hooks of [3] are called first, those of [1] last. *)
Lemma patched_order_counterexample :
  ∃ s', RootFiber_complete quiet_collaborators 35 1 (start (commit_batch [120]))
        = Some (Normal tt s') ∧
        patched <$> (fibers (commit_batch [120]) !! 1 ≫= rootPart)
        = Some [1; 2; 3] ∧
        calls_of onPatched (trace s')
        = [EvCall onPatched 3 131; EvCall onPatched 2 121;
           EvCall onPatched 1 111; EvCall onPatched 1 112] ∧
        queue_order_calls (commit_batch [120]) onPatched [1; 2; 3]
        = [EvCall onPatched 1 111; EvCall onPatched 1 112;
           EvCall onPatched 2 121; EvCall onPatched 3 131] ∧
        calls_of onPatched (trace s')
        ≠ queue_order_calls (commit_batch [120]) onPatched [1; 2; 3].
Proof.
  eexists. split; [vm_compute; reflexivity|]. split; [reflexivity|].
  split; [reflexivity|]. split; [reflexivity|]. vm_compute. discriminate.
Qed.

(** ** [MountFiber] *)

Lemma new_MountFiber_position nd tg options w :
  let this := fresh (dom (fibers w)) in
  ∃ w', new_MountFiber nd tg options w = Some (this, w') ∧
        (fibers w' !! this ≫= rootPart) ≫= mountPart
        = Some (mkMountPart tg (default last_child options)).
Proof.
  intros this. unfold new_MountFiber, alloc, Fiber_constructor, RootFiber_fields.
  fold this. unfold bind at 1. unfold bind at 1. unfold bind at 1.
  unfold putFiber at 1.
  erewrite modFiber_Some by (simpl; apply lookup_insert_eq).
  unfold bind at 1.
  erewrite modFiber_Some by (simpl; apply lookup_insert_eq).
  unfold bind at 1.
  erewrite modRoot_Some; [|simpl; apply lookup_insert_eq|reflexivity].
  unfold ret. eexists. split; [reflexivity|]. simpl.
  rewrite lookup_insert_eq. simpl. by destruct options.
Qed.

Lemma mountDom_insert E this nd s n t r m :
  nodes (world s) !! nd = Some n → ComponentNode.bdom n = None →
  fibers (world s) !! this = Some t → rootPart t = Some r →
  mountPart r = Some m →
  ∀ kids, (position m = first_child →
           childNodes (world s) !! target m = Some kids) →
  let afterNode := insertion_point (position m) kids in
  mountDom E this nd s
  = external (EvMount (bdom t) (target m) afterNode)
      (mount E (bdom t) (target m) afterNode) (output_stored nd n t s).
Proof.
  intros Hn Hnone Ht Hr Hm kids Hkids afterNode. unfold mountDom.
  unfold cbind at 1. rewrite (lift_getNode _ _ _ Hn), Hnone.
  unfold cbind at 1. rewrite (lift_getFiber _ _ _ Ht).
  unfold cbind at 1. rewrite (lift_modNode _ _ _ _ Hn).
  fold (output_stored nd n t s).
  unfold cbind at 1. erewrite lift_getRoot; [|exact Ht|exact Hr].
  rewrite Hm. unfold cbind at 1. erewrite lift_getNode
    by (simpl; apply lookup_insert_eq).
  subst afterNode. simpl ComponentNode.bdom.
  destruct (position m); simpl; [|done].
  rewrite Hkids by done. by destruct kids.
Qed.

Lemma mountDom_update E this nd s n b0 :
  nodes (world s) !! nd = Some n → ComponentNode.bdom n = Some b0 →
  mountDom E this nd s = external (EvUpdateDom nd) (updateDom E nd) s.
Proof.
  intros Hn Hsome. unfold mountDom.
  unfold cbind at 1. by rewrite (lift_getNode _ _ _ Hn), Hsome.
Qed.

(** C10, as the code has it: a [MountFiber] constructed without a
    position has the position "last-child".  When the node has no output
    yet, [MountFiber.complete] stores the fiber's output on the node and
    makes one call of [mount]: before the first child of the target if the
    position is "first-child" and the target has a child, and at the end
    in every other case.  When the node has an output already,
    [node.updateDom()] is called and nothing is inserted. *)
Theorem MountFiber_inserts_at_position E :
  (∀ nd tg w,
     ∃ w', new_MountFiber nd tg None w = Some (fresh (dom (fibers w)), w') ∧
           (fibers w' !! fresh (dom (fibers w)) ≫= rootPart) ≫= mountPart
           = Some (mkMountPart tg last_child)) ∧
  (∀ this nd s n t r m kids,
     nodes (world s) !! nd = Some n → ComponentNode.bdom n = None →
     fibers (world s) !! this = Some t → rootPart t = Some r →
     mountPart r = Some m →
     (position m = first_child →
      childNodes (world s) !! target m = Some kids) →
     ∃ afterNode,
       mountDom E this nd s
       = external (EvMount (bdom t) (target m) afterNode)
           (mount E (bdom t) (target m) afterNode) (output_stored nd n t s) ∧
       (∀ k, afterNode = Some k ↔ position m = first_child ∧ head kids = Some k) ∧
       (afterNode = None ↔ position m = last_child ∨ kids = [])) ∧
  (∀ this nd s n b0,
     nodes (world s) !! nd = Some n → ComponentNode.bdom n = Some b0 →
     mountDom E this nd s = external (EvUpdateDom nd) (updateDom E nd) s).
Proof.
  split; [|split].
  - intros nd tg w. apply (new_MountFiber_position nd tg None w).
  - intros this nd s n t r m kids Hn Hnone Ht Hr Hm Hkids.
    exists (insertion_point (position m) kids).
    split; [by eapply mountDom_insert|].
    unfold insertion_point. destruct (position m), kids; simpl; split;
      try split; try done; try tauto; try (by left); try (by right);
      try (by intros [? ?]); try (by intros [?|?]).
  - intros this nd s n b0. apply mountDom_update.
Qed.

Lemma MountFiber_inserts_at_position_witness :
  (∃ w', new_MountFiber 11 50 None lone_node = Some (0, w') ∧
         (fibers w' !! 0 ≫= rootPart) ≫= mountPart
         = Some (mkMountPart 50 last_child)) ∧
  (∃ afterNode,
     mountDom sample_collaborators 1 11
       (start (mount1 first_child None (Some 8) [70; 71] [122]))
     = external (EvMount (Some 8) 50 afterNode)
         (mount sample_collaborators (Some 8) 50 afterNode)
         (output_stored 11 (hooked_node (Some 1) None NEW [] [] [113])
            (mount_root first_child (Some 8))
            (start (mount1 first_child None (Some 8) [70; 71] [122]))) ∧
     afterNode = Some 70) ∧
  mountDom sample_collaborators 1 11
    (start (mount1 last_child (Some 4) (Some 8) [70; 71] [122]))
  = external (EvUpdateDom 11) (updateDom sample_collaborators 11)
      (start (mount1 last_child (Some 4) (Some 8) [70; 71] [122])).
Proof.
  destruct (MountFiber_inserts_at_position sample_collaborators)
    as (Hnew & Hinsert & Hupdate).
  split; [|split].
  - exact (Hnew 11 50 lone_node).
  - destruct (Hinsert 1 11
                (start (mount1 first_child None (Some 8) [70; 71] [122]))
                (hooked_node (Some 1) None NEW [] [] [113])
                (mount_root first_child (Some 8))
                (mkRootPart 0 [] [] [1; 2] false
                   (Some (mkMountPart 50 first_child)))
                (mkMountPart 50 first_child) [70; 71])
      as (afterNode & Hrun & Hsome & _); try reflexivity.
    exists afterNode. split; [exact Hrun|]. apply Hsome. by split.
  - apply (Hupdate 1 11 _ (hooked_node (Some 1) (Some 4) NEW [] [] [113]) 4);
      reflexivity.
Defined.

(** C10 as the spec states it fails: the position is "last-child", but the
    node has an output already; [updateDom] is called and there is no
    call of [mount], so nothing is appended. *)
Lemma MountFiber_retry_counterexample :
  ∃ s',
    MountFiber_complete sample_collaborators 5 1
      (start (mount1 last_child (Some 4) (Some 8) [70; 71] [122]))
    = Some (Normal tt s') ∧
    (position <$> ((fibers (mount1 last_child (Some 4) (Some 8) [70; 71] [122])
                      !! 1 ≫= rootPart) ≫= mountPart)) = Some last_child ∧
    trace s' = [EvUpdateDom 11; EvCall onMounted 2 122; EvCall onMounted 1 113] ∧
    ∀ b tg afterNode, EvMount b tg afterNode ∉ trace s'.
Proof.
  eexists. split; [vm_compute; reflexivity|]. split; [reflexivity|].
  split; [reflexivity|]. intros b tg afterNode. simpl.
  intros Hin. repeat (apply elem_of_cons in Hin as [Hin|Hin]; [discriminate|]).
  by apply elem_of_nil in Hin.
Qed.

Section Mount.
Context (E : Collaborators).

Lemma triple_callHooks_current fuel h f nd rc :
  triple (λ s, current s = Some f) (callHooks E fuel h f nd rc)
    (λ _ s, current s = Some f) (λ _ s, current s = Some f).
Proof.
  apply triple_for_of. intros cb. apply triple_external; by intros.
Qed.

Lemma triple_drain_current fuel this get set h :
  triple (λ _, True) (while_pop fuel this get set (drain_step E fuel h))
    (λ _ _, True) (λ _ s, is_Some (current s)).
Proof.
  apply triple_while_pop; [done|]. intros x. unfold drain_step.
  apply (triple_cbind _ _ _ (λ _ s, current s = Some x)).
  { apply triple_lift. by intros s a w [_ Hc] _. }
  intros fc. destruct (appliedToDom fc); [|done].
  eapply triple_conseq; [apply triple_callHooks_current|done..|].
  intros e s ->. eauto.
Qed.

Lemma triple_mountDom_current this nd c0 :
  triple (λ s, current s = c0) (mountDom E this nd)
    (λ _ s, current s = c0) (λ _ s, current s = c0).
Proof.
  assert (∀ {A} (m : M A),
            triple (λ s, current s = c0) (lift m)
              (λ _ s, current s = c0) (λ _ s, current s = c0)) as Hlift.
  { intros A m. apply triple_lift. by intros. }
  unfold mountDom. apply (triple_cbind _ _ _ (λ _ s, current s = c0));
    [apply Hlift|].
  intros n. destruct (ComponentNode.bdom n).
  { apply triple_external; by intros. }
  apply (triple_cbind _ _ _ (λ _ s, current s = c0)); [apply Hlift|].
  intros t. apply (triple_cbind _ _ _ (λ _ s, current s = c0)); [apply Hlift|].
  intros _. apply (triple_cbind _ _ _ (λ _ s, current s = c0)); [apply Hlift|].
  intros r. destruct (mountPart r) as [m|]; [|done].
  apply (triple_cbind _ _ _ (λ _ s, current s = c0)); [apply Hlift|].
  intros n'. destruct (position m).
  - intros s Hs. destruct (childNodes (world s) !! target m) as [[|k kids]|];
      [| |done]; by apply (triple_external (λ s, current s = c0)).
  - apply triple_external; by intros.
Qed.

(** Whenever something is thrown in the [try] block of
    [MountFiber.complete], [current] is a fiber. *)
Lemma triple_MountFiber_try fuel this :
  triple (λ s, current s = Some this) (MountFiber_try E fuel this)
    (λ _ _, True) (λ _ s, is_Some (current s)).
Proof.
  unfold MountFiber_try.
  apply (triple_cbind _ _ _ (λ _ s, current s = Some this)).
  { apply triple_lift. by intros. }
  intros t. apply (triple_cbind _ _ _ (λ _ _, True)).
  { eapply triple_conseq; [apply (triple_mountDom_current _ _ (Some this))|
                           done..|].
    intros e s ->. eauto. }
  intros _. apply (triple_cbind _ _ _ (λ _ _, True)).
  { unfold markMounted.
    apply (triple_cbind _ _ _ (λ _ _, True)); [by apply triple_lift|].
    intros _. apply (triple_cbind _ _ _ (λ _ _, True)); [by apply triple_lift|].
    intros _. by apply triple_lift. }
  intros _. apply triple_drain_current.
Qed.

Lemma MountFiber_complete_returns fuel this s res :
  MountFiber_complete E fuel this s = Some res → ∃ s', res = Normal tt s'.
Proof.
  unfold MountFiber_complete, cbind, assign_current, try_catch.
  pose proof (triple_MountFiber_try fuel this (set_current (Some this) s)
                eq_refl) as Htriple.
  destruct (MountFiber_try E fuel this (set_current (Some this) s))
    as [[[] s2|e s2]|]; [|..|done].
  - intros [= <-]. eauto.
  - destruct Htriple as [f Hf]. unfold MountFiber_catch, cbind, read_current.
    rewrite Hf. intros [= <-]. eauto.
Qed.

Lemma MountFiber_complete_primitive_throws fuel this s t e s2 :
  fibers (world s) !! this = Some t →
  mountDom E this (node t) (set_current (Some this) s) = Some (Abrupt e s2) →
  MountFiber_complete E fuel this s
  = Some (Normal tt (mount_caught E this e s2)).
Proof.
  intros Ht Hthrow.
  pose proof (triple_mountDom_current this (node t) (Some this)
                (set_current (Some this) s) eq_refl) as Hc.
  rewrite Hthrow in Hc.
  unfold MountFiber_complete. unfold cbind at 1. unfold assign_current.
  unfold try_catch, MountFiber_try.
  unfold cbind at 1. rewrite (lift_getFiber _ _ t) by done.
  unfold cbind at 1. rewrite Hthrow.
  unfold MountFiber_catch, cbind, read_current. by rewrite Hc.
Qed.

Lemma MountFiber_complete_primitive_returns fuel this s t s2 n2 t2 :
  fibers (world s) !! this = Some t →
  mountDom E this (node t) (set_current (Some this) s) = Some (Normal tt s2) →
  nodes (world s2) !! node t = Some n2 → fibers (world s2) !! this = Some t2 →
  MountFiber_complete E fuel this s
  = try_catch (drainMounted E fuel this) (MountFiber_catch E)
      (marked_frame this (node t) n2 t2 s2).
Proof.
  intros Ht Hret Hn2 Ht2.
  unfold MountFiber_complete. unfold cbind at 1. unfold assign_current.
  unfold try_catch, MountFiber_try.
  unfold cbind at 1. rewrite (lift_getFiber _ _ t) by done.
  unfold cbind at 1. rewrite Hret. unfold markMounted.
  unfold cbind at 1. unfold cbind at 1. rewrite (lift_modNode _ _ _ _ Hn2).
  unfold cbind at 1. erewrite lift_modNode by (simpl; apply lookup_insert_eq).
  erewrite lift_modFiber by (simpl; exact Ht2).
  unfold marked_frame. simpl. by rewrite insert_insert_eq.
Qed.

End Mount.

(** C8, as the code has it: [MountFiber.complete] never ends abruptly.
    If the mount primitive (or [updateDom]) throws, the exception goes to
    [handleError] with the mount fiber and nothing else is done: the
    node's fiber, the status and [appliedToDom] are not written.  If the
    primitive returns, the node's fiber is cleared, its status is
    [MOUNTED] and [appliedToDom] is [true] before the [mounted] hooks run;
    if a hook then throws, the exception goes to [handleError] with the
    fiber of the hook. *)
Theorem MountFiber_complete_marks E fuel this s :
  (∀ res, MountFiber_complete E fuel this s = Some res →
          ∃ s', res = Normal tt s') ∧
  (∀ t e s2,
     fibers (world s) !! this = Some t →
     mountDom E this (node t) (set_current (Some this) s) = Some (Abrupt e s2) →
     MountFiber_complete E fuel this s
     = Some (Normal tt (mount_caught E this e s2))) ∧
  (∀ t s2 n2 t2,
     fibers (world s) !! this = Some t →
     mountDom E this (node t) (set_current (Some this) s) = Some (Normal tt s2) →
     nodes (world s2) !! node t = Some n2 → fibers (world s2) !! this = Some t2 →
     let s3 := marked_frame this (node t) n2 t2 s2 in
     MountFiber_complete E fuel this s
     = try_catch (drainMounted E fuel this) (MountFiber_catch E) s3 ∧
     ComponentNode.fiber <$> nodes (world s3) !! node t = Some None ∧
     ComponentNode.status <$> nodes (world s3) !! node t = Some MOUNTED ∧
     appliedToDom <$> fibers (world s3) !! this = Some true ∧
     (∀ e s4, drainMounted E fuel this s3 = Some (Abrupt e s4) →
              ∃ f, current s4 = Some f ∧
                   MountFiber_complete E fuel this s
                   = Some (Normal tt (mount_caught E f e s4)))).
Proof.
  split; [|split].
  - intros res. apply MountFiber_complete_returns.
  - intros t e s2. apply MountFiber_complete_primitive_throws.
  - intros t s2 n2 t2 Ht Hret Hn2 Ht2 s3.
    pose proof (MountFiber_complete_primitive_returns E fuel this s t s2 n2 t2
                  Ht Hret Hn2 Ht2) as Hrun. fold s3 in Hrun.
    split; [done|]. unfold s3, marked_frame. simpl.
    rewrite !lookup_insert_eq. repeat split; try done.
    fold (marked_frame this (node t) n2 t2 s2). fold s3.
    intros e s4 Hdrain.
    pose proof (triple_drain_current E fuel this mounted set_mounted onMounted
                  s3 I) as Hc.
    unfold drainMounted in Hdrain. rewrite Hdrain in Hc. destruct Hc as [f Hf].
    exists f. split; [done|]. rewrite Hrun. unfold try_catch, drainMounted.
    rewrite Hdrain. unfold MountFiber_catch, cbind, read_current. by rewrite Hf.
Qed.

Lemma MountFiber_complete_marks_witness :
  (∃ s', MountFiber_complete sample_collaborators 5 1
           (start (mount1 last_child None (Some 66) [] [122]))
         = Some (Normal tt s') ∧
         trace s' = [EvMount (Some 66) 50 None; EvHandleError 1 (Thrown 66)]) ∧
  (∃ s3, MountFiber_complete sample_collaborators 5 1
           (start (mount1 first_child None (Some 8) [70; 71] [122; 99]))
         = try_catch (drainMounted sample_collaborators 5 1)
             (MountFiber_catch sample_collaborators) s3 ∧
         ComponentNode.fiber <$> nodes (world s3) !! 11 = Some None ∧
         ComponentNode.status <$> nodes (world s3) !! 11 = Some MOUNTED ∧
         appliedToDom <$> fibers (world s3) !! 1 = Some true).
Proof.
  split.
  - destruct (MountFiber_complete_marks sample_collaborators 5 1
                (start (mount1 last_child None (Some 66) [] [122])))
      as (_ & Hthrows & _).
    exists (mount_caught sample_collaborators 1 (Thrown 66)
              (mount_stored last_child (Some 66) [] [122] None)).
    split; [|reflexivity].
    apply (Hthrows (mount_root last_child (Some 66))); vm_compute; reflexivity.
  - destruct (MountFiber_complete_marks sample_collaborators 5 1
                (start (mount1 first_child None (Some 8) [70; 71] [122; 99])))
      as (_ & _ & Hreturns).
    destruct (Hreturns (mount_root first_child (Some 8))
                (mount_stored first_child (Some 8) [70; 71] [122; 99] (Some 70))
                (hooked_node (Some 1) (Some 8) NEW [] [] [113])
                (mount_root first_child (Some 8)))
      as (Hrun & Hfiber & Hstatus & Happlied & _);
      try (vm_compute; reflexivity).
    eexists. split; [exact Hrun|]. split; [exact Hfiber|].
    split; [exact Hstatus|]. exact Happlied.
Defined.

(** C8 as the spec states it fails: when [mount] throws, the node keeps its
    fiber, its status is still [NEW] and [appliedToDom] is still
    [false]. *)
Lemma MountFiber_mount_throws_counterexample :
  ∃ s',
    MountFiber_complete sample_collaborators 5 1
      (start (mount1 last_child None (Some 66) [] [122]))
    = Some (Normal tt s') ∧
    trace s' = [EvMount (Some 66) 50 None; EvHandleError 1 (Thrown 66)] ∧
    ComponentNode.fiber <$> nodes (world s') !! 11 = Some (Some 1) ∧
    ComponentNode.status <$> nodes (world s') !! 11 = Some NEW ∧
    appliedToDom <$> fibers (world s') !! 1 = Some false.
Proof.
  eexists. split; [vm_compute; reflexivity|].
  repeat split; vm_compute; reflexivity.
Qed.

(** ** Which fibers have their hooks called *)






(** ** What the bookkeeping leaves alone *)

Local Open Scope store_scope.

Lemma without_first_removed x q : first_removed x q (without x q).
Proof.
  unfold without, indexOf.
  destruct (list_find (λ y, y = x) q) as [[i y]|] eqn:H; simpl.
  - right. apply list_find_Some in H as (Hy & -> & Hlt).
    exists (take i q), (drop (S i) q). split; [|split].
    + by rewrite take_drop_middle.
    + intros [j Hj]%list_elem_of_lookup.
      apply lookup_take_Some in Hj as [Hj Hji]. by apply (Hlt j x).
    + apply delete_take_drop.
  - left. split; [|done]. intros Hin. apply list_find_None in H.
    rewrite Forall_forall in H. by apply (H x).
Qed.

(** X1: [cleanPatchableFiber] takes the first occurrence of the child out
    of the [willPatch] and of the [patched] queue of the root, each queue
    being left as it is when the child is not in it; the [mounted] queue,
    the counter, the lock and the mount data are not touched, and no other
    object of the store is written. *)
Theorem cleanPatchableFiber_removes_first child rt w f r :
  fibers w !! rt = Some f → rootPart f = Some r →
  ∃ r',
    cleanPatchableFiber child rt w
    = Some (tt, set_fibers (<[rt := set_rootPart (Some r') f]> (fibers w)) w) ∧
    first_removed child (willPatch r) (willPatch r') ∧
    first_removed child (patched r) (patched r') ∧
    mounted r' = mounted r ∧ counter r' = counter r ∧
    locked r' = locked r ∧ mountPart r' = mountPart r.
Proof.
  intros Hf Hr. exists (cleaned child r).
  split; [by apply cleanPatchableFiber_Some|].
  unfold cleaned. simpl. repeat split; apply without_first_removed.
Qed.

Lemma cleanPatchableFiber_removes_first_witness :
  ∃ r',
    cleanPatchableFiber 2 1 (commit_batch [])
    = Some (tt, set_fibers
                  (<[1 := set_rootPart (Some r') (commit_root false)]>
                     (fibers (commit_batch []))) (commit_batch [])) ∧
    first_removed 2 [1; 2; 3] (willPatch r') ∧
    first_removed 2 [1; 2; 3] (patched r') ∧
    mounted r' = [2; 3] ∧ counter r' = 0%Z ∧
    locked r' = false ∧ mountPart r' = None.
Proof.
  apply (cleanPatchableFiber_removes_first 2 1 (commit_batch [])
           (commit_root false)
           (mkRootPart 0 [1; 2; 3] [1; 2; 3] [2; 3] false None));
    reflexivity.
Defined.


Lemma cancelLoop_app rec rt fs1 fs2 :
  ∀ acc w,
    cancelLoop rec rt (fs1 ++ fs2) acc w
    = match cancelLoop rec rt fs1 acc w with
      | Some (k, w1) => cancelLoop rec rt fs2 k w1
      | None => None
      end.
Proof.
  induction fs1 as [|f rest IH]; intros acc w; [reflexivity|].
  simpl. unfold bind.
  destruct (getFiber f w) as [[o w1]|]; [|done].
  destruct (modNode (node o) (set_node_fiber None) w1) as [[[] w2]|]; [|done].
  destruct (modFiber f (set_root rt) w2) as [[[] w3]|]; [|done].
  destruct (getFiber f w3) as [[o' w4]|]; [|done].
  destruct (rec (children o') w4) as [[n w5]|]; [|done].
  apply IH.
Qed.

Lemma cancelLoop_acc rec rt fs :
  ∀ acc w,
    cancelLoop rec rt fs acc w
    = match cancelLoop rec rt fs 0 w with
      | Some (k, w1) => Some ((acc + k)%Z, w1)
      | None => None
      end.
Proof.
  induction fs as [|f rest IH]; intros acc w.
  - simpl. unfold ret. by rewrite Z.add_0_r.
  - simpl. unfold bind.
    destruct (getFiber f w) as [[o w1]|]; [|done].
    destruct (modNode (node o) (set_node_fiber None) w1) as [[[] w2]|]; [|done].
    destruct (modFiber f (set_root rt) w2) as [[[] w3]|]; [|done].
    destruct (getFiber f w3) as [[o' w4]|]; [|done].
    destruct (rec (children o') w4) as [[n w5]|]; [|done].
    rewrite IH. rewrite (IH (_ + n)%Z).
    destruct (cancelLoop rec rt rest 0 w5) as [[k w6]|]; [|done].
    do 2 f_equal. destruct (bdom o'); lia.
Qed.

(** X2: [cancelFibers] over a list of fibers is [cancelFibers] over a
    first part of the list followed by [cancelFibers] over the rest, and
    the number it returns is the sum of the two numbers. *)
Theorem cancelFibers_app fuel rt fs1 fs2 w :
  cancelFibers fuel rt (fs1 ++ fs2) w
  = (let* k1 := cancelFibers fuel rt fs1 in
     let* k2 := cancelFibers fuel rt fs2 in
     ret (k1 + k2)%Z) w.
Proof.
  destruct fuel as [|n].
  - destruct fs1 as [|x fs1]; [|done]. by destruct fs2.
  - simpl. rewrite cancelLoop_app. unfold bind.
    destruct (cancelLoop _ rt fs1 0 w) as [[k1 w1]|]; [|done].
    apply cancelLoop_acc.
Qed.


Lemma cancelOne_id rt w f o c :
  fibers w !! f = Some o → root o = rt →
  nodes w !! node o = Some c → ComponentNode.fiber c = None →
  cancelOne rt w f = w.
Proof.
  intros Ho Hr Hc Hf. unfold cancelOne. rewrite Ho, Hc.
  assert (set_root rt o = o) as -> by (destruct o; simpl in *; by subst).
  assert (set_node_fiber None c = c) as -> by (destruct c; simpl in *; by subst).
  rewrite !insert_id by done. by destruct w.
Qed.

Lemma cancel_fold_id rt l w :
  (∀ f, f ∈ l → ∃ o c, fibers w !! f = Some o ∧ root o = rt ∧
                       nodes w !! node o = Some c ∧ ComponentNode.fiber c = None) →
  foldl (cancelOne rt) w l = w.
Proof.
  induction l as [|f l IH]; intros H; [done|]. simpl.
  destruct (H f) as (o & c & Ho & Hr & Hc & Hf); [by left|].
  rewrite (cancelOne_id rt w f o c) by done. apply IH.
  intros x Hx. apply H. by right.
Qed.

(** X3: a second [cancelFibers] over the same fibers returns the same
    number as the first (it counts the fibers without output, which the
    first call has not changed), and for the same root it changes nothing
    in the stores. *)
Theorem cancelFibers_again fuel rt rt' fs w k w' :
  cancelFibers fuel rt fs w = Some (k, w') →
  ∃ w'', cancelFibers fuel rt' fs w' = Some (k, w'') ∧ (rt' = rt → w'' = w').
Proof.
  intros Hrun.
  destruct (cancelFibers_Some_inv rt fuel fs w w k w' (modulo_root_refl w) Hrun)
    as (visited & Hs & Hnp).
  rewrite (cancelFibers_run rt fuel fs w w visited (modulo_root_refl w) Hs Hnp)
    in Hrun.
  injection Hrun as <- <-.
  pose proof (cancel_fold_modulo_root rt visited w) as Hw.
  rewrite (cancelFibers_run rt' fuel fs w _ visited Hw Hs Hnp).
  eexists. split; [done|]. intros ->. apply cancel_fold_id.
  pose proof (subtree_present _ _ _ _ Hs) as Hp.
  intros f Hf. destruct (Hp f Hf) as [o Ho].
  destruct (Hnp f o Hf Ho) as [c Hc].
  exists (set_root rt o), (set_node_fiber None c).
  rewrite cancel_fold_fibers, cancel_fold_nodes by done.
  rewrite decide_True, Ho by done. split; [done|]. split; [done|].
  simpl. rewrite decide_True, Hc; [done|].
  apply list_elem_of_omap. exists f. by rewrite Ho.
Qed.

Lemma cancelFibers_again_witness :
  ∃ w', cancelFibers 2 9 [2; 3] batch1 = Some (2%Z, w') ∧
        cancelFibers 2 9 [2; 3] w' = Some (2%Z, w').
Proof.
  destruct (cancelFibers 2 9 [2; 3] batch1) as [[k w']|] eqn:Hrun.
  - destruct (cancelFibers_again 2 9 9 [2; 3] batch1 k w' Hrun)
      as (w'' & Hagain & Heq).
    rewrite (Heq eq_refl) in Hagain.
    assert (k = 2%Z) as Hk.
    { vm_compute in Hrun. by injection Hrun as <- _. }
    exists w'. by rewrite <- Hk.
  - vm_compute in Hrun. discriminate.
Defined.

Lemma mtriple_bind {A B} (P : World → Prop) (m : M A) (k : A → M B)
    (R : A → World → Prop) (Q : B → World → Prop) :
  mtriple P m R → (∀ a, mtriple (R a) (k a) Q) → mtriple P (bind m k) Q.
Proof.
  intros Hm Hk w b w' HP (a & w1 & Ha & Hb)%bind_Some_inv.
  eapply Hk; [|exact Hb]. by eapply Hm.
Qed.

Lemma mtriple_conseq {A} (P P' : World → Prop) (m : M A)
    (Q Q' : A → World → Prop) :
  mtriple P' m Q' → (∀ w, P w → P' w) → (∀ a w, Q' a w → Q a w) →
  mtriple P m Q.
Proof. intros H HP HQ w a w' Hw Hrun. apply HQ. eapply H; eauto. Qed.

Section Keeps.
Context (I : World → Prop).
Context (HF : ∀ w h, I w → I (set_fibers h w)).
Context (HN : ∀ w n, I w → I (set_nodes n w)).

Lemma keeps_ret {A} (a : A) : mtriple I (ret a) (λ _, I).
Proof. by intros w a' w' Hw [= _ <-]. Qed.

Lemma keeps_fail {A} : mtriple I (@fail A) (λ _, I).
Proof. by intros w a w' Hw. Qed.

Lemma keeps_bind {A B} (m : M A) (k : A → M B) :
  mtriple I m (λ _, I) → (∀ a, mtriple I (k a) (λ _, I)) →
  mtriple I (bind m k) (λ _, I).
Proof. apply mtriple_bind. Qed.

Lemma keeps_getFiber l : mtriple I (getFiber l) (λ _, I).
Proof. by intros w f w' Hw [_ ->]%getFiber_Some_inv. Qed.

Lemma keeps_getNode n : mtriple I (getNode n) (λ _, I).
Proof. by intros w c w' Hw [_ ->]%getNode_Some_inv. Qed.

Lemma keeps_getRoot l : mtriple I (getRoot l) (λ _, I).
Proof. by intros w r w' Hw (f & _ & _ & ->)%getRoot_Some_inv. Qed.

Lemma keeps_putFiber l f : mtriple I (putFiber l f) (λ _, I).
Proof. intros w [] w' Hw [= <-]. by apply HF. Qed.

Lemma keeps_modFiber l g : mtriple I (modFiber l g) (λ _, I).
Proof. intros w u w' Hw (f & _ & ->)%modFiber_Some_inv. by apply HF. Qed.

Lemma keeps_modNode n g : mtriple I (modNode n g) (λ _, I).
Proof. intros w u w' Hw (c & _ & ->)%modNode_Some_inv. by apply HN. Qed.

Lemma keeps_modRoot l g : mtriple I (modRoot l g) (λ _, I).
Proof.
  apply keeps_bind; [apply keeps_getRoot|]. intros r. apply keeps_modFiber.
Qed.

Lemma keeps_alloc : mtriple I alloc (λ _, I).
Proof. by intros w l w' Hw [= _ <-]. Qed.

Ltac keeps :=
  repeat first
    [ apply keeps_ret | apply keeps_fail | apply keeps_getFiber
    | apply keeps_getNode | apply keeps_getRoot | apply keeps_putFiber
    | apply keeps_modFiber | apply keeps_modNode | apply keeps_modRoot
    | apply keeps_alloc | assumption
    | apply keeps_bind; [|intros ?]
    | match goal with
      | |- mtriple _ (match ?x with _ => _ end) _ => destruct x
      end ].

Lemma keeps_cancelLoop rec rt :
  (∀ fs, mtriple I (rec fs) (λ _, I)) →
  ∀ fs acc, mtriple I (cancelLoop rec rt fs acc) (λ _, I).
Proof.
  intros Hrec fs. induction fs as [|f rest IH]; intros acc; simpl; keeps;
    [apply Hrec|apply IH].
Qed.

Lemma keeps_cancelFibers fuel rt :
  ∀ fs, mtriple I (cancelFibers fuel rt fs) (λ _, I).
Proof.
  induction fuel as [|n IH]; intros fs; simpl.
  - keeps.
  - by apply keeps_cancelLoop.
Qed.

Lemma keeps_cleanPatchableFiber child rt :
  mtriple I (cleanPatchableFiber child rt) (λ _, I).
Proof. unfold cleanPatchableFiber. keeps. Qed.

Lemma keeps_Fiber_constructor this nd par :
  mtriple I (Fiber_constructor this nd par) (λ _, I).
Proof. unfold Fiber_constructor. keeps. Qed.

Lemma keeps_makeChildFiber fuel nd par :
  mtriple I (makeChildFiber fuel nd par) (λ _, I).
Proof.
  unfold makeChildFiber, new_Fiber. keeps;
    first [apply keeps_cancelFibers | apply keeps_cleanPatchableFiber
          | apply keeps_Fiber_constructor].
Qed.

End Keeps.

Lemma keeps_makeRootFiber (I : World → Prop) fuel nd :
  (∀ w h, I w → I (set_fibers h w)) → (∀ w n, I w → I (set_nodes n w)) →
  (∀ w l, I w → I (set_fibersInError (fibersInError w ∖ {[l]}) w)) →
  mtriple I (makeRootFiber fuel nd) (λ _, I).
Proof.
  intros HF HN HD.
  assert (∀ l, mtriple I (fibersInError_delete l) (λ _, I)) as Hdel.
  { intros l w [] w' Hw [= <-]. by apply HD. }
  assert (∀ l, mtriple I (fibersInError_has l) (λ _, I)) as Hhas.
  { by intros l w b w' Hw [= _ <-]. }
  unfold makeRootFiber, new_RootFiber, RootFiber_fields.
  repeat first
    [ apply keeps_ret | apply keeps_getFiber | apply keeps_getNode
    | apply keeps_getRoot | apply keeps_modFiber | apply keeps_modRoot
    | apply keeps_alloc | apply keeps_cancelFibers
    | apply keeps_Fiber_constructor | apply Hdel | apply Hhas | assumption
    | apply keeps_bind; [|intros ?]
    | match goal with
      | |- mtriple _ (match ?x with _ => _ end) _ => destruct x
      end ].
Qed.

Lemma same_env_refl w : same_env w w.
Proof. done. Qed.

(** X4: [cancelFibers], [cleanPatchableFiber] and [makeChildFiber] leave
    [fibersInError] and the DOM as they are; [makeRootFiber] never adds a
    fiber to [fibersInError] and leaves the DOM as it is. *)
Theorem bookkeeping_keeps_errors fuel w :
  (∀ rt fs k w', cancelFibers fuel rt fs w = Some (k, w') → same_env w w') ∧
  (∀ child rt u w',
     cleanPatchableFiber child rt w = Some (u, w') → same_env w w') ∧
  (∀ nd par f w', makeChildFiber fuel nd par w = Some (f, w') → same_env w w') ∧
  (∀ nd f w', makeRootFiber fuel nd w = Some (f, w') →
              fibersInError w' ⊆ fibersInError w ∧
              childNodes w' = childNodes w).
Proof.
  split; [|split; [|split]].
  - intros rt fs k w'.
    by apply (keeps_cancelFibers (same_env w)); [..|apply same_env_refl].
  - intros child rt u w'.
    by apply (keeps_cleanPatchableFiber (same_env w)); [..|apply same_env_refl].
  - intros nd par f w'.
    by apply (keeps_makeChildFiber (same_env w)); [..|apply same_env_refl].
  - intros nd f w'.
    apply (keeps_makeRootFiber
             (λ w', fibersInError w' ⊆ fibersInError w ∧
                    childNodes w' = childNodes w)); try done.
    intros w1 l [Hsub Hdom]. split; [|done]. simpl.
    intros x [Hx _]%elem_of_difference. by apply Hsub.
Qed.

Lemma makeRootFiber_recycle_errors fuel nd w n current c f w' :
  nodes w !! nd = Some n → ComponentNode.fiber n = Some current →
  fibers w !! current = Some c →
  makeRootFiber fuel nd w = Some (f, w') →
  fibersInError w'
  = if bool_decide (current ∈ fibersInError w)
    then fibersInError w ∖ {[current]} ∖ {[root c]}
    else fibersInError w.
Proof.
  intros Hn Hcur Hc. unfold makeRootFiber.
  intros (n' & wa & [Hn' ->]%getNode_Some_inv & H)%bind_Some_inv.
  rewrite Hn in Hn'. injection Hn' as <-. rewrite Hcur in H.
  apply bind_Some_inv in H as (c' & wa & [Hc' ->]%getFiber_Some_inv & H).
  rewrite Hc in Hc'. injection Hc' as <-.
  apply bind_Some_inv in H as (r & wa & (fr & _ & _ & ->)%getRoot_Some_inv & H).
  apply bind_Some_inv in H as (k & w1 & H1 & H).
  apply bind_Some_inv in H as (u2 & w2 & H2 & H).
  apply bind_Some_inv in H as (u3 & w3 & H3 & H).
  apply bind_Some_inv in H as (u4 & w4 & H4 & H).
  apply bind_Some_inv in H as (u5 & w5 & H5 & H).
  set (I := λ w', fibersInError w' = fibersInError w).
  assert (I w5) as Herr.
  { eapply (keeps_modFiber I); [done| |exact H5].
    eapply (keeps_modRoot I); [done| |exact H4].
    eapply (keeps_modFiber I); [done| |exact H3].
    eapply (keeps_modRoot I); [done| |exact H2].
    by eapply (keeps_cancelFibers I); [..|exact H1]. }
  unfold I in Herr.
  apply bind_Some_inv in H as (b & w6 & Hb & H).
  injection Hb as <- <-. rewrite Herr in H.
  destruct (bool_decide (current ∈ fibersInError w)).
  - apply bind_Some_inv in H as (u7 & w7 & H7 & H). injection H as _ <-.
    apply bind_Some_inv in H7 as (u8 & w8 & H8 & H7). injection H8 as _ <-.
    apply bind_Some_inv in H7 as (u9 & w9 & H9 & H7). injection H9 as _ <-.
    apply modFiber_Some_inv in H7 as (f7 & _ & ->). simpl. by rewrite Herr.
  - apply bind_Some_inv in H as (u7 & w7 & H7 & H). injection H as _ <-.
    by injection H7 as _ <-.
Qed.

(** X5: [makeRootFiber] for a node that has a fiber: when the fiber is
    in [fibersInError], the fiber and its root are taken out of the set
    and [appliedToDom] of the fiber is reset; when it is not, the set and
    [appliedToDom] are as before. *)
Theorem makeRootFiber_clears_error fuel nd w n current c fr r visited :
  nodes w !! nd = Some n → ComponentNode.fiber n = Some current →
  fibers w !! current = Some c →
  fibers w !! root c = Some fr → rootPart fr = Some r →
  subtree fuel (fibers w) (children c) = Some visited →
  nodes_present w visited →
  ∃ w',
    makeRootFiber fuel nd w = Some (current, w') ∧
    (current ∈ fibersInError w →
       fibersInError w' = fibersInError w ∖ {[current]} ∖ {[root c]} ∧
       appliedToDom <$> fibers w' !! current = Some false) ∧
    (current ∉ fibersInError w →
       fibersInError w' = fibersInError w ∧
       appliedToDom <$> fibers w' !! current = Some (appliedToDom c)).
Proof.
  intros Hn Hcur Hc Hfr Hr Hs Hnp.
  destruct (makeRootFiber_recycle fuel nd w n current c fr r visited)
    as (w' & Hrun & _ & _ & Hcur' & _); try done.
  pose proof (makeRootFiber_recycle_errors fuel nd w n current c current w'
                Hn Hcur Hc Hrun) as Herr.
  exists w'. split; [done|]. rewrite Herr, Hcur'. simpl.
  split; intros Hin.
  - by rewrite !bool_decide_eq_true_2.
  - by rewrite !bool_decide_eq_false_2.
Qed.

Lemma modulo_root_is_Some w0 w x :
  modulo_root w0 w → is_Some (fibers w0 !! x) ↔ is_Some (fibers w !! x).
Proof.
  intros (F & _). specialize (F x).
  rewrite <- (fmap_is_Some (set_root 0) (fibers w0 !! x)).
  rewrite <- (fmap_is_Some (set_root 0) (fibers w !! x)). by rewrite F.
Qed.

Lemma recycle_dom w w1 w' current rt :
  modulo_root w w1 →
  (∀ x, x ≠ current → x ≠ rt → fibers w' !! x = fibers w1 !! x) →
  is_Some (fibers w !! current) → is_Some (fibers w' !! current) →
  is_Some (fibers w !! rt) → is_Some (fibers w' !! rt) →
  dom (fibers w') = dom (fibers w).
Proof.
  intros Hw Hother Hc Hc' Hr Hr'. apply set_eq. intros x.
  rewrite !elem_of_dom.
  destruct (decide (x = current)) as [->|Hxc]; [done|].
  destruct (decide (x = rt)) as [->|Hxr]; [done|].
  rewrite Hother by done. symmetry. by apply modulo_root_is_Some.
Qed.

Lemma modulo_root_rootPart w0 w x :
  modulo_root w0 w → fibers w0 !! x ≫= rootPart = fibers w !! x ≫= rootPart.
Proof.
  intros (F & _). specialize (F x).
  destruct (fibers w0 !! x) as [o0|], (fibers w !! x) as [o|]; try done.
  simpl in *. assert (set_root 0 o0 = set_root 0 o) as F' by congruence.
  by apply set_root_0_fields in F' as (_ & _ & _ & _ & _ & ->).
Qed.

Lemma modulo_root_fields w0 w x :
  modulo_root w0 w →
  children <$> fibers w0 !! x = children <$> fibers w !! x ∧
  parent <$> fibers w0 !! x = parent <$> fibers w !! x ∧
  appliedToDom <$> fibers w0 !! x = appliedToDom <$> fibers w !! x.
Proof.
  intros (F & _). specialize (F x).
  destruct (fibers w0 !! x) as [o0|], (fibers w !! x) as [o|]; try done.
  simpl in *. assert (set_root 0 o0 = set_root 0 o) as F' by congruence.
  apply set_root_0_fields in F' as (_ & _ & Hp & Hc & Ha & _).
  by rewrite Hp, Hc, Ha.
Qed.

(** X6: [makeChildFiber] for a node that has a fiber: when the fiber is
    already in the rendering of the parent's root, its first occurrence is
    taken out of the [willPatch] and the [patched] queue of that root;
    when it comes from another rendering, the queues of the parent's root
    and the root it comes from are as before.  The [mounted] queue and the
    lock of the parent's root are as before in both cases. *)
Theorem makeChildFiber_unqueues fuel nd par w n current p c fr r visited :
  nodes w !! nd = Some n → ComponentNode.fiber n = Some current →
  fibers w !! par = Some p → fibers w !! current = Some c →
  fibers w !! root p = Some fr → rootPart fr = Some r →
  subtree fuel (fibers w) (children c) = Some visited →
  nodes_present w visited →
  ∃ w' r',
    makeChildFiber fuel nd par w = Some (current, w') ∧
    fibers w' !! root p ≫= rootPart = Some r' ∧
    mounted r' = mounted r ∧ locked r' = locked r ∧
    (root c = root p →
       first_removed current (willPatch r) (willPatch r') ∧
       first_removed current (patched r) (patched r')) ∧
    (root c ≠ root p →
       willPatch r' = willPatch r ∧ patched r' = patched r ∧
       fibers w' !! root c ≫= rootPart = fibers w !! root c ≫= rootPart).
Proof.
  intros Hn Hcur Hp Hc Hfr Hr Hs Hnp.
  destruct (makeChildFiber_recycle fuel nd par w n current p c fr r visited)
    as (w' & Hrun & Hnodes & Hother & Hcur' & Hrt'); try done.
  pose proof (cancel_fold_modulo_root (root p) visited w) as Hw1.
  destruct (modulo_root_lookup _ _ _ _ Hw1 Hfr) as (fr1 & Hfr1 & _).
  eexists w', _. split; [done|]. split.
  { destruct (decide (current = root p)) as [Heq|Hne].
    - rewrite <- Heq, Hcur'. done.
    - rewrite (Hrt' fr1 Hfr1 Hne). done. }
  case_bool_decide as Hsame; simpl.
  - repeat split; try done; try apply without_first_removed.
  - repeat split; try done.
    destruct (decide (root c = current)) as [Heq|Hne].
    + rewrite Heq, Hcur', Hc. simpl. rewrite decide_False; [done|congruence].
    + rewrite Hother by done. symmetry. by apply modulo_root_rootPart.
Qed.

Lemma makeChildFiber_unqueues_witness :
  ∃ w' r',
    makeChildFiber 1 12 1 (commit_batch []) = Some (2, w') ∧
    fibers w' !! 1 ≫= rootPart = Some r' ∧
    mounted r' = [2; 3] ∧
    first_removed 2 [1; 2; 3] (willPatch r') ∧
    first_removed 2 [1; 2; 3] (patched r').
Proof.
  destruct (makeChildFiber_unqueues 1 12 1 (commit_batch [])
              (hooked_node (Some 2) (Some 5) MOUNTED [] [121] [122]) 2
              (commit_root false)
              (mkFiber 12 (Some 8) 1 (Some 1) [] true None)
              (commit_root false)
              (mkRootPart 0 [1; 2; 3] [1; 2; 3] [2; 3] false None) [])
    as (w' & r' & Hrun & Hroot & Hm & _ & Hsame & _); try reflexivity.
  { intros f o Hf. by apply elem_of_nil in Hf. }
  destruct (Hsame eq_refl) as [Hw Hp].
  by exists w', r'.
Defined.

(** X7: [makeChildFiber] for a node that has a fiber creates no fiber
    and, unlike the constructor, does not add the fiber to the children of
    the parent: every other fiber has the children it had.  The recycled
    fiber has the new parent and no children, and keeps
    [appliedToDom]. *)
Theorem makeChildFiber_recycle_keeps_children
    fuel nd par w n current p c fr r visited :
  nodes w !! nd = Some n → ComponentNode.fiber n = Some current →
  fibers w !! par = Some p → fibers w !! current = Some c →
  fibers w !! root p = Some fr → rootPart fr = Some r →
  subtree fuel (fibers w) (children c) = Some visited →
  nodes_present w visited →
  ∃ w' c',
    makeChildFiber fuel nd par w = Some (current, w') ∧
    dom (fibers w') = dom (fibers w) ∧
    (∀ x, x ≠ current →
          children <$> fibers w' !! x = children <$> fibers w !! x) ∧
    fibers w' !! current = Some c' ∧
    parent c' = Some par ∧ children c' = [] ∧
    appliedToDom c' = appliedToDom c.
Proof.
  intros Hn Hcur Hp Hc Hfr Hr Hs Hnp.
  destruct (makeChildFiber_recycle fuel nd par w n current p c fr r visited)
    as (w' & Hrun & Hnodes & Hother & Hcur' & Hrt'); try done.
  pose proof (cancel_fold_modulo_root (root p) visited w) as Hw1.
  destruct (modulo_root_lookup _ _ _ _ Hw1 Hfr) as (fr1 & Hfr1 & Hfreq).
  eexists w', _. split; [done|]. split; [|split; [|split; [exact Hcur'|done]]].
  - eapply (recycle_dom _ _ _ current (root p)); eauto.
    destruct (decide (current = root p)) as [<-|Hne]; [eauto|].
    rewrite (Hrt' fr1 Hfr1 Hne). eauto.
  - intros x Hx. destruct (modulo_root_fields _ _ x Hw1) as (-> & _).
    destruct (decide (x = root p)) as [->|Hxr].
    + rewrite (Hrt' fr1 Hfr1) by done. by rewrite Hfr1.
    + by rewrite Hother.
Qed.

Lemma makeChildFiber_recycle_keeps_children_witness :
  ∃ w' c',
    makeChildFiber 1 12 1 (commit_batch []) = Some (2, w') ∧
    children <$> fibers w' !! 1 = Some [2; 3] ∧
    fibers w' !! 2 = Some c' ∧ parent c' = Some 1 ∧ appliedToDom c' = true.
Proof.
  destruct (makeChildFiber_recycle_keeps_children 1 12 1 (commit_batch [])
              (hooked_node (Some 2) (Some 5) MOUNTED [] [121] [122]) 2
              (commit_root false)
              (mkFiber 12 (Some 8) 1 (Some 1) [] true None)
              (commit_root false)
              (mkRootPart 0 [1; 2; 3] [1; 2; 3] [2; 3] false None) [])
    as (w' & c' & Hrun & _ & Hch & Hc' & Hpar & _ & Happ); try reflexivity.
  { intros f o Hf. by apply elem_of_nil in Hf. }
  exists w', c'. split; [done|]. split; [|done].
  by rewrite Hch.
Defined.

(** X8: [makeRootFiber] for a node that has a fiber creates no fiber and
    keeps the three hook queues, the lock and the mount data of the
    fiber's root; the fiber keeps its parent and its root. *)
Theorem makeRootFiber_recycle_keeps_queues fuel nd w n current c fr r visited :
  nodes w !! nd = Some n → ComponentNode.fiber n = Some current →
  fibers w !! current = Some c →
  fibers w !! root c = Some fr → rootPart fr = Some r →
  subtree fuel (fibers w) (children c) = Some visited →
  nodes_present w visited →
  ∃ w' r' c',
    makeRootFiber fuel nd w = Some (current, w') ∧
    dom (fibers w') = dom (fibers w) ∧
    fibers w' !! root c ≫= rootPart = Some r' ∧
    willPatch r' = willPatch r ∧ patched r' = patched r ∧
    mounted r' = mounted r ∧ locked r' = locked r ∧
    mountPart r' = mountPart r ∧
    fibers w' !! current = Some c' ∧
    parent c' = parent c ∧ root c' = root c.
Proof.
  intros Hn Hcur Hc Hfr Hr Hs Hnp.
  destruct (makeRootFiber_recycle fuel nd w n current c fr r visited)
    as (w' & Hrun & Hnodes & Hother & Hcur' & Hrt'); try done.
  pose proof (cancel_fold_modulo_root (root c) visited w) as Hw1.
  destruct (modulo_root_lookup _ _ _ _ Hw1 Hfr) as (fr1 & Hfr1 & Hfreq).
  eexists w', _, _. split; [done|]. split; [|split].
  - eapply (recycle_dom _ _ _ current (root c)); eauto.
    destruct (decide (current = root c)) as [<-|Hne]; [eauto|].
    rewrite (Hrt' fr1 Hfr1 Hne). eauto.
  - destruct (decide (current = root c)) as [Heq|Hne].
    + rewrite <- Heq, Hcur'. done.
    + rewrite (Hrt' fr1 Hfr1 Hne). done.
  - done.
Qed.

Lemma makeRootFiber_recycle_keeps_queues_witness :
  ∃ w' r',
    makeRootFiber 1 11 (commit_batch []) = Some (1, w') ∧
    fibers w' !! 1 ≫= rootPart = Some r' ∧
    willPatch r' = [1; 2; 3] ∧ patched r' = [1; 2; 3] ∧ mounted r' = [2; 3].
Proof.
  destruct (makeRootFiber_recycle_keeps_queues 1 11 (commit_batch [])
              (hooked_node (Some 1) (Some 5) MOUNTED [110] [111; 112] [113]) 1
              (commit_root false) (commit_root false)
              (mkRootPart 0 [1; 2; 3] [1; 2; 3] [2; 3] false None) [2; 3])
    as (w' & r' & c' & Hrun & _ & Hroot & Hw & Hp & Hm & _); try reflexivity.
  { apply nodes_present_Forall. repeat constructor; vm_compute; eauto. }
  by exists w', r'.
Defined.

(** X9: [makeRootFiber] for a node without fiber creates a root fiber
    that is its own root, without parent, children or output, with the
    counter [1], unlocked; it is queued for [willPatch] exactly when the
    node has a [willPatch] hook, for [patched] exactly when the node has a
    [patched] hook, and never for [mounted].  No other fiber and no node
    is written: the node is not given the fiber. *)
Theorem makeRootFiber_fresh_registers fuel nd w n :
  nodes w !! nd = Some n → ComponentNode.fiber n = None →
  ∃ this w' r,
    makeRootFiber fuel nd w = Some (this, w') ∧
    fibers w !! this = None ∧
    (∀ x, x ≠ this → fibers w' !! x = fibers w !! x) ∧
    nodes w' = nodes w ∧
    fibers w' !! this = Some (mkFiber nd None this None [] false (Some r)) ∧
    counter r = 1%Z ∧ locked r = false ∧ mountPart r = None ∧
    mounted r = [] ∧
    willPatch r = (if decide (ComponentNode.willPatch n = []) then [] else [this]) ∧
    patched r = (if decide (ComponentNode.patched n = []) then [] else [this]).
Proof.
  intros Hn Hnone. pose proof (makeRootFiber_fresh fuel nd w n Hn Hnone) as Hrun.
  simpl in Hrun. eexists _, _, _. split; [exact Hrun|]. simpl.
  split; [apply alloc_fresh|]. split.
  { intros x Hx. by rewrite lookup_insert_ne. }
  split; [done|]. split; [by rewrite lookup_insert_eq|]. simpl.
  clear Hrun. repeat split; case_bool_decide; by case_decide.
Qed.

Lemma makeRootFiber_fresh_registers_witness :
  ∃ this w' r,
    makeRootFiber 0 11 hooked_lone = Some (this, w') ∧
    fibers w' !! this = Some (mkFiber 11 None this None [] false (Some r)) ∧
    willPatch r = [this] ∧ patched r = [] ∧ mounted r = [].
Proof.
  destruct (makeRootFiber_fresh_registers 0 11 hooked_lone
              (hooked_node None None NEW [110] [] [113]))
    as (this & w' & r & Hrun & _ & _ & _ & Hthis & _ & _ & _ & Hm & Hw & Hp);
    try reflexivity.
  by exists this, w', r.
Defined.

(** X10: [makeChildFiber] does not attach the fiber it creates to the
    node.  Called twice for a node without fiber it creates two different
    fibers, both are children of the parent, and the counter of the root
    has grown by two. *)
Theorem makeChildFiber_twice_unattached fuel fuel' nd par w n p fr r :
  nodes w !! nd = Some n → ComponentNode.fiber n = None →
  fibers w !! par = Some p →
  fibers w !! root p = Some fr → rootPart fr = Some r →
  ∃ a b w1 w2,
    makeChildFiber fuel nd par w = Some (a, w1) ∧
    makeChildFiber fuel' nd par w1 = Some (b, w2) ∧
    a ≠ b ∧ fibers w !! a = None ∧ fibers w !! b = None ∧
    children <$> fibers w2 !! par = Some (children p ++ [a; b]) ∧
    counter_of w2 (root p) = Some (counter r + 2)%Z.
Proof.
  intros Hn Hnone Hp Hfr Hr.
  destruct (makeChildFiber_fresh fuel nd par w n p fr r)
    as (w1 & Hrun1 & Hnodes1 & Ha & Hother1); try done.
  set (a := fresh (dom (fibers w))) in *.
  assert (fibers w !! a = None) as Hfresh by apply alloc_fresh.
  assert (par ≠ a) as Hpa by congruence.
  assert (root p ≠ a) as Hra by congruence.
  pose proof (Hother1 par Hpa) as Hp1. rewrite Hp in Hp1. simpl in Hp1.
  rewrite decide_True in Hp1 by done.
  pose proof (Hother1 (root p) Hra) as Hfr1. rewrite Hfr in Hfr1. simpl in Hfr1.
  rewrite (decide_True (P := root p = root p)) in Hfr1 by done.
  destruct (makeChildFiber_fresh fuel' nd par w1 n _ _ (set_counter (counter r + 1) r)
              ltac:(by rewrite Hnodes1) Hnone Hp1 Hfr1 eq_refl)
    as (w2 & Hrun2 & Hnodes2 & Hb & Hother2).
  set (b := fresh (dom (fibers w1))) in *.
  assert (fibers w1 !! b = None) as Hfresh1 by apply alloc_fresh.
  assert (a ≠ b) as Hab by congruence.
  assert (par ≠ b) as Hpb by congruence.
  assert (root p ≠ b) as Hrb by congruence.
  exists a, b, w1, w2. split; [done|]. split; [done|]. split; [done|].
  split; [done|]. split.
  { destruct (decide (b = a)) as [Hba|Hba]; [congruence|].
    rewrite Hother1 in Hfresh1 by done.
    by destruct (fibers w !! b). }
  split.
  - rewrite (Hother2 par Hpb), Hp1. simpl. rewrite decide_True by done.
    by rewrite <- app_assoc.
  - unfold counter_of. rewrite (Hother2 (root p) Hrb), Hfr1. simpl.
    rewrite decide_True by done. simpl. f_equal. lia.
Qed.

Lemma makeChildFiber_twice_unattached_witness :
  ∃ a b w1 w2,
    makeChildFiber 0 15 1 batch1 = Some (a, w1) ∧
    makeChildFiber 0 15 1 w1 = Some (b, w2) ∧
    a ≠ b ∧
    children <$> fibers w2 !! 1 = Some [2; 3; a; b] ∧
    counter_of w2 1 = Some 5%Z.
Proof.
  destruct (makeChildFiber_twice_unattached 0 0 15 1 batch1 (sample_node None [])
              (mkFiber 11 None 1 None [2; 3] false
                 (Some (mkRootPart 3 [] [] [] false None)))
              (mkFiber 11 None 1 None [2; 3] false
                 (Some (mkRootPart 3 [] [] [] false None)))
              (mkRootPart 3 [] [] [] false None))
    as (a & b & w1 & w2 & Hrun1 & Hrun2 & Hab & _ & _ & Hch & Hcount);
    try reflexivity.
  by exists a, b, w1, w2.
Defined.

(** X11: a render that starts again.  After [makeRootFiber] has recycled
    the fiber of a node, [makeChildFiber] for the node of a fiber that was
    below it creates a new fiber, since the cancelled fiber was taken off
    its node; the new fiber is the only child of the recycled one, and
    the counter of the root is the old one, less the cancelled fibers
    that had no output, plus two. *)
Theorem rerender_replaces_cancelled
    fuel fuel' nd w n current c fr r visited f o :
  nodes w !! nd = Some n → ComponentNode.fiber n = Some current →
  fibers w !! current = Some c →
  fibers w !! root c = Some fr → rootPart fr = Some r →
  subtree fuel (fibers w) (children c) = Some visited →
  nodes_present w visited →
  f ∈ visited → fibers w !! f = Some o →
  ∃ w1 this w2,
    makeRootFiber fuel nd w = Some (current, w1) ∧
    makeChildFiber fuel' (node o) current w1 = Some (this, w2) ∧
    fibers w !! this = None ∧ this ≠ f ∧
    fibers w2 !! this
    = Some (mkFiber (node o) None (root c) (Some current) [] false None) ∧
    children <$> fibers w2 !! current = Some [this] ∧
    counter_of w2 (root c)
    = Some (counter r - pending (fibers w) visited + 2)%Z.
Proof.
  intros Hn Hcur Hc Hfr Hr Hs Hnp Hf Ho.
  destruct (makeRootFiber_recycle fuel nd w n current c fr r visited)
    as (w1 & Hrun1 & Hnodes1 & Hother1 & Hcur1 & Hrt1); try done.
  pose proof (cancel_fold_modulo_root (root c) visited w) as Hw1.
  pose proof (subtree_present _ _ _ _ Hs) as Hpres.
  destruct (modulo_root_lookup _ _ _ _ Hw1 Hfr) as (fr1 & Hfr1 & Hfreq).
  set (r' := set_counter (counter r - pending (fibers w) visited + 1)%Z r) in *.
  (* the node of the cancelled fiber has no fiber *)
  destruct (Hnp f o Hf Ho) as [cn Hcn].
  assert (nodes w1 !! node o = Some (set_node_fiber None cn)) as Hnode1.
  { rewrite Hnodes1, cancel_fold_nodes by done.
    rewrite decide_True, Hcn; [done|].
    apply list_elem_of_omap. exists f. by rewrite Ho. }
  (* the root of [current] after the first call *)
  assert (∃ fr', fibers w1 !! root c = Some fr' ∧ rootPart fr' = Some r')
    as (fr' & Hfr' & Hr').
  { destruct (decide (current = root c)) as [Heq|Hne].
    - eexists. rewrite <- Heq. split; [exact Hcur1|done].
    - eexists. split; [exact (Hrt1 fr1 Hfr1 Hne)|done]. }
  assert (dom (fibers w1) = dom (fibers w)) as Hdom.
  { eapply (recycle_dom _ _ _ current (root c)); eauto. }
  destruct (makeChildFiber_fresh fuel' (node o) current w1 _ _ fr' r'
              Hnode1 eq_refl Hcur1 Hfr' Hr')
    as (w2 & Hrun2 & Hnodes2 & Hthis & Hother2).
  set (this := fresh (dom (fibers w1))) in *.
  assert (fibers w !! this = None) as Hfresh.
  { apply not_elem_of_dom. rewrite <- Hdom. apply is_fresh. }
  assert (current ≠ this) as Hct by congruence.
  assert (root c ≠ this) as Hrt by congruence.
  exists w1, this, w2. split; [done|]. split; [done|]. split; [done|].
  split; [congruence|]. split; [done|]. split.
  - rewrite (Hother2 current Hct), Hcur1. simpl. by rewrite decide_True.
  - unfold counter_of. rewrite (Hother2 (root c) Hrt), Hfr'. simpl.
    rewrite decide_True by done. simpl. f_equal. lia.
Qed.

Lemma rerender_replaces_cancelled_witness :
  ∃ w1 this w2,
    makeRootFiber 2 11 batch1 = Some (1, w1) ∧
    makeChildFiber 0 13 1 w1 = Some (this, w2) ∧
    this ≠ 3 ∧
    children <$> fibers w2 !! 1 = Some [this] ∧
    counter_of w2 1 = Some 3%Z.
Proof.
  destruct (rerender_replaces_cancelled 2 0 11 batch1 (sample_node (Some 1) []) 1
              (mkFiber 11 None 1 None [2; 3] false
                 (Some (mkRootPart 3 [] [] [] false None)))
              (mkFiber 11 None 1 None [2; 3] false
                 (Some (mkRootPart 3 [] [] [] false None)))
              (mkRootPart 3 [] [] [] false None) [2; 3; 4] 3
              (mkFiber 13 None 1 (Some 1) [4] false None))
    as (w1 & this & w2 & Hrun1 & Hrun2 & _ & Hne & _ & Hch & Hcount);
    try reflexivity.
  { apply nodes_present_Forall. repeat constructor; vm_compute; eauto. }
  { set_solver. }
  by exists w1, this, w2.
Defined.

Lemma makeRootFiber_clears_error_witness :
  ∃ w',
    makeRootFiber 0 11 errored_root = Some (0, w') ∧
    fibersInError w' = fibersInError errored_root ∖ {[0]} ∖ {[0]} ∧
    appliedToDom <$> fibers w' !! 0 = Some false.
Proof.
  destruct (makeRootFiber_clears_error 0 11 errored_root
              (sample_node (Some 0) []) 0
              (mkFiber 11 (Some 7) 0 None [] true
                 (Some (mkRootPart 0 [] [] [] false None)))
              (mkFiber 11 (Some 7) 0 None [] true
                 (Some (mkRootPart 0 [] [] [] false None)))
              (mkRootPart 0 [] [] [] false None) [])
    as (w' & Hrun & Hin & _); try reflexivity.
  { intros f o Hf. by apply elem_of_nil in Hf. }
  exists w'. split; [done|]. apply Hin.
  apply (bool_decide_unpack _). vm_compute. exact I.
Defined.

Local Close Scope store_scope.

(** ** The phases of a commit *)

Local Open Scope cmd_scope.

Lemma after_log tr0 (T T' : list Event → Prop) ev w s :
  (∀ evs, T evs → T' (evs ++ [ev])) →
  after tr0 T s → after tr0 T' (set_world w (log ev s)).
Proof.
  intros HT (evs & Htr & Hevs). exists (evs ++ [ev]). split; [|by apply HT].
  simpl. by rewrite Htr, app_assoc.
Qed.

Lemma after_stable tr0 T s w c :
  after tr0 T s → after tr0 T (set_current c (set_world w s)).
Proof. intros (evs & Htr & Hevs). by exists evs. Qed.

Lemma after_mono tr0 (T T' : list Event → Prop) s :
  (∀ evs, T evs → T' evs) → after tr0 T s → after tr0 T' s.
Proof. intros HT (evs & Htr & Hevs). exists evs. auto. Qed.

Section Phases.
Context (E : Collaborators) (tr0 : list Event).

Lemma triple_lift_after {A} T (m : M A) QE :
  triple (after tr0 T) (lift m) (λ _, after tr0 T) QE.
Proof.
  apply triple_lift_keep. intros s w Hs.
  apply (after_stable _ _ s w (current s)) in Hs. by destruct s.
Qed.

Lemma triple_callHooks_after (T TE : list Event → Prop) fuel h f nd rc :
  (∀ evs cb, T evs → T (evs ++ [EvCall h f cb])) →
  (∀ evs, T evs → TE evs) →
  triple (after tr0 T) (callHooks E fuel h f nd rc)
    (λ _, after tr0 T) (λ _, after tr0 TE).
Proof.
  intros Hstep HTE. apply triple_for_of. intros cb. apply triple_external.
  - intros s w Hs _. eapply after_log; [|exact Hs]. intros evs. apply Hstep.
  - intros s e w Hs _. eapply after_log; [|exact Hs]. intros evs Hevs.
    by apply HTE, Hstep.
Qed.

Lemma triple_willPatch_step_after (T TE : list Event → Prop) fuel cur :
  (∀ evs f cb, T evs → T (evs ++ [EvCall onWillPatch f cb])) →
  (∀ evs, T evs → TE evs) →
  triple (after tr0 T) (willPatch_step E fuel cur)
    (λ _, after tr0 T) (λ _, after tr0 TE).
Proof.
  intros Hstep HTE. unfold willPatch_step.
  apply (triple_cbind _ _ _ (λ _, after tr0 T)).
  { apply triple_assign_current. intros s Hs.
    apply (after_stable _ _ s (world s) (Some cur)) in Hs. by destruct s. }
  intros _. apply (triple_cbind _ _ _ (λ _, after tr0 T));
    [apply triple_lift_after|].
  intros fc. apply (triple_cbind _ _ _ (λ _, after tr0 T));
    [apply triple_lift_after|].
  intros n. case_bool_decide.
  - apply triple_callHooks_after; [|done]. intros evs cb. apply Hstep.
  - by intros s Hs.
Qed.

Lemma triple_drain_after (T TE : list Event → Prop) fuel this get set h :
  (∀ evs f cb, T evs → T (evs ++ [EvCall h f cb])) →
  (∀ evs, T evs → TE evs) →
  triple (after tr0 T) (while_pop fuel this get set (drain_step E fuel h))
    (λ _, after tr0 T) (λ _, after tr0 TE).
Proof.
  intros Hstep HTE. apply triple_while_pop.
  - intros s w c. apply after_stable.
  - intros x. unfold drain_step.
    apply (triple_cbind _ _ _ (λ _, after tr0 T)).
    { apply triple_lift. intros s a w [Hs _] _.
      apply (after_stable _ _ s w (current s)) in Hs. by destruct s. }
    intros fc. destruct (appliedToDom fc).
    + apply triple_callHooks_after; [|done]. intros evs cb. apply Hstep.
    + by intros s Hs.
Qed.

Lemma calls_only_snoc h evs f cb :
  calls_only h evs → calls_only h (evs ++ [EvCall h f cb]).
Proof.
  intros H. apply Forall_app. split; [done|]. constructor; [|constructor].
  by exists f, cb.
Qed.

Lemma calls_only_commit_phases evs :
  calls_only onWillPatch evs → commit_phases evs.
Proof.
  intros H. exists evs, [], [], []. simpl. rewrite app_nil_r.
  split; [done|]. split; [done|]. split; [by left|].
  split; [constructor|]. split; [constructor|done].
Qed.

Lemma patched_through_commit_phases evs :
  patched_through evs → commit_phases evs.
Proof.
  intros (wp & p & mt & pd & -> & Hwp & Hp & Hmt & Hpd).
  exists wp, [p], mt, pd. split; [done|]. split; [done|].
  split; [right; by exists p|]. split; [done|]. split; [done|]. done.
Qed.

Lemma patched_through_snoc_patched evs f cb :
  patched_through evs → patched_through (evs ++ [EvCall onPatched f cb]).
Proof.
  intros (wp & p & mt & pd & -> & Hwp & Hp & Hmt & Hpd).
  exists wp, p, mt, (pd ++ [EvCall onPatched f cb]).
  split; [by rewrite <- !app_assoc|]. split; [done|]. split; [done|].
  split; [done|]. by apply calls_only_snoc.
Qed.

Lemma mounting_snoc evs f cb :
  mounting evs → mounting (evs ++ [EvCall onMounted f cb]).
Proof.
  intros (wp & p & mt & -> & Hwp & Hp & Hmt).
  exists wp, p, (mt ++ [EvCall onMounted f cb]).
  split; [by rewrite <- !app_assoc|]. split; [done|]. split; [done|].
  by apply calls_only_snoc.
Qed.

Lemma mounting_patched_through evs : mounting evs → patched_through evs.
Proof.
  intros (wp & p & mt & -> & Hwp & Hp & Hmt).
  exists wp, p, mt, []. rewrite app_nil_r.
  split; [done|]. split; [done|]. split; [done|]. split; [done|constructor].
Qed.

Lemma triple_patchDom_after this nd :
  triple (after tr0 (calls_only onWillPatch)) (patchDom E this nd)
    (λ _, after tr0 mounting) (λ _, after tr0 commit_phases).
Proof.
  unfold patchDom.
  apply (triple_cbind _ _ _ (λ _, after tr0 (calls_only onWillPatch)));
    [apply triple_lift_after|].
  intros n. apply (triple_cbind _ _ _ (λ _, after tr0 (calls_only onWillPatch)));
    [apply triple_lift_after|].
  intros t. apply (triple_cbind _ _ _ (λ _, after tr0 mounting)).
  { assert (∀ p, is_patch p → ∀ evs, calls_only onWillPatch evs →
                 mounting (evs ++ [p])) as Hm.
    { intros p Hp evs Hevs. exists evs, p, [].
      split; [done|]. split; [done|]. split; [done|constructor]. }
    destruct (ComponentNode.bdom n) as [old|].
    - apply triple_external.
      + intros s w Hs _. eapply after_log; [|exact Hs]. apply Hm.
        by eexists _, _, _.
      + intros s e w Hs _. eapply after_log; [|exact Hs]. intros evs Hevs.
        apply patched_through_commit_phases, mounting_patched_through, Hm;
          [|done].
        by eexists _, _, _.
    - apply triple_throw. intros s Hs. eapply after_mono; [|exact Hs].
      apply calls_only_commit_phases. }
  intros _. apply (triple_cbind _ _ _ (λ _, after tr0 mounting));
    [apply triple_lift_after|].
  intros _. apply (triple_cbind _ _ _ (λ _, after tr0 mounting));
    [apply triple_lift_after|].
  intros _. apply triple_lift_after.
Qed.

Lemma triple_RootFiber_try_phases fuel this nd :
  triple (after tr0 (calls_only onWillPatch)) (RootFiber_try E fuel this nd)
    (λ _, after tr0 patched_through) (λ _, after tr0 commit_phases).
Proof.
  unfold RootFiber_try.
  apply (triple_cbind _ _ _ (λ _, after tr0 (calls_only onWillPatch))).
  { unfold callWillPatch.
    apply (triple_cbind _ _ _ (λ _, after tr0 (calls_only onWillPatch))).
    - apply triple_for_of. intros cur. apply triple_willPatch_step_after.
      + intros evs f cb. apply calls_only_snoc.
      + apply calls_only_commit_phases.
    - intros _. apply triple_assign_current. intros s Hs.
      apply (after_stable _ _ s (world s) None) in Hs. by destruct s. }
  intros _. apply (triple_cbind _ _ _ (λ _, after tr0 mounting));
    [apply triple_patchDom_after|].
  intros _. apply (triple_cbind _ _ _ (λ _, after tr0 patched_through)).
  { eapply triple_conseq.
    - apply (triple_drain_after mounting commit_phases).
      + intros evs f cb. apply mounting_snoc.
      + intros evs Hevs.
        by apply patched_through_commit_phases, mounting_patched_through.
    - done.
    - intros a s. apply after_mono, mounting_patched_through.
    - done. }
  intros _. apply triple_drain_after.
  - intros evs f cb. apply patched_through_snoc_patched.
  - apply patched_through_commit_phases.
Qed.

End Phases.

(** X12: the calls of [RootFiber.complete()], whatever the hooks, the
    patch and the stores are: when it returns, it has made [willPatch]
    calls, then one patch, then [mounted] calls, then [patched] calls; or
    a prefix of such a sequence followed by one [handleError], which is
    the last call.  There is never a second patch, never a [willPatch]
    call after the patch, never a [mounted] call after a [patched] call,
    and never a mount. *)
Theorem RootFiber_complete_phases E fuel this s res :
  RootFiber_complete E fuel this s = Some res →
  ∃ s' evs,
    res = Normal tt s' ∧
    ((trace s' = trace s ++ evs ∧ patched_through evs) ∨
     (∃ f e, trace s' = trace s ++ evs ++ [EvHandleError f e] ∧
             commit_phases evs)).
Proof.
  unfold RootFiber_complete.
  intros (t & w0 & [_ ->]%getFiber_Some_inv & H)%cbind_lift_Some_inv.
  rewrite set_world_id in H.
  apply cbind_lift_Some_inv in H as ([] & w1 & _ & H).
  unfold cbind at 1 in H. unfold assign_current, try_catch in H.
  set (s1 := set_current None (set_world w1 s)) in *.
  pose proof (triple_RootFiber_try_phases E (trace s) fuel this (node t) s1)
    as Htry.
  destruct (RootFiber_try E fuel this (node t) s1) as [[[] s2|e s2]|]; [| |done].
  - injection H as <-. destruct Htry as (evs & Htr & Hevs).
    { exists []. split; [by rewrite app_nil_r|constructor]. }
    exists s2, evs. split; [done|]. by left.
  - destruct Htry as (evs & Htr & Hevs).
    { exists []. split; [by rewrite app_nil_r|constructor]. }
    unfold RootFiber_catch in H.
    apply cbind_lift_Some_inv in H as ([] & w3 & _ & H).
    unfold cbind, read_current in H. injection H as <-.
    eexists _, evs. split; [done|]. right. eexists _, _. split; [|done].
    simpl. by rewrite Htr, app_assoc.
Qed.

Lemma RootFiber_complete_phases_witness :
  ∃ s' evs,
    RootFiber_complete sample_collaborators 5 1 (start (commit_batch [99]))
    = Some (Normal tt s') ∧
    ((trace s' = evs ∧ patched_through evs) ∨
     (∃ f e, trace s' = evs ++ [EvHandleError f e] ∧ commit_phases evs)).
Proof.
  destruct (RootFiber_complete sample_collaborators 5 1
              (start (commit_batch [99]))) as [res|] eqn:Hrun;
    [|vm_compute in Hrun; discriminate].
  destruct (RootFiber_complete_phases _ _ _ _ _ Hrun) as (s' & evs & -> & H).
  by exists s', evs.
Defined.

Section MountPhases.
Context (E : Collaborators) (tr0 : list Event).

Lemma mount_phases_first p : is_mount p → mount_phases ([] ++ [p]).
Proof. intros Hp. exists p, []. split; [done|]. split; [done|constructor]. Qed.

Lemma mount_phases_snoc evs f cb :
  mount_phases evs → mount_phases (evs ++ [EvCall onMounted f cb]).
Proof.
  intros (p & mt & -> & Hp & Hmt). exists p, (mt ++ [EvCall onMounted f cb]).
  split; [done|]. split; [done|]. by apply calls_only_snoc.
Qed.

Lemma triple_mountDom_phases this nd :
  triple (after tr0 (λ evs, evs = [])) (mountDom E this nd)
    (λ _, after tr0 mount_phases) (λ _, after tr0 mount_phases).
Proof.
  assert (∀ p run, is_mount p →
            triple (after tr0 (λ evs, evs = [])) (external p run)
              (λ _, after tr0 mount_phases) (λ _, after tr0 mount_phases))
    as Hext.
  { intros p run Hp. apply triple_external.
    - intros s w Hs _. eapply after_log; [|exact Hs]. intros evs ->.
      by apply mount_phases_first.
    - intros s e w Hs _. eapply after_log; [|exact Hs]. intros evs ->.
      by apply mount_phases_first. }
  unfold mountDom.
  apply (triple_cbind _ _ _ (λ _, after tr0 (λ evs, evs = [])));
    [apply triple_lift_after|].
  intros n. destruct (ComponentNode.bdom n).
  { apply Hext. right. by eexists. }
  apply (triple_cbind _ _ _ (λ _, after tr0 (λ evs, evs = [])));
    [apply triple_lift_after|].
  intros t. apply (triple_cbind _ _ _ (λ _, after tr0 (λ evs, evs = [])));
    [apply triple_lift_after|].
  intros _. apply (triple_cbind _ _ _ (λ _, after tr0 (λ evs, evs = [])));
    [apply triple_lift_after|].
  intros r. destruct (mountPart r) as [m|]; [|done].
  apply (triple_cbind _ _ _ (λ _, after tr0 (λ evs, evs = [])));
    [apply triple_lift_after|].
  intros n'. destruct (position m).
  - intros s Hs. destruct (childNodes (world s) !! target m) as [[|k kids]|];
      [| |done]; (apply Hext; [|done]); left; by eexists _, _, _.
  - apply Hext. left. by eexists _, _, _.
Qed.

Lemma triple_MountFiber_try_phases fuel this :
  triple (after tr0 (λ evs, evs = [])) (MountFiber_try E fuel this)
    (λ _, after tr0 mount_phases) (λ _, after tr0 mount_phases).
Proof.
  unfold MountFiber_try.
  apply (triple_cbind _ _ _ (λ _, after tr0 (λ evs, evs = [])));
    [apply triple_lift_after|].
  intros t. apply (triple_cbind _ _ _ (λ _, after tr0 mount_phases));
    [apply triple_mountDom_phases|].
  intros _. apply (triple_cbind _ _ _ (λ _, after tr0 mount_phases)).
  { unfold markMounted.
    apply (triple_cbind _ _ _ (λ _, after tr0 mount_phases));
      [apply triple_lift_after|].
    intros _. apply (triple_cbind _ _ _ (λ _, after tr0 mount_phases));
      [apply triple_lift_after|].
    intros _. apply triple_lift_after. }
  intros _. apply triple_drain_after; [|done].
  intros evs f cb. apply mount_phases_snoc.
Qed.

End MountPhases.

(** X13: the calls of [MountFiber.complete()], whatever the
    collaborators and the stores are: when it returns, it has made one
    mount or DOM update, which comes first, then [mounted] calls only, and
    after a failure one [handleError] as the last call.  It never calls a
    [willPatch] or a [patched] hook and never patches. *)
Theorem MountFiber_complete_phases E fuel this s res :
  MountFiber_complete E fuel this s = Some res →
  ∃ s' evs,
    res = Normal tt s' ∧ mount_phases evs ∧
    (trace s' = trace s ++ evs ∨
     ∃ f e, trace s' = trace s ++ evs ++ [EvHandleError f e]).
Proof.
  unfold MountFiber_complete. unfold cbind at 1.
  unfold assign_current, try_catch.
  set (s1 := set_current (Some this) s).
  pose proof (triple_MountFiber_try_phases E (trace s) fuel this s1) as Htry.
  destruct (MountFiber_try E fuel this s1) as [[[] s2|e s2]|]; [| |done].
  - intros [= <-]. destruct Htry as (evs & Htr & Hevs).
    { exists []. split; [by rewrite app_nil_r|done]. }
    exists s2, evs. split; [done|]. split; [done|]. by left.
  - destruct Htry as (evs & Htr & Hevs).
    { exists []. split; [by rewrite app_nil_r|done]. }
    unfold MountFiber_catch, cbind, read_current.
    destruct (current s2) as [f|]; [|done]. intros [= <-].
    eexists _, evs. split; [done|]. split; [done|]. right. eexists _, _.
    simpl. by rewrite Htr, app_assoc.
Qed.

Lemma MountFiber_complete_phases_witness :
  ∃ s' evs,
    MountFiber_complete sample_collaborators 5 1
      (start (mount1 first_child None (Some 8) [70; 71] [122; 99]))
    = Some (Normal tt s') ∧
    mount_phases evs ∧
    (trace s' = evs ∨ ∃ f e, trace s' = evs ++ [EvHandleError f e]).
Proof.
  destruct (MountFiber_complete sample_collaborators 5 1
              (start (mount1 first_child None (Some 8) [70; 71] [122; 99])))
    as [res|] eqn:Hrun; [|vm_compute in Hrun; discriminate].
  destruct (MountFiber_complete_phases _ _ _ _ _ Hrun) as (s' & evs & -> & H).
  by exists s', evs.
Defined.

(** ** The stores after a commit *)

Section FinalState.
Context (E : Collaborators) (Hcall : hooks_return E).

Lemma RootFiber_complete_run_state this s t r n old fuel :
  patch_returns E →
  fibers (world s) !! this = Some t → rootPart t = Some r →
  nodes (world s) !! node t = Some n → ComponentNode.bdom n = Some old →
  queued_ok (world s) (willPatch r ++ mounted r ++ patched r) →
  commit_fuel (world s) (willPatch r ++ mounted r ++ patched r) ≤ fuel →
  ∃ s', RootFiber_complete E fuel this s = Some (Normal tt s') ∧
        fibers (world s') = <[this := committed t r]> (fibers (world s)) ∧
        nodes (world s')
        = <[node t := set_node_fiber None n]> (nodes (world s)) ∧
        current s' = None.
Proof.
  intros Hpatch Ht Hr Hn Hold Hq Hfuel.
  set (w3 := applied_world this t r n (world s)).
  set (qs := willPatch r ++ mounted r ++ patched r) in *.
  assert (length (willPatch r) < fuel ∧ length (mounted r) < fuel ∧
          length (patched r) < fuel) as (Hlw & Hlm & Hlp).
  { unfold commit_fuel, qs in Hfuel. rewrite !length_app in Hfuel. lia. }
  assert (∀ f, f ∈ qs → hooks_size (world s) f < fuel) as Hsize.
  { intros f Hf. destruct (commit_fuel_bound (world s) qs f Hf). lia. }
  apply Forall_app in Hq as [Hqw Hq]. apply Forall_app in Hq as [Hqm Hqp].
  unfold RootFiber_complete.
  unfold cbind at 1. rewrite (lift_getFiber _ _ _ Ht).
  unfold cbind at 1. rewrite (lift_modRoot _ _ _ _ _ Ht Hr).
  unfold cbind at 1. unfold assign_current. unfold try_catch.
  change (set_current None _) with (locked_frame this t r s).
  set (s1 := locked_frame this t r s).
  set (t1 := set_rootPart (Some (set_locked true r)) t).
  assert (fibers (world s1) = <[this := t1]> (fibers (world s))) as HF1 by done.
  assert (nodes (world s1) = nodes (world s)) as HN1 by done.
  assert (∀ f, node_of (world s1) f = node_of (world s) f) as Hnode1.
  { by apply (node_of_insert _ _ this t t1). }
  unfold RootFiber_try.
  destruct (callWillPatch_run E Hcall fuel this s1 t1 (set_locked true r))
    as (s2 & Hrun2 & HF2 & HN2 & Hc2 & Htr2); try done.
  { by rewrite HF1, lookup_insert_eq. }
  { eapply Forall_impl; [exact Hqw|]. intros f. simpl. by rewrite Hnode1. }
  { intros f Hf. unfold hooks_size. rewrite Hnode1. apply Hsize.
    apply elem_of_app. by left. }
  unfold cbind at 1. rewrite Hrun2.
  destruct (patchDom_run E this (node t) s2 t1 (set_locked true r) n old)
    as (s3 & Hrun3 & HF3 & HN3 & Hc3 & Htr3); try done.
  { by rewrite HF2, HF1, lookup_insert_eq. }
  { by rewrite HN2, HN1. }
  unfold cbind at 1. rewrite Hrun3.
  assert (fibers (world s3) = fibers w3) as HF3'.
  { rewrite HF3, HF2, HF1, insert_insert_eq. done. }
  assert (nodes (world s3) = nodes w3) as HN3'.
  { by rewrite HN3, HN2, HN1. }
  set (t3 := mkFiber (node t) (bdom t) (root t) (parent t) (children t) true
               (Some (set_locked false r))).
  assert (fibers w3 !! this = Some t3) as Ht3.
  { unfold w3, applied_world. simpl. by rewrite lookup_insert_eq. }
  destruct (drain_run E Hcall fuel onMounted this mounted set_mounted w3 t3
              (set_locked false r) s3 (mounted r))
    as (s4 & Hrun4 & HF4 & HN4 & Hc4 & Htr4); try done.
  { rewrite HF3'. symmetry. apply insert_id. by rewrite Ht3. }
  { by apply queued_ok_applied_world. }
  { intros f Hf. unfold w3. rewrite hooks_size_applied_world by done.
    apply Hsize. apply elem_of_app. right. apply elem_of_app. by left. }
  unfold drainMounted. unfold cbind at 1. rewrite Hrun4.
  set (t4 := set_rootPart (Some (set_mounted [] (set_locked false r))) t3).
  set (w4 := set_fibers (<[this := t4]> (fibers w3)) w3).
  assert (∀ f, node_of w4 f = node_of w3 f) as Hnode4.
  { by apply (node_of_insert _ _ this t3 t4). }
  destruct (drain_run E Hcall fuel onPatched this patched set_patched w4 t4
              (set_mounted [] (set_locked false r)) s4 (patched r))
    as (s5 & Hrun5 & HF5 & HN5 & Hc5 & Htr5); try done.
  { unfold w4. simpl. by rewrite lookup_insert_eq. }
  { rewrite HF4. unfold w4. simpl. by rewrite !insert_insert_eq. }
  { eapply Forall_impl; [apply (queued_ok_applied_world this t r n); done|].
    intros f. simpl. by rewrite Hnode4. }
  { intros f Hf. unfold hooks_size. rewrite Hnode4.
    fold (hooks_size w3 f). unfold w3.
    rewrite hooks_size_applied_world by done. apply Hsize.
    apply elem_of_app. right. apply elem_of_app. by right. }
  unfold drainPatched. rewrite Hrun5.
  exists s5. split; [done|]. split; [|split; [|done]].
  - rewrite HF5. unfold w4, w3, applied_world. simpl.
    by rewrite !insert_insert_eq.
  - rewrite HN5. done.
Qed.

Lemma RootFiber_complete_run_TypeError this s t r n fuel :
  fibers (world s) !! this = Some t → rootPart t = Some r →
  nodes (world s) !! node t = Some n → ComponentNode.bdom n = None →
  queued_ok (world s) (willPatch r) →
  commit_fuel (world s) (willPatch r) ≤ fuel →
  ∃ s' w2,
    RootFiber_complete E fuel this s = Some (Normal tt s') ∧
    trace s' = trace s ++ willPatch_calls (world s) (willPatch r)
                 ++ [EvHandleError this TypeError] ∧
    world s' = handleError E this TypeError w2 ∧
    fibers w2
    = <[this := set_rootPart (Some (set_locked false r)) t]> (fibers (world s)) ∧
    nodes w2 = nodes (world s).
Proof.
  intros Ht Hr Hn Hnone Hq Hfuel.
  assert (length (willPatch r) < fuel) as Hlw.
  { unfold commit_fuel in Hfuel. lia. }
  assert (∀ f, f ∈ willPatch r → hooks_size (world s) f < fuel) as Hsize.
  { intros f Hf. destruct (commit_fuel_bound (world s) _ f Hf). lia. }
  unfold RootFiber_complete.
  unfold cbind at 1. rewrite (lift_getFiber _ _ _ Ht).
  unfold cbind at 1. rewrite (lift_modRoot _ _ _ _ _ Ht Hr).
  unfold cbind at 1. unfold assign_current. unfold try_catch.
  change (set_current None _) with (locked_frame this t r s).
  set (s1 := locked_frame this t r s).
  set (t1 := set_rootPart (Some (set_locked true r)) t).
  assert (fibers (world s1) = <[this := t1]> (fibers (world s))) as HF1 by done.
  assert (nodes (world s1) = nodes (world s)) as HN1 by done.
  assert (∀ f, node_of (world s1) f = node_of (world s) f) as Hnode1.
  { by apply (node_of_insert _ _ this t t1). }
  unfold RootFiber_try.
  destruct (callWillPatch_run E Hcall fuel this s1 t1 (set_locked true r))
    as (s2 & Hrun2 & HF2 & HN2 & Hc2 & Htr2); try done.
  { by rewrite HF1, lookup_insert_eq. }
  { eapply Forall_impl; [exact Hq|]. intros f. simpl. by rewrite Hnode1. }
  { intros f Hf. unfold hooks_size. rewrite Hnode1. by apply Hsize. }
  unfold cbind at 1. rewrite Hrun2.
  assert (fibers (world s2) !! this = Some t1) as Ht2.
  { by rewrite HF2, HF1, lookup_insert_eq. }
  assert (nodes (world s2) !! node t = Some n) as Hn2.
  { by rewrite HN2, HN1. }
  unfold cbind at 1. unfold patchDom.
  unfold cbind at 1. unfold cbind at 1. rewrite (lift_getNode _ _ _ Hn2).
  unfold cbind at 1. rewrite (lift_getFiber _ _ _ Ht2).
  rewrite Hnone. unfold cbind at 1. unfold throw.
  unfold RootFiber_catch.
  unfold cbind at 1. erewrite lift_modRoot; [|exact Ht2|done].
  unfold cbind, read_current. simpl. rewrite Hc2.
  eexists _, _. split; [reflexivity|]. simpl.
  split; [|split; [done|split]].
  - rewrite Htr2, (willPatch_calls_ext _ _ _ Hnode1). by rewrite <- app_assoc.
  - rewrite HF2, HF1, insert_insert_eq. done.
  - simpl. by rewrite HN2.
Qed.

End FinalState.

(** X14: the stores after a commit whose hooks and patch return without
    touching the fibers and the nodes: the root fiber is unlocked, flagged
    as applied, and its [mounted] and [patched] queues are empty while its
    [willPatch] queue is as before; its node has dropped the fiber; every
    other fiber and node is as before, and no fiber is left as the active
    one. *)
Theorem RootFiber_complete_final_state E this s t r n old fuel :
  hooks_return E → patch_returns E →
  fibers (world s) !! this = Some t → rootPart t = Some r →
  nodes (world s) !! node t = Some n → ComponentNode.bdom n = Some old →
  queued_ok (world s) (willPatch r ++ mounted r ++ patched r) →
  commit_fuel (world s) (willPatch r ++ mounted r ++ patched r) ≤ fuel →
  ∃ s', RootFiber_complete E fuel this s = Some (Normal tt s') ∧
        fibers (world s') = <[this := committed t r]> (fibers (world s)) ∧
        nodes (world s')
        = <[node t := set_node_fiber None n]> (nodes (world s)) ∧
        current s' = None.
Proof. intros Hcall Hpatch. by apply RootFiber_complete_run_state. Qed.

Lemma RootFiber_complete_final_state_witness :
  ∃ s', RootFiber_complete quiet_collaborators 35 1 (start (commit_batch [120]))
        = Some (Normal tt s') ∧
        fibers (world s') !! 1
        = Some (mkFiber 11 (Some 8) 1 None [2; 3] true
                  (Some (mkRootPart 0 [1; 2; 3] [] [] false None))) ∧
        ComponentNode.fiber <$> nodes (world s') !! 11 = Some None.
Proof.
  destruct (RootFiber_complete_final_state quiet_collaborators 1
              (start (commit_batch [120])) (commit_root false)
              (mkRootPart 0 [1; 2; 3] [1; 2; 3] [2; 3] false None)
              (hooked_node (Some 1) (Some 5) MOUNTED [110] [111; 112] [113])
              5 35)
    as (s' & Hrun & HF & HN & _); try reflexivity.
  - intros cb rc w. by exists w.
  - intros old new wc w. by exists w.
  - repeat constructor; vm_compute; eauto.
  - exists s'. split; [exact Hrun|]. rewrite HF, HN. split.
    + apply lookup_insert_eq.
    + simpl node. rewrite lookup_insert_eq. reflexivity.
Defined.

(** X15: a commit for a node that has no output yet.  The [willPatch]
    hooks are called, then the patch fails with a [TypeError] before
    anything is patched; [complete()] returns, the error is handed to
    [handleError] for the root fiber itself, the lock is released, and no
    [mounted] or [patched] hook is called. *)
Theorem RootFiber_complete_without_output E this s t r n fuel :
  hooks_return E →
  fibers (world s) !! this = Some t → rootPart t = Some r →
  nodes (world s) !! node t = Some n → ComponentNode.bdom n = None →
  queued_ok (world s) (willPatch r) →
  commit_fuel (world s) (willPatch r) ≤ fuel →
  ∃ s' w2,
    RootFiber_complete E fuel this s = Some (Normal tt s') ∧
    trace s' = trace s ++ willPatch_calls (world s) (willPatch r)
                 ++ [EvHandleError this TypeError] ∧
    world s' = handleError E this TypeError w2 ∧
    fibers w2
    = <[this := set_rootPart (Some (set_locked false r)) t]> (fibers (world s)) ∧
    nodes w2 = nodes (world s).
Proof. intros Hcall. by apply RootFiber_complete_run_TypeError. Qed.

Lemma RootFiber_complete_without_output_witness :
  ∃ s',
    RootFiber_complete quiet_collaborators 5 1 (start unmounted_batch)
    = Some (Normal tt s') ∧
    trace s' = [EvCall onWillPatch 1 110; EvHandleError 1 TypeError] ∧
    fibers (world s') = fibers unmounted_batch ∧
    nodes (world s') = nodes unmounted_batch.
Proof.
  destruct (RootFiber_complete_without_output quiet_collaborators 1
              (start unmounted_batch)
              (mkFiber 11 (Some 8) 1 None [] false
                 (Some (mkRootPart 0 [1] [1] [1] false None)))
              (mkRootPart 0 [1] [1] [1] false None)
              (hooked_node (Some 1) None NEW [110] [111] [113]) 5)
    as (s' & w2 & Hrun & Htr & Hw & HF & HN); try reflexivity.
  - intros cb rc w. by exists w.
  - repeat constructor; vm_compute; eauto.
  - exists s'. split; [exact Hrun|]. split; [exact Htr|].
    rewrite Hw. simpl. rewrite HF, HN. split; [|done].
    by apply insert_id.
Defined.

(** X16: after a commit in which the hooks and the patch return and
    keep the schedule of [this], the [mounted] and the [patched] queue of
    [this] are empty and its [willPatch] queue is as before. *)
Theorem RootFiber_complete_drains_queues E this s t r n fuel :
  hooks_keep_schedule E this → patch_keeps_schedule E this →
  fibers (world s) !! this = Some t → rootPart t = Some r →
  nodes (world s) !! node t = Some n → is_Some (ComponentNode.bdom n) →
  queued_ok (world s) (willPatch r ++ mounted r ++ patched r) →
  commit_fuel (world s) (willPatch r ++ mounted r ++ patched r) ≤ fuel →
  ∃ s', RootFiber_complete E fuel this s = Some (Normal tt s') ∧
        queues_of (world s') this = Some (willPatch r, [], []).
Proof.
  intros Hcall Hpatch Ht Hr Hn Hold Hq Hfuel.
  destruct (RootFiber_complete_run_scheduled E this s t r n fuel)
    as (s' & _ & _ & _ & _ & Hrun & _ & _ & _ & _ & _ & _ & _ & HQ);
    try done.
  by exists s'.
Qed.

Lemma RootFiber_complete_drains_queues_witness :
  ∃ s',
    RootFiber_complete committing_collaborators 35 1 (start unflagged_batch)
    = Some (Normal tt s') ∧
    queues_of (world s') 1 = Some ([1; 2; 3], [], []).
Proof.
  apply (RootFiber_complete_drains_queues committing_collaborators 1
           (start unflagged_batch) (commit_root false)
           (mkRootPart 0 [1; 2; 3] [1; 2; 3] [2; 3] false None)
           (hooked_node (Some 1) (Some 5) MOUNTED [110] [111; 112] [113])
           35); try reflexivity.
  - intros cb rc w. exists w. split; [done|]. apply keeps_schedule_refl.
  - intros old new wc w. eexists. split; [done|].
    eapply keeps_schedule_trans; apply flag_keeps_schedule.
  - by eexists.
  - repeat constructor; vm_compute; eauto.
Defined.

(** ** The order of the hooks of a mount, and a hook that throws *)

(** X17: the first mount of a node, in which the hooks and the mount
    return and keep the schedule of [this]: the output is mounted in the
    target, before its first child or at its end, then the fibers of the
    [mounted] queue are served from its end to its start; afterwards the
    [mounted] queue is empty and the other two queues are as before. *)
Theorem MountFiber_complete_hook_order E this s t r m n kids fuel :
  hooks_keep_schedule E this → mount_keeps_schedule E this →
  fibers (world s) !! this = Some t → rootPart t = Some r →
  mountPart r = Some m →
  nodes (world s) !! node t = Some n → ComponentNode.bdom n = None →
  (position m = first_child → childNodes (world s) !! target m = Some kids) →
  queued_ok (world s) (mounted r) →
  commit_fuel (world s) (mounted r) ≤ fuel →
  ∃ s' mt,
    MountFiber_complete E fuel this s = Some (Normal tt s') ∧
    trace s'
    = trace s ++ [EvMount (bdom t) (target m)
                    (insertion_point (position m) kids)] ++ mt ∧
    serves (world s) onMounted (rev (mounted r)) mt ∧
    queues_of (world s') this = Some (willPatch r, [], patched r).
Proof.
  intros Hcall Hmount Ht Hr Hm Hn Hnone Hkids Hq Hfuel.
  assert (length (mounted r) < fuel) as Hlm.
  { unfold commit_fuel in Hfuel. lia. }
  assert (∀ f, f ∈ mounted r → hooks_size (world s) f < fuel) as Hsize.
  { intros f Hf. destruct (commit_fuel_bound (world s) _ f Hf). lia. }
  set (Q := (willPatch r, mounted r, patched r)).
  assert (scheduled this (world s) Q (world s)) as Hs0.
  { by apply (scheduled_refl this (world s) t r). }
  unfold MountFiber_complete. unfold cbind at 1. unfold assign_current.
  unfold try_catch, MountFiber_try.
  set (s0 := set_current (Some this) s).
  unfold cbind at 1. rewrite (lift_getFiber s0 _ t) by done.
  unfold cbind at 1.
  rewrite (mountDom_insert E this (node t) s0 n t r m Hn Hnone Ht Hr Hm kids Hkids).
  unfold external.
  set (s1 := output_stored (node t) n t s0).
  assert (scheduled this (world s) Q (world s1)) as Hs1.
  { apply (scheduled_set_node this (world s) Q (world s) (node t) n);
      [done..|by intros []]. }
  destruct (Hmount (bdom t) (target m) (insertion_point (position m) kids)
              (world s1)) as (w2 & -> & Hkeep).
  pose proof (keeps_schedule_scheduled _ _ _ _ _ Hs1 Hkeep) as Hs2.
  destruct (scheduled_root _ _ _ _ Hs2) as (t2 & r2 & Ht2 & Hr2 & HQ).
  destruct (scheduled_node _ _ _ _ (node t) n onMounted Hs2 Hn) as (n2 & Hn2 & _).
  unfold markMounted.
  unfold cbind at 1. unfold cbind at 1.
  erewrite lift_modNode by (simpl; exact Hn2).
  unfold cbind at 1. erewrite lift_modNode by (simpl; apply lookup_insert_eq).
  erewrite lift_modFiber by (simpl; exact Ht2).
  set (w3 := set_nodes (<[node t := set_node_fiber None n2]> (nodes w2)) w2).
  set (w4 := set_nodes
               (<[node t := set_node_status MOUNTED (set_node_fiber None n2)]>
                  (nodes w3)) w3).
  set (w5 := set_fibers (<[this := set_appliedToDom true t2]> (fibers w4)) w4).
  assert (scheduled this (world s) Q w5) as Hs5.
  { apply (scheduled_set_fiber this (world s) Q w4 t2); [|done..].
    apply (scheduled_set_node this (world s) Q w3 (node t)
             (set_node_fiber None n2));
      [|by simpl; rewrite lookup_insert_eq|by intros []].
    by apply (scheduled_set_node this (world s) Q w2 (node t) n2);
      [| |intros []]. }
  destruct (drain_run_scheduled E this (world s) Hcall fuel onMounted mounted
              set_mounted (λ q, (willPatch r, q, patched r))
              (set_world w5 (set_world w4 (set_world w3
                 (set_world w2
                    (log (EvMount (bdom t) (target m)
                            (insertion_point (position m) kids)) s1)))))
              (mounted r))
    as (s6 & mt & Hrun6 & Hs6 & Hc6 & Htr6 & Hmt); try done.
  { by intros r' q [= _ -> _]. }
  { intros r' q v [= H1 _ H3]. simpl. by rewrite H1, H3. }
  unfold drainMounted.
  match goal with
  | |- context [while_pop _ _ _ _ _ ?s] =>
      change (while_pop fuel this mounted set_mounted
                (drain_step E fuel onMounted) s)
        with (while_pop fuel this mounted set_mounted
                (drain_step E fuel onMounted)
                (set_world w5 (set_world w4 (set_world w3
                   (set_world w2
                      (log (EvMount (bdom t) (target m)
                              (insertion_point (position m) kids)) s1))))))
  end.
  rewrite Hrun6.
  exists s6, mt. split; [done|]. split; [|split; [done|]].
  - rewrite Htr6. simpl. by rewrite <- app_assoc.
  - by destruct Hs6 as (_ & _ & HQ6).
Qed.

Lemma MountFiber_complete_hook_order_witness :
  ∃ s' mt,
    MountFiber_complete quiet_collaborators 5 1
      (start (mount1 first_child None (Some 8) [70; 71] [122]))
    = Some (Normal tt s') ∧
    trace s' = [EvMount (Some 8) 50 (Some 70)] ++ mt ∧
    serves (mount1 first_child None (Some 8) [70; 71] [122]) onMounted [2; 1] mt ∧
    trace s' = [EvMount (Some 8) 50 (Some 70);
                EvCall onMounted 2 122; EvCall onMounted 1 113] ∧
    queues_of (world s') 1 = Some ([], [], []).
Proof.
  destruct (MountFiber_complete_hook_order quiet_collaborators 1
              (start (mount1 first_child None (Some 8) [70; 71] [122]))
              (mount_root first_child (Some 8))
              (mkRootPart 0 [] [] [1; 2] false
                 (Some (mkMountPart 50 first_child)))
              (mkMountPart 50 first_child)
              (hooked_node (Some 1) None NEW [] [] [113]) [70; 71] 5)
    as (s' & mt & Hrun & Htr & Hmt & HQ); try reflexivity.
  - intros cb rc w. exists w. split; [done|]. apply keeps_schedule_refl.
  - intros b tg a w. exists w. split; [done|]. apply keeps_schedule_refl.
  - repeat constructor; vm_compute; eauto.
  - exists s', mt. split; [exact Hrun|]. split; [exact Htr|].
    split; [exact Hmt|]. split; [|exact HQ].
    clear Htr Hmt HQ. vm_compute in Hrun. by injection Hrun as <-.
Defined.

Section DrainThrow.
Context (E : Collaborators) (this : loc) (Hkeep : hooks_keep_queues E this).
Context (get : RootPart → list loc) (set : list loc → RootPart → RootPart).
Context (Qof : list loc → list loc * list loc * list loc).
Context (Hget : ∀ r q, (willPatch r, mounted r, patched r) = Qof q → get r = q).
Context (Hset : ∀ r q v, (willPatch r, mounted r, patched r) = Qof q →
                         (willPatch (set v r), mounted (set v r),
                          patched (set v r)) = Qof v).
Context (q0 : list loc).

Lemma triple_drain_step_queue fuel h x :
  triple (λ s, ∃ q1 q2, queues_of (world s) this = Some (Qof q1) ∧
                        q0 = q1 ++ x :: q2 ∧ current s = Some x)
    (drain_step E fuel h x)
    (λ _ s, ∃ q q2, queues_of (world s) this = Some (Qof q) ∧ q0 = q ++ q2)
    (λ _ s, ∃ q1 x q2, q0 = q1 ++ x :: q2 ∧ current s = Some x ∧
                       queues_of (world s) this = Some (Qof q1)).
Proof.
  unfold drain_step.
  apply (triple_cbind _ _ _
           (λ _ s, ∃ q1 q2, queues_of (world s) this = Some (Qof q1) ∧
                            q0 = q1 ++ x :: q2 ∧ current s = Some x)).
  { apply triple_lift. intros s a w Hs [_ ->]%getFiber_Some_inv.
    by rewrite set_world_id. }
  intros fc. destruct (appliedToDom fc).
  - eapply (triple_conseq _ _ _ _ _ _
              (λ _ s, ∃ q1 x q2, q0 = q1 ++ x :: q2 ∧ current s = Some x ∧
                                 queues_of (world s) this = Some (Qof q1))).
    + apply (triple_for_of
               (λ s, ∃ q1 q2, queues_of (world s) this = Some (Qof q1) ∧
                              q0 = q1 ++ x :: q2 ∧ current s = Some x)).
      intros cb. apply triple_external.
      * intros s w (q1 & q2 & HQ & Hq0 & Hc) Hrun. exists q1, q2.
        split; [|done]. simpl. rewrite <- HQ.
        pose proof (Hkeep cb None (world s)) as Hk. by rewrite Hrun in Hk.
      * intros s e w (q1 & q2 & HQ & Hq0 & Hc) Hrun.
        exists q1, x, q2. split; [done|]. split; [done|]. simpl.
        rewrite <- HQ.
        pose proof (Hkeep cb None (world s)) as Hk. by rewrite Hrun in Hk.
    + done.
    + intros a s (q1 & q2 & HQ & Hq0 & _). by exists q1, (x :: q2).
    + done.
  - intros s (q1 & q2 & HQ & Hq0 & _). by exists q1, (x :: q2).
Qed.

Lemma triple_drain_queue fuel h :
  triple (λ s, ∃ q q2, queues_of (world s) this = Some (Qof q) ∧ q0 = q ++ q2)
    (while_pop fuel this get set (drain_step E fuel h))
    (λ _ s, ∃ q q2, queues_of (world s) this = Some (Qof q) ∧ q0 = q ++ q2)
    (λ _ s, ∃ q1 x q2, q0 = q1 ++ x :: q2 ∧ current s = Some x ∧
                       queues_of (world s) this = Some (Qof q1)).
Proof.
  generalize (drain_step E fuel h) (triple_drain_step_queue fuel h).
  intros body Hbody.
  induction fuel as [|n IH]; [done|].
  simpl.
  apply (triple_cbind _ _ _
           (λ r s, ∃ q q2 t, queues_of (world s) this = Some (Qof q) ∧
                             q0 = q ++ q2 ∧ get r = q ∧
                             fibers (world s) !! this = Some t ∧
                             rootPart t = Some r)).
  { apply triple_lift. intros s r w (q & q2 & HQ & Hq0) Hrun.
    apply getRoot_Some_inv in Hrun as (t & Ht & Hr & ->).
    rewrite set_world_id. exists q, q2, t. split; [done|]. split; [done|].
    split; [|done]. apply Hget. unfold queues_of in HQ. rewrite Ht in HQ.
    simpl in HQ. rewrite Hr in HQ. simpl in HQ. by injection HQ. }
  intros r. destruct (last (get r)) as [x|] eqn:Hlast.
  - apply (triple_cbind _ _ _
             (λ _ s, ∃ q1 q2, queues_of (world s) this = Some (Qof q1) ∧
                              q0 = q1 ++ x :: q2)).
    { apply triple_lift. intros s u w (q & q2 & t & HQ & Hq0 & Hq & Ht & Hr) Hrun.
      apply modRoot_Some_inv in Hrun as (t' & r' & Ht' & Hr' & ->).
      rewrite Ht in Ht'. injection Ht' as <-.
      rewrite Hr in Hr'. injection Hr' as <-.
      destruct (last_snoc_removelast (get r))
        as [Hnil|(q' & y & Heq & Hl & Hrm)].
      { rewrite Hnil in Hlast. done. }
      rewrite Hl in Hlast. injection Hlast as ->.
      exists q', q2. split.
      - simpl. unfold queues_of. simpl. rewrite lookup_insert_eq. simpl.
        f_equal. rewrite Hrm. apply (Hset r q).
        unfold queues_of in HQ. rewrite Ht in HQ. simpl in HQ.
        rewrite Hr in HQ. simpl in HQ. by injection HQ.
      - rewrite Hq0, <- Hq, Heq, <- app_assoc. done. }
    intros _. apply (triple_cbind _ _ _
                       (λ _ s, ∃ q1 q2, queues_of (world s) this = Some (Qof q1) ∧
                                        q0 = q1 ++ x :: q2 ∧ current s = Some x)).
    { apply triple_assign_current. intros s (q1 & q2 & HQ & Hq0).
      by exists q1, q2. }
    intros _. eapply triple_cbind; [apply Hbody|]. intros a. apply IH.
  - apply triple_assign_current. intros s (q & q2 & t & HQ & Hq0 & _).
    by exists q, q2.
Qed.

End DrainThrow.

(** X18: when a [mounted] or a [patched] hook throws, the fiber whose
    hook it is and the fibers served before it are off the queue, the
    fibers not yet served are still on it, and the fiber at work is the
    active one. *)
Theorem drain_throw_dequeues E this fuel s e s2 qw qm qp :
  hooks_keep_queues E this →
  queues_of (world s) this = Some (qw, qm, qp) →
  (drainMounted E fuel this s = Some (Abrupt e s2) →
   ∃ q1 x q2, qm = q1 ++ x :: q2 ∧ current s2 = Some x ∧
              queues_of (world s2) this = Some (qw, q1, qp)) ∧
  (drainPatched E fuel this s = Some (Abrupt e s2) →
   ∃ q1 x q2, qp = q1 ++ x :: q2 ∧ current s2 = Some x ∧
              queues_of (world s2) this = Some (qw, qm, q1)).
Proof.
  intros Hkeep HQ. split; intros Hrun.
  - pose proof (triple_drain_queue E this Hkeep mounted set_mounted
                  (λ q, (qw, q, qp))) as Htriple.
    specialize (Htriple ltac:(by intros r q [= _ -> _])).
    specialize (Htriple ltac:(intros r q v [= H1 _ H3]; simpl; by rewrite H1, H3)).
    specialize (Htriple qm fuel onMounted s).
    unfold drainMounted in Hrun. rewrite Hrun in Htriple. apply Htriple.
    exists qm, []. split; [done|]. by rewrite app_nil_r.
  - pose proof (triple_drain_queue E this Hkeep patched set_patched
                  (λ q, (qw, qm, q))) as Htriple.
    specialize (Htriple ltac:(by intros r q [= _ _ ->])).
    specialize (Htriple ltac:(intros r q v [= H1 H2 _]; simpl; by rewrite H1, H2)).
    specialize (Htriple qp fuel onPatched s).
    unfold drainPatched in Hrun. rewrite Hrun in Htriple. apply Htriple.
    exists qp, []. split; [done|]. by rewrite app_nil_r.
Qed.

Lemma drain_throw_dequeues_witness :
  ∃ s2 q1 x q2,
    drainMounted sample_collaborators 5 1
      (start (mount1 first_child None (Some 8) [70; 71] [122; 99]))
    = Some (Abrupt (Thrown 99) s2) ∧
    [1; 2] = q1 ++ x :: q2 ∧ current s2 = Some x ∧
    queues_of (world s2) 1 = Some ([], q1, []).
Proof.
  destruct (drainMounted sample_collaborators 5 1
              (start (mount1 first_child None (Some 8) [70; 71] [122; 99])))
    as [res|] eqn:Hrun; [|vm_compute in Hrun; discriminate].
  assert (∃ s2, res = Abrupt (Thrown 99) s2) as [s2 ->].
  { vm_compute in Hrun. injection Hrun as <-. by eexists. }
  destruct (drain_throw_dequeues sample_collaborators 1 5
              (start (mount1 first_child None (Some 8) [70; 71] [122; 99]))
              (Thrown 99) s2 [] [1; 2] []) as [Hm _].
  - intros cb rc w. simpl. by destruct (decide (cb = 99)).
  - reflexivity.
  - destruct (Hm Hrun) as (q1 & x & q2 & Hq & Hc & HQ).
    by exists s2, q1, x, q2.
Defined.

Local Close Scope cmd_scope.
